(** * cf-agents-task: persistence, integration registry and tool resolution

    A shallow embedding of the backend of the repository:
    - [db/operations.ts]  (class [DbOperations]),
    - [db/index.ts]       (class [DatabaseManager]),
    - [tools/index.ts]    ([integrations], [agentToolMappings],
                           [getToolsByIntegration], [getToolsForAgent]),
    - [server.ts]         (classes [RouterAgent] / [CampaignAgent] and the
                           worker's [fetch] handler).

    Asynchronous code is embedded in a state-and-exception monad over a
    [World] that holds the Postgres tables, the wall clock, the console
    and an oracle deciding which storage statements fail. *)

From stdpp Require Import base option list strings gmap sorting.
From Stdlib Require Import ZArith.

(** ** JavaScript values that the code inspects *)

Module Js.

(** A thrown value.  [code] and [errno] are what the retry loops read
    through [error?.code] and [error?.errno]; [instanceofError] is the
    outcome of [error instanceof Error]. *)
Record Error := {
  name : string;
  code : option string;
  errno : option string;
  message : string;
  instanceofError : bool;
}.

Definition TypeError (msg : string) : Error :=
  {| name := "TypeError"; code := None; errno := None;
     message := msg; instanceofError := true |}.

(** [error?.code === "CONNECTION_ENDED" || error?.errno === "CONNECTION_ENDED"] *)
Definition isConnectionEnded (error : Error) : bool :=
  bool_decide (code error = Some "CONNECTION_ENDED")
  || bool_decide (errno error = Some "CONNECTION_ENDED").

(** The properties every object literal inherits from [Object.prototype];
    all of them are functions, except [__proto__] which is the prototype
    object itself.  None is iterable and all are truthy. *)
Definition objectPrototype : list string :=
  [ "constructor"; "__defineGetter__"; "__defineSetter__";
    "hasOwnProperty"; "__lookupGetter__"; "__lookupSetter__";
    "isPrototypeOf"; "propertyIsEnumerable"; "toString"; "valueOf";
    "__proto__"; "toLocaleString" ].

(** The result of [obj[key]] on an object literal [obj]. *)
Inductive Property (A : Type) : Type :=
| Own (a : A)
| Inherited (member : string)
| Undefined.
Global Arguments Own {A} a.
Global Arguments Inherited {A} member.
Global Arguments Undefined {A}.

Definition get {A} (obj : gmap string A) (key : string) : Property A :=
  match obj !! key with
  | Some a => Own a
  | None =>
      if bool_decide (key ∈ objectPrototype) then Inherited key
      else Undefined
  end.

(** [!!obj[key]] *)
Definition truthy {A} (p : Property A) : bool :=
  match p with
  | Own _ | Inherited _ => true
  | Undefined => false
  end.

(** JSON values stored in the [jsonb] columns.  [JDate] stands for a
    [Date] (or its ISO rendering) taken from the clock. *)
Inductive Json : Type :=
| JNull
| JBool (b : bool)
| JNum (n : Z)
| JStr (s : string)
| JDate (t : Z)
| JObj (fields : list Field)
with Field : Type :=
| field (key : string) (value : Json).

End Js.

(** ** db/schema.ts *)

Module Schema.

(** Primary keys: [uuid] columns are filled by [gen_random_uuid()];
    in-memory chat messages carry ids minted by the client SDK. *)
Inductive Id : Type :=
| Uuid (n : nat)
| ClientId (s : string).

Global Instance Id_eq_dec : EqDecision Id.
Proof. solve_decision. Defined.

Record Message := {
  msg_id : Id;
  msg_agentType : string;
  msg_sessionId : string;
  msg_role : string;
  msg_content : string;
  msg_metadata : Js.Json;
  msg_createdAt : Z;
}.

Record NewMessage := {
  new_msg_agentType : string;
  new_msg_sessionId : string;
  new_msg_role : string;
  new_msg_content : string;
  new_msg_metadata : Js.Json;
}.

Record Session := {
  ses_id : string;
  ses_agentType : string;
  ses_agentName : string;
  ses_metadata : Js.Json;
  ses_createdAt : Z;
  ses_updatedAt : Z;
}.

Record NewSession := {
  new_ses_id : string;
  new_ses_agentType : string;
  new_ses_agentName : string;
  new_ses_metadata : Js.Json;
}.

Record IntegrationConnection := {
  ic_id : Id;
  ic_sessionId : string;
  ic_integrationName : string;
  ic_status : string;
  ic_credentials : Js.Json;
  ic_metadata : Js.Json;
  ic_lastSyncAt : option Z;
  ic_createdAt : Z;
  ic_updatedAt : Z;
}.

Record NewIntegrationConnection := {
  new_ic_sessionId : string;
  new_ic_integrationName : string;
  new_ic_status : string;
  new_ic_lastSyncAt : option Z;
  new_ic_metadata : Js.Json;
}.

Record Prompt := {
  pr_id : Id;
  pr_agentType : string;
  pr_prompt : string;
  pr_createdAt : Z;
  pr_updatedAt : Z;
}.

Record NewPrompt := {
  new_pr_agentType : string;
  new_pr_prompt : string;
}.

End Schema.

(** ** The world the asynchronous code runs in *)

Module World.
Import Schema.

Inductive Level := Log | Warn | Err.

Record t := {
  messages : list Message;
  sessions : list Session;
  integrationConnections : list IntegrationConnection;
  prompts : list Prompt;
  (** outcome of the storage requests still to come: [Some e] makes the
      next request reject with [e]; past the end every request succeeds *)
  faults : list (option Js.Error);
  (** number of storage statements issued so far *)
  statements : nat;
  (** number of [conn.end()] calls issued so far *)
  ended : nat;
  (** [Date.now()], in milliseconds *)
  now : Z;
  (** source of [gen_random_uuid()] *)
  nextUuid : nat;
  (** delays of the [setTimeout] calls awaited so far, oldest first *)
  timeouts : list Z;
  (** console output, oldest first *)
  console : list (Level * string);
}.

Definition setMessages (v : list Message) (w : t) : t :=
  {| messages := v; sessions := sessions w;
     integrationConnections := integrationConnections w;
     prompts := prompts w; faults := faults w;
     statements := statements w; ended := ended w; now := now w;
     nextUuid := nextUuid w; timeouts := timeouts w;
     console := console w |}.

Definition setSessions (v : list Session) (w : t) : t :=
  {| messages := messages w; sessions := v;
     integrationConnections := integrationConnections w;
     prompts := prompts w; faults := faults w;
     statements := statements w; ended := ended w; now := now w;
     nextUuid := nextUuid w; timeouts := timeouts w;
     console := console w |}.

Definition setIntegrationConnections (v : list IntegrationConnection)
    (w : t) : t :=
  {| messages := messages w; sessions := sessions w;
     integrationConnections := v;
     prompts := prompts w; faults := faults w;
     statements := statements w; ended := ended w; now := now w;
     nextUuid := nextUuid w; timeouts := timeouts w;
     console := console w |}.

Definition setPrompts (v : list Prompt) (w : t) : t :=
  {| messages := messages w; sessions := sessions w;
     integrationConnections := integrationConnections w;
     prompts := v; faults := faults w;
     statements := statements w; ended := ended w; now := now w;
     nextUuid := nextUuid w; timeouts := timeouts w;
     console := console w |}.

(** A storage request leaves: one more statement issued, one oracle
    entry consumed. *)
Definition issue (w : t) : t :=
  {| messages := messages w; sessions := sessions w;
     integrationConnections := integrationConnections w;
     prompts := prompts w; faults := tail (faults w);
     statements := S (statements w); ended := ended w; now := now w;
     nextUuid := nextUuid w; timeouts := timeouts w;
     console := console w |}.

Definition issueEnd (w : t) : t :=
  {| messages := messages w; sessions := sessions w;
     integrationConnections := integrationConnections w;
     prompts := prompts w; faults := tail (faults w);
     statements := statements w; ended := S (ended w); now := now w;
     nextUuid := nextUuid w; timeouts := timeouts w;
     console := console w |}.

Definition takeUuid (w : t) : t :=
  {| messages := messages w; sessions := sessions w;
     integrationConnections := integrationConnections w;
     prompts := prompts w; faults := faults w;
     statements := statements w; ended := ended w; now := now w;
     nextUuid := S (nextUuid w); timeouts := timeouts w;
     console := console w |}.

(** [await new Promise(resolve => setTimeout(resolve, ms))] *)
Definition wait (ms : Z) (w : t) : t :=
  {| messages := messages w; sessions := sessions w;
     integrationConnections := integrationConnections w;
     prompts := prompts w; faults := faults w;
     statements := statements w; ended := ended w;
     now := (now w + ms)%Z;
     nextUuid := nextUuid w; timeouts := timeouts w ++ [ms];
     console := console w |}.

Definition print (l : Level) (s : string) (w : t) : t :=
  {| messages := messages w; sessions := sessions w;
     integrationConnections := integrationConnections w;
     prompts := prompts w; faults := faults w;
     statements := statements w; ended := ended w; now := now w;
     nextUuid := nextUuid w; timeouts := timeouts w;
     console := console w ++ [(l, s)] |}.

(** Time passing between two requests. *)
Definition elapse (ms : Z) (w : t) : t :=
  {| messages := messages w; sessions := sessions w;
     integrationConnections := integrationConnections w;
     prompts := prompts w; faults := faults w;
     statements := statements w; ended := ended w;
     now := (now w + ms)%Z;
     nextUuid := nextUuid w; timeouts := timeouts w;
     console := console w |}.

(** The oracle's verdict on the next storage request. *)
Definition nextFault (w : t) : option Js.Error :=
  match faults w with
  | f :: _ => f
  | [] => None
  end.

End World.

(** ** Promises: state passing with exceptions

    A rejected promise keeps the effects that happened before the
    rejection, so the world is returned on both outcomes. *)

Inductive Res (A : Type) : Type :=
| Ok (a : A)
| Throw (e : Js.Error).
Arguments Ok {A} a.
Arguments Throw {A} e.

Definition M (A : Type) : Type := World.t → Res A * World.t.

Global Instance M_ret : MRet M := λ A a w, (Ok a, w).

Global Instance M_bind : MBind M := λ A B f m w,
  match m w with
  | (Ok a, w') => f a w'
  | (Throw e, w') => (Throw e, w')
  end.

Definition throw {A} (e : Js.Error) : M A := λ w, (Throw e, w).

(** [try { body } catch (error) { handler }] *)
Definition try_catch {A} (body : M A) (handler : Js.Error → M A) : M A :=
  λ w,
    match body w with
    | (Ok a, w') => (Ok a, w')
    | (Throw e, w') => handler e w'
    end.

(** effects without a result *)
Definition effect (f : World.t → World.t) : M unit := λ w, (Ok tt, f w).

Definition read {A} (f : World.t → A) : M A := λ w, (Ok (f w), w).

Definition console_log (s : string) : M unit := effect (World.print World.Log s).
Definition console_warn (s : string) : M unit := effect (World.print World.Warn s).
Definition console_error (s : string) : M unit := effect (World.print World.Err s).

(** [new Date()] *)
Definition newDate : M Z := read World.now.

(** [setTimeout] awaited *)
Definition sleep (ms : Z) : M unit := effect (World.wait ms).

(** One awaited SQL statement: rejected when the oracle says so,
    otherwise [run] is its effect on the tables and its result rows. *)
Definition statement {A} (run : World.t → A * World.t) : M A := λ w,
  match World.nextFault w with
  | Some e => (Throw e, World.issue w)
  | None => let '(a, w') := run (World.issue w) in (Ok a, w')
  end.

(** A [return] or [continue] inside the body of a [for] loop. *)
Inductive Step (A : Type) : Type :=
| Continue
| Return (a : A).
Arguments Continue {A}.
Arguments Return {A} a.

(** [for (let attempt = a; attempt <= a + n - 1; attempt++) { body }
     after] *)
Fixpoint for_attempts {A} (n : nat) (attempt : Z)
    (body : Z → M (Step A)) (after : M A) : M A :=
  match n with
  | O => after
  | S k =>
      s ← body attempt;
      match s with
      | Return a => mret a
      | Continue => for_attempts k (attempt + 1)%Z body after
      end
  end.

(** ** What Postgres does with the statements that drizzle builds

    Tables are lists in insertion order.  Each function is the effect of
    one statement on the tables together with the rows it returns. *)

Module Sql.
Import Schema World.

(** [ORDER BY key DESC].  The statement names no second sort key, so
    Postgres is free in the order of rows with equal keys; it hands them
    back in the order it finds them in the table, which is the order of
    insertion, and so does the insertion below. *)
Fixpoint insertDesc {A} (key : A → Z) (x : A) (l : list A) : list A :=
  match l with
  | [] => [x]
  | y :: l' =>
      if (key y <=? key x)%Z then x :: y :: l'
      else y :: insertDesc key x l'
  end.

Definition orderByDesc {A} (key : A → Z) (l : list A) : list A :=
  foldr (insertDesc key) [] l.

(** [ORDER BY key] on a text column *)
Fixpoint insertAsc {A} (key : A → string) (x : A) (l : list A) : list A :=
  match l with
  | [] => [x]
  | y :: l' =>
      if String.ltb (key x) (key y) then x :: y :: l'
      else y :: insertAsc key x l'
  end.

Definition orderByAsc {A} (key : A → string) (l : list A) : list A :=
  foldr (insertAsc key) [] l.

(** [UPDATE ... SET ... WHERE P RETURNING *] *)
Definition update {A} (P : A → Prop) `{∀ x, Decision (P x)}
    (set : A → A) (table : list A) : list A * list A :=
  (set <$> filter P table,
   (λ row, if decide (P row) then set row else row) <$> table).

Definition insertMessage (data : NewMessage) (createdAt : Z)
    (w : World.t) : list Message * World.t :=
  let row := {| msg_id := Uuid (nextUuid w);
                msg_agentType := new_msg_agentType data;
                msg_sessionId := new_msg_sessionId data;
                msg_role := new_msg_role data;
                msg_content := new_msg_content data;
                msg_metadata := new_msg_metadata data;
                msg_createdAt := createdAt |} in
  ([row], setMessages (messages w ++ [row]) (takeUuid w)).

(** [INSERT ... ON CONFLICT (id) DO UPDATE SET updated_at, metadata] *)
Definition upsertSession (data : NewSession) (createdAt updatedAt : Z)
    (conflictUpdatedAt : Z) (w : World.t) : list Session * World.t :=
  if decide (Exists (λ s, ses_id s = new_ses_id data) (sessions w)) then
    let '(rows, table) :=
      update (λ s, ses_id s = new_ses_id data)
        (λ s, {| ses_id := ses_id s; ses_agentType := ses_agentType s;
                 ses_agentName := ses_agentName s;
                 ses_metadata := new_ses_metadata data;
                 ses_createdAt := ses_createdAt s;
                 ses_updatedAt := conflictUpdatedAt |})
        (sessions w) in
    (rows, setSessions table w)
  else
    let row := {| ses_id := new_ses_id data;
                  ses_agentType := new_ses_agentType data;
                  ses_agentName := new_ses_agentName data;
                  ses_metadata := new_ses_metadata data;
                  ses_createdAt := createdAt;
                  ses_updatedAt := updatedAt |} in
    ([row], setSessions (sessions w ++ [row]) w).

Definition updateSession (sessionId : string) (metadata : Js.Json)
    (updatedAt : Z) (w : World.t) : list Session * World.t :=
  let '(rows, table) :=
    update (λ s, ses_id s = sessionId)
      (λ s, {| ses_id := ses_id s; ses_agentType := ses_agentType s;
               ses_agentName := ses_agentName s;
               ses_metadata := metadata;
               ses_createdAt := ses_createdAt s;
               ses_updatedAt := updatedAt |})
      (sessions w) in
  (rows, setSessions table w).

(** The columns that [created_at] and [updated_at] default to are filled
    with the server's [now()]. *)
Definition insertIntegrationConnection
    (connection : NewIntegrationConnection) (w : World.t)
    : list IntegrationConnection * World.t :=
  let row := {| ic_id := Uuid (nextUuid w);
                ic_sessionId := new_ic_sessionId connection;
                ic_integrationName := new_ic_integrationName connection;
                ic_status := new_ic_status connection;
                ic_credentials := Js.JNull;
                ic_metadata := new_ic_metadata connection;
                ic_lastSyncAt := new_ic_lastSyncAt connection;
                ic_createdAt := now w;
                ic_updatedAt := now w |} in
  ([row],
   setIntegrationConnections (integrationConnections w ++ [row])
     (takeUuid w)).

Definition updateIntegrationConnections (sessionId integrationName : string)
    (set : IntegrationConnection → IntegrationConnection) (w : World.t)
    : list IntegrationConnection * World.t :=
  let '(rows, table) :=
    update (λ c, ic_sessionId c = sessionId
                 ∧ ic_integrationName c = integrationName)
      set (integrationConnections w) in
  (rows, setIntegrationConnections table w).

(** [INSERT ... ON CONFLICT (agent_type) DO UPDATE SET prompt, updated_at] *)
Definition upsertPrompt (data : NewPrompt) (createdAt updatedAt : Z)
    (conflictUpdatedAt : Z) (w : World.t) : list Prompt * World.t :=
  if decide (Exists (λ p, pr_agentType p = new_pr_agentType data)
               (prompts w)) then
    let '(rows, table) :=
      update (λ p, pr_agentType p = new_pr_agentType data)
        (λ p, {| pr_id := pr_id p; pr_agentType := pr_agentType p;
                 pr_prompt := new_pr_prompt data;
                 pr_createdAt := pr_createdAt p;
                 pr_updatedAt := conflictUpdatedAt |})
        (prompts w) in
    (rows, setPrompts table w)
  else
    let row := {| pr_id := Uuid (nextUuid w);
                  pr_agentType := new_pr_agentType data;
                  pr_prompt := new_pr_prompt data;
                  pr_createdAt := createdAt;
                  pr_updatedAt := updatedAt |} in
    ([row], setPrompts (prompts w ++ [row]) (takeUuid w)).

(** a [SELECT]: the tables are left as they are *)
Definition select {A} (rows : World.t → list A) (w : World.t)
    : list A * World.t :=
  (rows w, w).

End Sql.

(** ** db/operations.ts

    Console lines carry the literal text of the source; the values
    interpolated into them are left out. *)

Module DbOperations.
Import Schema.

(** The drizzle handle over one postgres.js connection. *)
Inductive Sql : Type := postgres (connectionString : string).
Inductive DB : Type := drizzle (conn : Sql).

Record t := { db : DB }.

(** [Partial<NewIntegrationConnection>], for the fields callers set;
    a field left [undefined] is left out of the [SET] clause. *)
Record Updates := {
  upd_status : option string;
  upd_lastSyncAt : option Z;
  upd_metadata : option Js.Json;
}.

Definition maxRetries : Z := 2.

Definition createSession (this : t) (data : NewSession)
    : M (option Session) :=
  for_attempts (Z.to_nat maxRetries) 1
    (λ attempt,
      try_catch
        (createdAt ← newDate;
         updatedAt ← newDate;
         conflictUpdatedAt ← newDate;
         rows ← statement
           (Sql.upsertSession data createdAt updatedAt conflictUpdatedAt);
         mret (Return (head rows)))
        (λ error,
          console_warn "Error creating session (attempt):";;
          if bool_decide (attempt < maxRetries)%Z
             && Js.isConnectionEnded error
          then
            sleep (100 * attempt);;
            mret Continue
          else
            console_error "Final error creating session:";;
            mret (Return None)))
    (mret None).

Definition updateSessionMetadata (this : t) (sessionId : string)
    (metadata : Js.Json) : M (option Session) :=
  updatedAt ← newDate;
  rows ← statement (Sql.updateSession sessionId metadata updatedAt);
  mret (head rows).

Definition saveMessage (this : t) (data : NewMessage)
    : M (option Message) :=
  try_catch
    (createdAt ← newDate;
     rows ← statement (Sql.insertMessage data createdAt);
     mret (head rows))
    (λ error,
      console_error "Error saving message:";;
      mret None).

Definition getSessionMessages (this : t) (sessionId : string)
    : M (list Message) :=
  statement (Sql.select (λ w,
    Sql.orderByDesc msg_createdAt
      (filter (λ m, msg_sessionId m = sessionId) (World.messages w)))).

Definition getAgentMessages (this : t) (agentType : string) (limit : nat)
    : M (list Message) :=
  for_attempts (Z.to_nat maxRetries) 1
    (λ attempt,
      try_catch
        (rows ← statement (Sql.select (λ w,
           take limit
             (Sql.orderByDesc msg_createdAt
                (filter (λ m, msg_agentType m = agentType)
                   (World.messages w)))));
         mret (Return rows))
        (λ error,
          console_warn "Error getting agent messages (attempt):";;
          if bool_decide (attempt < maxRetries)%Z
             && Js.isConnectionEnded error
          then
            sleep (100 * attempt);;
            mret Continue
          else
            throw error))
    (mret []).

Definition saveIntegrationConnection (this : t)
    (connection : NewIntegrationConnection)
    : M (list IntegrationConnection) :=
  statement (Sql.insertIntegrationConnection connection).

Definition getIntegrationConnection (this : t)
    (sessionId integrationName : string)
    : M (list IntegrationConnection) :=
  statement (Sql.select (λ w,
    take 1
      (filter (λ c, ic_sessionId c = sessionId
                    ∧ ic_integrationName c = integrationName)
         (World.integrationConnections w)))).

Definition getSessionIntegrations (this : t) (sessionId : string)
    : M (list IntegrationConnection) :=
  statement (Sql.select (λ w,
    Sql.orderByDesc ic_createdAt
      (filter (λ c, ic_sessionId c = sessionId)
         (World.integrationConnections w)))).

Definition updateIntegrationConnection (this : t)
    (sessionId integrationName : string) (updates : Updates)
    : M (list IntegrationConnection) :=
  updatedAt ← newDate;
  statement (Sql.updateIntegrationConnections sessionId integrationName
    (λ c, {| ic_id := ic_id c;
             ic_sessionId := ic_sessionId c;
             ic_integrationName := ic_integrationName c;
             ic_status := default (ic_status c) (upd_status updates);
             ic_credentials := ic_credentials c;
             ic_metadata := default (ic_metadata c) (upd_metadata updates);
             ic_lastSyncAt :=
               match upd_lastSyncAt updates with
               | Some t => Some t
               | None => ic_lastSyncAt c
               end;
             ic_createdAt := ic_createdAt c;
             ic_updatedAt := updatedAt |})).

Definition connectIntegration (this : t)
    (sessionId integrationName : string) (metadata : option Js.Json)
    : M (list IntegrationConnection) :=
  rows ← getIntegrationConnection this sessionId integrationName;
  match head rows with
  | Some existing =>
      lastSyncAt ← newDate;
      updateIntegrationConnection this sessionId integrationName
        {| upd_status := Some "connected";
           upd_lastSyncAt := Some lastSyncAt;
           upd_metadata := metadata |}
  | None =>
      lastSyncAt ← newDate;
      saveIntegrationConnection this
        {| new_ic_sessionId := sessionId;
           new_ic_integrationName := integrationName;
           new_ic_status := "connected";
           new_ic_lastSyncAt := Some lastSyncAt;
           new_ic_metadata := default Js.JNull metadata |}
  end.

Definition disconnectIntegration (this : t)
    (sessionId integrationName : string)
    : M (list IntegrationConnection) :=
  updatedAt ← newDate;
  statement (Sql.updateIntegrationConnections sessionId integrationName
    (λ c, {| ic_id := ic_id c;
             ic_sessionId := ic_sessionId c;
             ic_integrationName := ic_integrationName c;
             ic_status := "disconnected";
             ic_credentials := ic_credentials c;
             ic_metadata := ic_metadata c;
             ic_lastSyncAt := ic_lastSyncAt c;
             ic_createdAt := ic_createdAt c;
             ic_updatedAt := updatedAt |})).

Definition getPromptByAgentType (this : t) (agentType : string)
    : M (option Prompt) :=
  for_attempts (Z.to_nat maxRetries) 1
    (λ attempt,
      try_catch
        (rows ← statement (Sql.select (λ w,
           take 1 (filter (λ p, pr_agentType p = agentType)
                     (World.prompts w))));
         mret (Return (head rows)))
        (λ error,
          console_warn "Error getting prompt (attempt):";;
          if bool_decide (attempt < maxRetries)%Z
             && Js.isConnectionEnded error
          then
            sleep (100 * attempt);;
            mret Continue
          else
            console_error "Final error getting prompt:";;
            mret (Return None)))
    (mret None).

Definition createOrUpdatePrompt (this : t) (data : NewPrompt)
    : M (option Prompt) :=
  for_attempts (Z.to_nat maxRetries) 1
    (λ attempt,
      try_catch
        (createdAt ← newDate;
         updatedAt ← newDate;
         conflictUpdatedAt ← newDate;
         rows ← statement
           (Sql.upsertPrompt data createdAt updatedAt conflictUpdatedAt);
         mret (Return (head rows)))
        (λ error,
          console_warn "Error creating/updating prompt (attempt):";;
          if bool_decide (attempt < maxRetries)%Z
             && Js.isConnectionEnded error
          then
            sleep (100 * attempt);;
            mret Continue
          else
            console_error "Final error creating/updating prompt:";;
            mret (Return None)))
    (mret None).

Definition getAllPrompts (this : t) : M (list Prompt) :=
  for_attempts (Z.to_nat maxRetries) 1
    (λ attempt,
      try_catch
        (rows ← statement (Sql.select (λ w,
           Sql.orderByAsc pr_agentType (World.prompts w)));
         mret (Return rows))
        (λ error,
          console_warn "Error getting all prompts (attempt):";;
          if bool_decide (attempt < maxRetries)%Z
             && Js.isConnectionEnded error
          then
            sleep (100 * attempt);;
            mret Continue
          else
            throw error))
    (mret []).

End DbOperations.

(** ** db/index.ts *)

Module DatabaseManager.
Import DbOperations.

Record t := {
  db : option DB;
  conn : option Sql;
  connectionString : string;
}.

Definition new (connectionString : string) : t :=
  {| db := None; conn := None; connectionString := connectionString |}.

(** [getDb()]: the handles, and the manager as the call leaves it. *)
Definition getDb (this : t) : (DB * Sql) * t :=
  match db this, conn this with
  | Some d, Some c => ((d, c), this)
  | _, _ =>
      let c := postgres (connectionString this) in
      let d := drizzle c in
      ((d, c),
       {| db := Some d; conn := Some c;
          connectionString := connectionString this |})
  end.

Definition isConnected (this : t) : bool :=
  bool_decide (db this ≠ None) && bool_decide (conn this ≠ None).

(** [await conn.end()] of postgres.js: counted, and rejected when the
    oracle says so. *)
Definition conn_end (c : Sql) : M unit := λ w,
  match World.nextFault w with
  | Some e => (Throw e, World.issueEnd w)
  | None => (Ok tt, World.issueEnd w)
  end.

(** [close()]: the manager as the call leaves it.  The [finally] block
    runs on both outcomes of the [try]. *)
Definition close (this : t) : M t :=
  match conn this with
  | Some c =>
      try_catch
        (conn_end c;;
         console_log "DatabaseManager: Connection closed")
        (λ error,
          console_warn "DatabaseManager: Error closing connection:");;
      mret {| db := None; conn := None;
              connectionString := connectionString this |}
  | None => mret this
  end.

End DatabaseManager.

(** ** tools/index.ts

    Console output of this module is left out. *)

Module Tools.
Import Schema.

(** A tool descriptor.  Its zod schema and its executor are opaque to
    the resolver, which only reads [name]. *)
Record Tool := {
  tool_name : option string;
  tool_description : string;
}.

Global Instance Tool_eq_dec : EqDecision Tool.
Proof. solve_decision. Defined.

Definition tool (name description : string) : Tool :=
  {| tool_name := Some name; tool_description := description |}.

(** [googleAdsTools] of tools/google-ads.ts; its first entry has no
    [name] property. *)
Definition googleAdsTools : list (string * Tool) :=
  [ ("getGoogleAdsStats",
     {| tool_name := None;
        tool_description := "Get Google Ads campaign statistics including CTR, CPC, impressions, clicks, and conversions" |});
    ("getPaymentInfo",
     tool "getGoogleAdsPaymentInfo"
       "Get Google Ads account payment information and billing status");
    ("getCampaigns",
     tool "getGoogleAdsCampaigns"
       "Get list of all Google Ads campaigns with their current status and performance");
    ("getKeywords",
     tool "getGoogleAdsKeywords"
       "Get keyword performance data including search terms, quality scores, and bid information");
    ("getAudienceInsights",
     tool "getGoogleAdsAudienceInsights"
       "Get audience demographics and interests data for campaigns");
    ("getCompetitorAnalysis",
     tool "getGoogleAdsCompetitorAnalysis"
       "Get competitor insights and auction data for your campaigns") ].

(** [shopifyTools] of tools/shopify.ts *)
Definition shopifyTools : list (string * Tool) :=
  [ ("getStoreStats",
     tool "getShopifyStoreStats"
       "Get overall store statistics including sales, orders, customers, and revenue");
    ("getInventory",
     tool "getShopifyInventory"
       "Get inventory levels, stock status, and product availability");
    ("getOrders",
     tool "getShopifyOrders"
       "Get order information including recent orders, order status, and fulfillment details");
    ("getCustomers",
     tool "getShopifyCustomers"
       "Get customer information including purchase history, lifetime value, and segments");
    ("getProducts",
     tool "getShopifyProducts"
       "Get product catalog information including bestsellers, performance metrics, and variants");
    ("getAnalytics",
     tool "getShopifyAnalytics"
       "Get detailed analytics including traffic sources, conversion funnels, and performance trends") ].

(** [posthogTools] of tools/posthog.ts *)
Definition posthogTools : list (string * Tool) :=
  [ ("getEvents",
     tool "getPostHogEvents"
       "Get event tracking data including user interactions, page views, and custom events");
    ("getFunnelAnalysis",
     tool "getPostHogFunnelAnalysis"
       "Analyze conversion funnels to understand user journey and drop-off points");
    ("getCohortAnalysis",
     tool "getPostHogCohortAnalysis"
       "Analyze user cohorts to understand retention and behavior patterns over time");
    ("getUserSegments",
     tool "getPostHogUserSegments"
       "Get user segmentation data based on behavior, demographics, and engagement patterns");
    ("getFeatureFlags",
     tool "getPostHogFeatureFlags"
       "Get feature flag data including rollout status, user exposure, and performance metrics");
    ("getInsights",
     tool "getPostHogInsights"
       "Get AI-powered insights and recommendations based on user behavior data") ].

Record Integration := {
  name : string;
  description : string;
  category : string;
  tools : list string;
  status : string;
  authRequired : bool;
}.

(** The entries of the [integrations] literal, in source order. *)
Definition integrationEntries : list (string * Integration) :=
  [ ("google-ads",
     {| name := "Google Ads";
        description := "Manage and analyze Google Ads campaigns, keywords, and performance metrics";
        category := "Advertising";
        tools := [ "getGoogleAdsStats"; "getGoogleAdsPaymentInfo";
                   "getGoogleAdsCampaigns"; "getGoogleAdsKeywords";
                   "getGoogleAdsAudienceInsights";
                   "getGoogleAdsCompetitorAnalysis" ];
        status := "available"; authRequired := false |});
    ("shopify",
     {| name := "Shopify";
        description := "Access store data including inventory, orders, customers, and analytics";
        category := "E-commerce";
        tools := [ "getShopifyStoreStats"; "getShopifyInventory";
                   "getShopifyOrders"; "getShopifyCustomers";
                   "getShopifyProducts"; "getShopifyAnalytics" ];
        status := "available"; authRequired := false |});
    ("posthog",
     {| name := "PostHog";
        description := "User analytics, event tracking, feature flags, and behavioral insights";
        category := "Analytics";
        tools := [ "getPostHogEvents"; "getPostHogFunnelAnalysis";
                   "getPostHogCohortAnalysis"; "getPostHogUserSegments";
                   "getPostHogFeatureFlags"; "getPostHogInsights" ];
        status := "available"; authRequired := false |}) ].

Definition integrations : gmap string Integration :=
  list_to_map integrationEntries.

(** [Object.assign(target, source)] on objects whose property order
    matters: a key already present keeps its place and takes the new
    value, a new key goes last. *)
Fixpoint assignProperty {A} (k : string) (v : A) (target : list (string * A))
    : list (string * A) :=
  match target with
  | [] => [(k, v)]
  | (k', v') :: rest =>
      if decide (k' = k) then (k, v) :: rest
      else (k', v') :: assignProperty k v rest
  end.

Definition assign {A} (target source : list (string * A))
    : list (string * A) :=
  foldl (λ acc kv, assignProperty kv.1 kv.2 acc) target source.

Definition getAllTools : list (string * Tool) :=
  assign (assign (assign [] googleAdsTools) shopifyTools) posthogTools.

Definition agentToolMappings : gmap string (list string) :=
  list_to_map
    [ ("auto-agent", ["shopify"; "posthog"]);
      ("campaign-agent", ["google-ads"; "shopify"; "posthog"]) ].

(** The inner [for ... break] of [getToolsByIntegration]: the first
    entry of [allTools] whose [name] is [toolName]. *)
Definition findByName (allTools : list (string * Tool)) (toolName : string)
    : option Tool :=
  (λ hit, hit.2.2) <$>
    list_find (λ entry, tool_name entry.2 = Some toolName) allTools.

Definition getToolsByIntegration (integrationName : string)
    : Res (gmap string Tool) :=
  match Js.get integrations integrationName with
  | Js.Undefined => Ok ∅
  | Js.Inherited _ =>
      (* [integration.tools] is [undefined] on an inherited member *)
      Throw (Js.TypeError
               "Cannot read properties of undefined (reading 'forEach')")
  | Js.Own integration =>
      let allTools := getAllTools in
      Ok (foldl
            (λ (integrationTools : gmap string Tool) toolName,
               match findByName allTools toolName with
               | Some t => <[toolName := t]> integrationTools
               | None => integrationTools
               end)
            ∅ (tools integration))
  end.

Definition convertToolsToAISDKFormat (tools : gmap string Tool)
    : gmap string Tool :=
  tools.

(** [sessionId && dbOps] *)
Definition sessionContext (sessionId : option string)
    (dbOps : option DbOperations.t) : option (string * DbOperations.t) :=
  match sessionId, dbOps with
  | Some s, Some ops => if decide (s = "") then None else Some (s, ops)
  | _, _ => None
  end.

(** [sessionIntegrations.some(conn => conn.integrationName ===
    integrationName && conn.status === "connected")] *)
Definition someConnected (integrationName : string)
    (sessionIntegrations : list IntegrationConnection) : bool :=
  bool_decide
    (Exists (λ conn, ic_integrationName conn = integrationName
                     ∧ ic_status conn = "connected")
       sessionIntegrations).

Definition liftRes {A} (r : Res A) : M A :=
  match r with
  | Ok a => mret a
  | Throw e => throw e
  end.

(** The body of the [for (const integrationName of integrationNames)]
    loop of [getToolsForAgent], over the names still to visit. *)
Fixpoint forIntegrationNames (integrationNames : list string)
    (sessionId : option string) (dbOps : option DbOperations.t)
    (agentTools : gmap string Tool) : M (gmap string Tool) :=
  match integrationNames with
  | [] => mret agentTools
  | integrationName :: rest =>
      isConnected ←
        match sessionContext sessionId dbOps with
        | Some (sid, ops) =>
            try_catch
              (sessionIntegrations ←
                 DbOperations.getSessionIntegrations ops sid;
               mret (someConnected integrationName sessionIntegrations))
              (λ error,
                (* Default to connected for development *)
                mret true)
        | None =>
            (* Default to connected if no session/db context *)
            mret true
        end;
      agentTools' ←
        (if isConnected : bool then
           tools ← liftRes (getToolsByIntegration integrationName);
           mret (tools ∪ agentTools)
         else mret agentTools);
      forIntegrationNames rest sessionId dbOps agentTools'
  end.

(** [for ... of] over a value that is not iterable throws a [TypeError];
    its message is worded as V8 words it. *)
Definition getToolsForAgent (agentType : string)
    (sessionId : option string) (dbOps : option DbOperations.t)
    : M (gmap string Tool) :=
  match Js.get agentToolMappings agentType with
  | Js.Own integrationNames =>
      agentTools ← forIntegrationNames integrationNames sessionId dbOps ∅;
      mret (convertToolsToAISDKFormat agentTools)
  | Js.Inherited member =>
      throw (Js.TypeError "integrationNames is not iterable")
  | Js.Undefined =>
      throw (Js.TypeError "integrationNames is not iterable")
  end.

Definition isIntegrationConnected (integrationName : string)
    (sessionId : option string) : bool :=
  true.

End Tools.

(** ** server.ts: the chat agents

    [RouterAgent] and [CampaignAgent] are the same class text up to three
    literals, collected in [Kind].  The transcript [this.messages] is the
    one the [AIChatAgent] base class keeps.  A method that assigns to a
    field of [this] returns the agent as it leaves it. *)

Module Agent.
Import Schema.

Record Kind := {
  agentType : string;
  agentName : string;
  persistentSessionId : string;
}.

Definition RouterAgent : Kind :=
  {| agentType := "router-agent"; agentName := "RouterAgent";
     persistentSessionId := "router-agent-persistent" |}.

Definition CampaignAgent : Kind :=
  {| agentType := "campaign-agent"; agentName := "CampaignAgent";
     persistentSessionId := "campaign-agent-persistent" |}.

Record ChatMessage := {
  role : string;
  content : string;
  id : Id;
}.

Record t := {
  dbManager : option DatabaseManager.t;
  dbOps : option DbOperations.t;
  sessionId : string;
  systemPrompt : string;
  messages : list ChatMessage;
}.

Definition setMessages (v : list ChatMessage) (this : t) : t :=
  {| dbManager := dbManager this; dbOps := dbOps this;
     sessionId := sessionId this; systemPrompt := systemPrompt this;
     messages := v |}.

Definition setSessionId (v : string) (this : t) : t :=
  {| dbManager := dbManager this; dbOps := dbOps this;
     sessionId := v; systemPrompt := systemPrompt this;
     messages := messages this |}.

Definition setDbManager (v : option DatabaseManager.t) (this : t) : t :=
  {| dbManager := v; dbOps := dbOps this;
     sessionId := sessionId this; systemPrompt := systemPrompt this;
     messages := messages this |}.

(** [this.dbOps && this.sessionId] *)
Definition storage (this : t) : option DbOperations.t :=
  match dbOps this with
  | Some ops => if decide (sessionId this = "") then None else Some ops
  | None => None
  end.

(** [for (const x of xs) { await body(x) }] *)
Fixpoint for_of {A} (xs : list A) (body : A → M unit) : M unit :=
  match xs with
  | [] => mret tt
  | x :: rest => body x;; for_of rest body
  end.

(** [this.messages.push({ role, content, id })] for one stored row *)
Definition push (this : t) (dbMessage : Message) : t :=
  setMessages
    (messages this ++
       [ {| role := msg_role dbMessage;
            content := msg_content dbMessage;
            id := msg_id dbMessage |} ])
    this.

Definition restoreConversationHistory (k : Kind) (this : t) : M t :=
  match storage this with
  | None => mret this
  | Some ops =>
      try_catch
        (savedMessages ← DbOperations.getAgentMessages ops (agentType k) 50;
         if bool_decide (0 < length savedMessages) then
           console_log (agentName k +:+ ": Restoring previous messages");;
           let sortedMessages := reverse savedMessages in
           let this' := foldl push (setMessages [] this) sortedMessages in
           console_log (agentName k +:+ ": Successfully restored messages");;
           mret this'
         else
           console_log
             (agentName k +:+ ": No previous conversation history found");;
           mret this)
        (λ error,
          console_error
            (agentName k +:+ ": Failed to restore conversation history:");;
          console_log
            (agentName k +:+ ": Continuing without restored history");;
          mret this)
  end.

Definition onConnect (k : Kind) (connectionId : string) (this : t) : M t :=
  console_log (agentName k +:+ " connected");;
  let this := setSessionId (persistentSessionId k) this in
  match dbOps this with
  | None => mret this
  | Some ops =>
      try_catch
        (startedAt ← newDate;
         lastConnectionAt ← newDate;
         session ← DbOperations.createSession ops
           {| new_ses_id := sessionId this;
              new_ses_agentType := agentType k;
              new_ses_agentName := sessionId this;
              new_ses_metadata :=
                Js.JObj [ Js.field "startedAt" (Js.JDate startedAt);
                          Js.field "connectionId" (Js.JStr connectionId);
                          Js.field "lastConnectionAt"
                            (Js.JDate lastConnectionAt) ] |};
         (if session is Some _ then
            console_log (agentName k +:+ " session created/updated successfully")
          else mret tt);;
         restoreConversationHistory k this)
        (λ error,
          console_warn
            ("Failed to create " +:+ agentName k
             +:+ " session (continuing anyway):");;
          mret this)
  end.

Definition onClose (k : Kind) (connectionId : string) (this : t) : M t :=
  console_log (agentName k +:+ " disconnected");;
  (* Save all messages to database before closing *)
  match storage this with
  | Some ops =>
      if bool_decide (0 < length (messages this)) then
        try_catch
          (console_log (agentName k +:+ ": Saving messages to database on close");;
           for_of (messages this) (λ message,
             timestamp ← newDate;
             DbOperations.saveMessage ops
               {| new_msg_agentType := agentType k;
                  new_msg_sessionId := sessionId this;
                  new_msg_role := role message;
                  new_msg_content := content message;
                  new_msg_metadata :=
                    Js.JObj [ Js.field "timestamp" (Js.JDate timestamp);
                              Js.field "agentName" (Js.JStr (agentName k));
                              Js.field "savedOnClose" (Js.JBool true) ] |};;
             mret tt);;
           console_log
             (agentName k +:+ ": Successfully saved all messages on close"))
          (λ error,
            console_error
              (agentName k +:+ ": Failed to save messages on close:"))
      else mret tt
  | None => mret tt
  end;;
  match dbManager this with
  | Some manager =>
      manager' ←
        try_catch (DatabaseManager.close manager)
          (λ error,
            console_warn "Error closing database connection:";;
            mret {| DatabaseManager.db := None;
                    DatabaseManager.conn := None;
                    DatabaseManager.connectionString :=
                      DatabaseManager.connectionString manager |});
      mret (setDbManager (Some manager') this)
  | None => mret this
  end.

Definition getMessageCount (this : t) : M nat :=
  match storage this with
  | None => mret 0
  | Some ops =>
      try_catch
        (rows ← DbOperations.getSessionMessages ops (sessionId this);
         mret (length rows))
        (λ error,
          console_warn "Failed to get message count:";;
          mret 0)
  end.

(** What [streamText] hands to its [onFinish] callback. *)
Record StreamResult := {
  text : string;
  finishReason : string;
  usage : Js.Json;
}.

(** The external text generation, as far as the agent can tell. *)
Inductive Generation : Type :=
| Throws (error : Js.Error)
    (* [streamText] or [mergeIntoDataStream] throws *)
| Finishes (result : StreamResult)
    (* the stream completes and the [onFinish] callback runs *)
| Pending.
    (* the stream is cut short: the callback never runs *)

(** "Save user message before processing - only if message count > 10" *)
Definition saveUserMessage (k : Kind) (this : t) : M unit :=
  let userMessage := last (messages this) in
  match storage this with
  | Some ops =>
      if bool_decide (role <$> userMessage = Some "user")
         && bool_decide (10 < length (messages this))
      then
        try_catch
          (timestamp ← newDate;
           savedMessage ← DbOperations.saveMessage ops
             {| new_msg_agentType := agentType k;
                new_msg_sessionId := sessionId this;
                new_msg_role := "user";
                new_msg_content := default "" (content <$> userMessage);
                new_msg_metadata :=
                  Js.JObj [ Js.field "timestamp" (Js.JDate timestamp);
                            Js.field "agentName" (Js.JStr (agentName k)) ] |};
           console_log (agentName k +:+ " user message saved"))
          (λ error, console_error "Failed to save user message:")
      else mret tt
  | None => mret tt
  end.

(** The [onFinish] closure given to [streamText]: "Save assistant
    response after completion - only if message count > 10", then the
    caller's callback.  [onFinish], when given, is the SDK's callback;
    it works on the transcript only. *)
Definition streamOnFinish (k : Kind) (this : t)
    (onFinish : option (StreamResult → t → t)) (result : StreamResult)
    : M t :=
  match storage this with
  | Some ops =>
      if bool_decide (10 < length (messages this)) then
        try_catch
          (timestamp ← newDate;
           savedResponse ← DbOperations.saveMessage ops
             {| new_msg_agentType := agentType k;
                new_msg_sessionId := sessionId this;
                new_msg_role := "assistant";
                new_msg_content := text result;
                new_msg_metadata :=
                  Js.JObj
                    [ Js.field "timestamp" (Js.JDate timestamp);
                      Js.field "agentName" (Js.JStr (agentName k));
                      Js.field "responseLength"
                        (Js.JNum (Z.of_nat (String.length (text result))));
                      Js.field "finishReason"
                        (Js.JStr (finishReason result));
                      Js.field "usage" (usage result) ] |};
           console_log (agentName k +:+ " assistant response saved");;
           (* Update session metadata *)
           lastActivity ← newDate;
           messageCount ← getMessageCount this;
           DbOperations.updateSessionMetadata ops (sessionId this)
             (Js.JObj [ Js.field "lastActivity" (Js.JDate lastActivity);
                        Js.field "messageCount"
                          (Js.JNum (Z.of_nat messageCount)) ]);;
           mret tt)
          (λ error, console_error "Failed to save assistant response:")
      else mret tt
  | None => mret tt
  end;;
  mret (match onFinish with
        | Some callback => callback result this
        | None => this
        end).

(** "Save error message to database - only if message count > 10" *)
Definition saveErrorMessage (k : Kind) (this : t) (error : Js.Error)
    : M unit :=
  match storage this with
  | Some ops =>
      if bool_decide (10 < length (messages this)) then
        try_catch
          (timestamp ← newDate;
           DbOperations.saveMessage ops
             {| new_msg_agentType := agentType k;
                new_msg_sessionId := sessionId this;
                new_msg_role := "system";
                new_msg_content :=
                  "Error processing message: " +:+
                  (if Js.instanceofError error then Js.message error
                   else "Unknown error");
                new_msg_metadata :=
                  Js.JObj [ Js.field "error" (Js.JBool true);
                            Js.field "timestamp" (Js.JDate timestamp) ] |};;
           mret tt)
          (λ dbError, console_error "Failed to save error message:")
      else mret tt
  | None => mret tt
  end.

(** The [execute] callback of [createDataStreamResponse].  A [Throw] is
    the error handed on to the data stream.  [createOpenAI] only builds
    the client object that [streamText] is given. *)
Definition execute (k : Kind) (this : t)
    (onFinish : option (StreamResult → t → t)) (generation : Generation)
    : M t :=
  finished ←
    try_catch
      (tools ← Tools.getToolsForAgent (agentType k)
                 (Some (sessionId this)) (dbOps this);
       console_log (agentName k +:+ " available tools:");;
       match generation with
       | Throws error => throw error
       | Finishes result => mret (Some result)
       | Pending => mret None
       end)
      (λ error,
        console_error ("Error in " +:+ agentName k +:+ " onChatMessage:");;
        saveErrorMessage k this error;;
        throw error);
  match finished with
  | Some result => streamOnFinish k this onFinish result
  | None => mret this
  end.

(** The [Response] of [createDataStreamResponse].  It is returned at
    once, with status 200, and its body is the data stream that the
    [execute] callback feeds.  [res_stream] is how the callback ends: the
    agent as the callback leaves it, or the error the callback throws,
    which the SDK does not rethrow to the caller but writes to the stream
    as an error part. *)
Record Response := {
  res_status : nat;
  res_stream : Res t;
}.

(** The world handed on is the world once the stream has run to its
    end. *)
Definition createDataStreamResponse (execute : M t) : M Response := λ w,
  let '(outcome, w') := execute w in
  (Ok {| res_status := 200; res_stream := outcome |}, w').

Definition onChatMessage (k : Kind) (this : t)
    (onFinish : option (StreamResult → t → t)) (generation : Generation)
    : M Response :=
  saveUserMessage k this;;
  createDataStreamResponse (execute k this onFinish generation).

End Agent.

(** ** server.ts: the worker's [fetch] handler *)

Module Worker.
Import Schema.

Record Env := {
  OPENAI_API_KEY : string;
  HYPERDRIVE_connectionString : string;
}.

Record Request := {
  method : string;
  pathname : string;
  (** [url.searchParams.get("sessionId")] *)
  searchSessionId : option string;
  (** [request.headers.get("x-session-id")] *)
  headerSessionId : option string;
}.

(** One element of the listing returned by [GET /api/integrations]. *)
Record Listed := {
  listed_id : string;
  listed_integration : Tools.Integration;
  listed_connected : bool;
  listed_lastSync : option Z;
  listed_toolsCount : nat;
}.

Inductive Body : Type :=
| NoBody
| KeyCheck (success : bool)
| Listing (integrations : list Listed)
| Failure (error : string) (details : option string)
| Success (integration status message : string)
| Text (s : string).

Record Response := {
  status : nat;
  body : Body;
}.

Definition slash : Ascii.ascii := Ascii.ascii_of_nat 47.

(** [s.split("/").pop()]: what follows the last ["/"] of [s]. *)
Fixpoint afterLastSlash (s : string) (segment : string) : string :=
  match s with
  | EmptyString => segment
  | String c rest =>
      if Ascii.eqb c slash then afterLastSlash rest ""
      else afterLastSlash rest (segment +:+ String c "")
  end.

Definition popSplit (s : string) : string := afterLastSlash s "".

(** [a || b] on two nullable strings, then its truthiness *)
Definition orElse (a b : option string) : option string :=
  match a with
  | Some s => if decide (s = "") then b else Some s
  | None => b
  end.

Definition given (s : option string) : option string :=
  match s with
  | Some v => if decide (v = "") then None else Some v
  | None => None
  end.

Definition jsonHeaders (status : nat) (body : Body) : Response :=
  {| status := status; body := body |}.

(** [getIntegrationStatus(key)] spread into one listing entry *)
Definition listEntry (entry : string * Tools.Integration) : M Listed :=
  lastSync ← newDate;
  mret {| listed_id := entry.1;
          listed_integration := entry.2;
          listed_connected :=
            Tools.isIntegrationConnected entry.1 None;
          listed_lastSync := Some lastSync;
          listed_toolsCount := length (Tools.tools entry.2) |}.

Fixpoint mapM {A B} (f : A → M B) (l : list A) : M (list B) :=
  match l with
  | [] => mret []
  | x :: rest => y ← f x; ys ← mapM f rest; mret (y :: ys)
  end.

Definition operations (env : Env) : DbOperations.t * DatabaseManager.t :=
  let dbManager := DatabaseManager.new (HYPERDRIVE_connectionString env) in
  let '((db, _), dbManager) := DatabaseManager.getDb dbManager in
  ({| DbOperations.db := db |}, dbManager).

(** [routeAgentRequest] is the SDK's router; [routed] is what it
    answers for this request, if anything. *)
Definition fetch (request : Request) (env : Env) (routed : option Response)
    : M Response :=
  let fallThrough :=
    mret (default {| status := 404; body := Text "Not found" |} routed) in
  if decide (method request = "OPTIONS") then
    mret {| status := 200; body := NoBody |}
  else if decide (pathname request = "/check-open-ai-key") then
    mret (jsonHeaders 200
            (KeyCheck (bool_decide (OPENAI_API_KEY env ≠ ""))))
  else if String.prefix "/api/integrations" (pathname request) then
    handled ←
      try_catch
        (let sessionId :=
           orElse (searchSessionId request) (headerSessionId request) in
         if bool_decide (pathname request = "/api/integrations")
            && bool_decide (method request = "GET")
         then
           integrationList ← mapM listEntry Tools.integrationEntries;
           integrationList ←
             match given sessionId with
             | Some sessionId =>
                 try_catch
                   (let '(dbOps, dbManager) := operations env in
                    sessionIntegrations ←
                      DbOperations.getSessionIntegrations dbOps sessionId;
                    let connected (name : string) :=
                      bool_decide
                        (Exists (λ conn, ic_status conn = "connected"
                                         ∧ ic_integrationName conn = name)
                           sessionIntegrations) in
                    let lastSync (name : string) :=
                      match list_find
                              (λ conn, ic_integrationName conn = name)
                              sessionIntegrations with
                      | Some hit => ic_lastSyncAt hit.2
                      | None => None
                      end in
                    let updated :=
                      (λ integration,
                         {| listed_id := listed_id integration;
                            listed_integration :=
                              listed_integration integration;
                            listed_connected :=
                              connected (listed_id integration);
                            listed_lastSync :=
                              lastSync (listed_id integration);
                            listed_toolsCount :=
                              listed_toolsCount integration |})
                        <$> integrationList in
                    DatabaseManager.close dbManager;;
                    mret updated)
                   (λ error,
                     console_error "Failed to get session integrations:";;
                     mret integrationList)
             | None => mret integrationList
             end;
           mret (Some (jsonHeaders 200 (Listing integrationList)))
         else if String.prefix "/api/integrations/" (pathname request)
                 && bool_decide (method request = "POST")
         then
           (* Connect an integration *)
           let integrationName := popSplit (pathname request) in
           if bool_decide (integrationName = "")
              || negb (Js.truthy (Js.get Tools.integrations integrationName))
           then
             mret (Some (jsonHeaders 404
                           (Failure "Integration not found" None)))
           else
             match given sessionId with
             | None =>
                 mret (Some (jsonHeaders 400
                               (Failure "Session ID required" None)))
             | Some sessionId =>
                 try_catch
                   (let '(dbOps, dbManager) := operations env in
                    connectedAt ← newDate;
                    DbOperations.connectIntegration dbOps sessionId
                      integrationName
                      (Some (Js.JObj
                         [ Js.field "connectedAt" (Js.JDate connectedAt);
                           Js.field "source" (Js.JStr "api") ]));;
                    DatabaseManager.close dbManager;;
                    mret (Some (jsonHeaders 200
                            (Success integrationName "connected"
                               ("Successfully connected to "
                                +:+ integrationName)))))
                   (λ error,
                     console_error "Failed to connect integration:";;
                     mret (Some (jsonHeaders 500
                             (Failure "Failed to connect integration"
                                (Some (if Js.instanceofError error
                                       then Js.message error
                                       else "Unknown error"))))))
             end
         else if String.prefix "/api/integrations/" (pathname request)
                 && bool_decide (method request = "DELETE")
         then
           (* Disconnect an integration *)
           let integrationName := popSplit (pathname request) in
           if bool_decide (integrationName = "")
              || negb (Js.truthy (Js.get Tools.integrations integrationName))
           then
             mret (Some (jsonHeaders 404
                           (Failure "Integration not found" None)))
           else
             match given sessionId with
             | None =>
                 mret (Some (jsonHeaders 400
                               (Failure "Session ID required" None)))
             | Some sessionId =>
                 try_catch
                   (let '(dbOps, dbManager) := operations env in
                    DbOperations.disconnectIntegration dbOps sessionId
                      integrationName;;
                    DatabaseManager.close dbManager;;
                    mret (Some (jsonHeaders 200
                            (Success integrationName "disconnected"
                               ("Successfully disconnected from "
                                +:+ integrationName)))))
                   (λ error,
                     console_error "Failed to disconnect integration:";;
                     mret (Some (jsonHeaders 500
                             (Failure "Failed to disconnect integration"
                                (Some (if Js.instanceofError error
                                       then Js.message error
                                       else "Unknown error"))))))
             end
         else mret None)
        (λ error,
          mret (Some (jsonHeaders 500
                        (Failure "Internal server error" None))));
    match handled with
    | Some response => mret response
    | None => fallThrough
    end
  else fallThrough.

End Worker.


(** ** db/operations.ts: the remaining methods

    [findSession] and [deleteOldMessages] work on the tables of the
    world.  The methods on tool executions and [deleteSession] also need
    the [tool_executions] table, which is kept beside the world in
    [Executions.Store]. *)

Module SqlRest.
Import Schema World.

(** [DELETE FROM messages WHERE P] *)
Definition deleteMessages (P : Message → Prop) `{∀ m, Decision (P m)}
    (w : World.t) : unit * World.t :=
  (tt, setMessages (filter (λ m, ¬ P m) (messages w)) w).

(** [DELETE FROM sessions WHERE P] *)
Definition deleteSessions (P : Session → Prop) `{∀ s, Decision (P s)}
    (w : World.t) : unit * World.t :=
  (tt, setSessions (filter (λ s, ¬ P s) (sessions w)) w).

(** The tables of [before] with everything else of [after]: what a
    [ROLLBACK] leaves. *)
Definition restoreTables (before after : World.t) : World.t :=
  {| messages := messages before; sessions := sessions before;
     integrationConnections := integrationConnections before;
     prompts := prompts before; faults := faults after;
     statements := statements after; ended := ended after;
     now := now after; nextUuid := nextUuid after;
     timeouts := timeouts after; console := console after |}.

End SqlRest.

Module DbOperationsRest.
Import Schema.

Definition findSession (this : DbOperations.t) (sessionId : string)
    : M (option Session) :=
  rows ← statement (Sql.select (λ w,
    take 1 (filter (λ s, ses_id s = sessionId) (World.sessions w))));
  mret (head rows).

Definition millisecondsPerDay : Z := 86400000.

(** A [Date] holds a time of at most 8.64e15 milliseconds either side of
    the epoch; a setter that leaves this range makes the date invalid. *)
Definition maxTime : Z := 8640000000000000.

Definition RangeError (msg : string) : Js.Error :=
  {| Js.name := "RangeError"; Js.code := None; Js.errno := None;
     Js.message := msg; Js.instanceofError := true |}.

(** [cutoffDate.setDate(cutoffDate.getDate() - olderThanDays)] on a clock
    kept in UTC, as the worker's is: whole days are taken off.  An invalid
    date cannot be bound as the parameter of the comparison: turning it
    into its ISO string throws a [RangeError] while the query is built,
    before any statement is sent. *)
Definition deleteOldMessages (this : DbOperations.t) (olderThanDays : Z)
    : M unit :=
  cutoffDate ← newDate;
  let cutoffDate := (cutoffDate - olderThanDays * millisecondsPerDay)%Z in
  if decide (- maxTime ≤ cutoffDate ≤ maxTime)%Z
  then statement (SqlRest.deleteMessages (λ m, msg_createdAt m = cutoffDate))
  else throw (RangeError "Invalid time value").

End DbOperationsRest.

Module Executions.
Import Schema.

Record ToolExecution := {
  te_id : Id;
  te_sessionId : string;
  te_toolName : string;
  te_input : Js.Json;
  te_output : Js.Json;
  te_status : string;
  te_executedAt : Z;
}.

Record NewToolExecution := {
  new_te_sessionId : string;
  new_te_toolName : string;
  new_te_input : Js.Json;
  new_te_status : string;
}.

Record Store := {
  world : World.t;
  toolExecutions : list ToolExecution;
}.

Definition setWorld (w : World.t) (s : Store) : Store :=
  {| world := w; toolExecutions := toolExecutions s |}.

Definition setToolExecutions (v : list ToolExecution) (s : Store) : Store :=
  {| world := world s; toolExecutions := v |}.

End Executions.

(** Promises over the store. *)
Definition T (A : Type) : Type :=
  Executions.Store → Res A * Executions.Store.

Global Instance T_ret : MRet T := λ A a s, (Ok a, s).

Global Instance T_bind : MBind T := λ A B f m s,
  match m s with
  | (Ok a, s') => f a s'
  | (Throw e, s') => (Throw e, s')
  end.

(** A promise that only needs the world. *)
Definition lift {A} (m : M A) : T A := λ s,
  let '(r, w') := m (Executions.world s) in (r, Executions.setWorld w' s).

Definition try_catchT {A} (body : T A) (handler : Js.Error → T A) : T A :=
  λ s,
    match body s with
    | (Ok a, s') => (Ok a, s')
    | (Throw e, s') => handler e s'
    end.

(** One awaited SQL statement that may touch [tool_executions]. *)
Definition statementT {A}
    (run : Executions.Store → A * Executions.Store) : T A := λ s,
  let issued := Executions.setWorld (World.issue (Executions.world s)) s in
  match World.nextFault (Executions.world s) with
  | Some e => (Throw e, issued)
  | None => let '(a, s') := run issued in (Ok a, s')
  end.

(** [db.transaction(async (tx) => body)]: [BEGIN] and [COMMIT] are
    requests of their own; when the body or the [COMMIT] is rejected the
    tables are as they were before [BEGIN] and the error is rethrown. *)
Definition transaction {A} (body : T A) : T A := λ s,
  let rollback (s' : Executions.Store) : Executions.Store :=
    {| Executions.world :=
         SqlRest.restoreTables (Executions.world s) (Executions.world s');
       Executions.toolExecutions := Executions.toolExecutions s |} in
  match statementT (λ s0, (tt, s0)) s with
  | (Throw e, s1) => (Throw e, s1)
  | (Ok _, s1) =>
      match body s1 with
      | (Throw e, s2) => (Throw e, rollback s2)
      | (Ok a, s2) =>
          match statementT (λ s0, (tt, s0)) s2 with
          | (Throw e, s3) => (Throw e, rollback s3)
          | (Ok _, s3) => (Ok a, s3)
          end
      end
  end.

Module ToolExecutions.
Import Schema Executions.

Definition logToolExecution (this : DbOperations.t)
    (data : NewToolExecution) : T (option ToolExecution) :=
  try_catchT
    (executedAt ← lift newDate;
     rows ← statementT (λ s,
       let row := {| te_id := Uuid (World.nextUuid (world s));
                     te_sessionId := new_te_sessionId data;
                     te_toolName := new_te_toolName data;
                     te_input := new_te_input data;
                     te_output := Js.JNull;
                     te_status := new_te_status data;
                     te_executedAt := executedAt |} in
       ([row],
        {| world := World.takeUuid (world s);
           toolExecutions := toolExecutions s ++ [row] |}));
     mret (head rows))
    (λ error,
      lift (console_error "Error logging tool execution:");;
      mret None).

Definition updateToolExecution (this : DbOperations.t) (id : Id)
    (output : Js.Json) (status : string) : T (option ToolExecution) :=
  rows ← statementT (λ s,
    let '(rows, table) :=
      Sql.update (λ e, te_id e = id)
        (λ e, {| te_id := te_id e; te_sessionId := te_sessionId e;
                 te_toolName := te_toolName e; te_input := te_input e;
                 te_output := output; te_status := status;
                 te_executedAt := te_executedAt e |})
        (toolExecutions s) in
    (rows, setToolExecutions table s));
  mret (head rows).

Definition getSessionToolExecutions (this : DbOperations.t)
    (sessionId : string) : T (list ToolExecution) :=
  statementT (λ s,
    (Sql.orderByDesc te_executedAt
       (filter (λ e, te_sessionId e = sessionId) (toolExecutions s)), s)).

Definition deleteSession (this : DbOperations.t) (sessionId : string)
    : T unit :=
  transaction
    ((* Delete all messages for this session *)
     lift (statement
             (SqlRest.deleteMessages (λ m, msg_sessionId m = sessionId)));;
     (* Delete all tool executions for this session *)
     statementT (λ s,
       (tt, setToolExecutions
              (filter (λ e, ¬ te_sessionId e = sessionId) (toolExecutions s))
              s));;
     (* Delete the session itself *)
     lift (statement
             (SqlRest.deleteSessions (λ s, ses_id s = sessionId)))).

End ToolExecutions.

(** ** server.ts: the remaining methods of the agents *)

Module AgentRest.
Import Schema.

Definition setSystemPrompt (v : string) (this : Agent.t) : Agent.t :=
  {| Agent.dbManager := Agent.dbManager this;
     Agent.dbOps := Agent.dbOps this;
     Agent.sessionId := Agent.sessionId this;
     Agent.systemPrompt := v;
     Agent.messages := Agent.messages this |}.

Definition loadSystemPrompt (k : Agent.Kind) (this : Agent.t) : M Agent.t :=
  match Agent.dbOps this with
  | None => mret this
  | Some ops =>
      try_catch
        (promptRecord ←
           DbOperations.getPromptByAgentType ops (Agent.agentType k);
         match promptRecord with
         | Some record =>
             if decide (pr_prompt record = "") then
               console_log
                 (Agent.agentName k
                  +:+ ": No prompt found in database, using empty prompt");;
               mret (setSystemPrompt "" this)
             else
               console_log
                 (Agent.agentName k +:+ ": Loaded custom system prompt");;
               mret (setSystemPrompt (pr_prompt record) this)
         | None =>
             console_log
               (Agent.agentName k
                +:+ ": No prompt found in database, using empty prompt");;
             mret (setSystemPrompt "" this)
         end)
        (λ error,
          console_error
            (Agent.agentName k +:+ ": Failed to load system prompt:");;
          console_log
            (Agent.agentName k +:+ ": Using empty prompt due to error");;
          mret (setSystemPrompt "" this))
  end.

Definition onStart (k : Agent.Kind) (this : Agent.t) : M Agent.t :=
  console_log (Agent.agentName k +:+ ": Starting up");;
  loadSystemPrompt k this.

Definition connectIntegration (k : Agent.Kind) (this : Agent.t)
    (integrationName : string) : M bool :=
  match Agent.storage this with
  | None => mret false
  | Some ops =>
      try_catch
        (connectedAt ← newDate;
         DbOperations.connectIntegration ops (Agent.sessionId this)
           integrationName
           (Some (Js.JObj
              [ Js.field "connectedAt" (Js.JDate connectedAt);
                Js.field "source" (Js.JStr "agent");
                Js.field "agentType" (Js.JStr (Agent.agentType k)) ]));;
         console_log (Agent.agentName k +:+ " connected integration");;
         mret true)
        (λ error,
          console_error "Failed to connect integration";;
          mret false)
  end.

Definition disconnectIntegration (k : Agent.Kind) (this : Agent.t)
    (integrationName : string) : M bool :=
  match Agent.storage this with
  | None => mret false
  | Some ops =>
      try_catch
        (DbOperations.disconnectIntegration ops (Agent.sessionId this)
           integrationName;;
         console_log (Agent.agentName k +:+ " disconnected integration");;
         mret true)
        (λ error,
          console_error "Failed to disconnect integration";;
          mret false)
  end.

(** [logToolStart]: the id of the new execution, or [null] *)
Definition logToolStart (k : Agent.Kind) (this : Agent.t)
    (toolName : string) (input : Js.Json) : T (option Id) :=
  match Agent.storage this with
  | None => mret None
  | Some ops =>
      try_catchT
        (execution ← ToolExecutions.logToolExecution ops
           {| Executions.new_te_sessionId := Agent.sessionId this;
              Executions.new_te_toolName := toolName;
              Executions.new_te_input := input;
              Executions.new_te_status := "pending" |};
         lift (console_log (Agent.agentName k +:+ " tool execution started"));;
         mret (Executions.te_id <$> execution))
        (λ error,
          lift (console_error "Failed to log tool start:");;
          mret None)
  end.

(** [executionId] as the guard [!executionId] sees it: [null] and the
    empty string are falsy *)
Definition givenId (executionId : option Id) : option Id :=
  match executionId with
  | Some (ClientId "") => None
  | _ => executionId
  end.

Definition logToolComplete (k : Agent.Kind) (this : Agent.t)
    (executionId : option Id) (output : Js.Json) (status : string)
    : T unit :=
  match Agent.dbOps this, givenId executionId with
  | Some ops, Some executionId =>
      try_catchT
        (ToolExecutions.updateToolExecution ops executionId output status;;
         lift (console_log
                 (Agent.agentName k +:+ " tool execution completed")))
        (λ error, lift (console_error "Failed to log tool completion:"))
  | _, _ => mret tt
  end.

End AgentRest.

(** ** frontend lib/sessionManager.ts

    [localStorage] is a map from keys to strings.  [Date.now()] and
    [Math.random()], rendered in base 36, are inputs of
    [generateSessionId].  Console output is left out. *)

Module SessionManager.

Definition SESSION_KEY : string := "user-session-id".
Definition SESSION_PREFIX : string := "user-session".

Definition generateSessionId (timestamp randomPart : string) : string :=
  SESSION_PREFIX +:+ "-" +:+ timestamp +:+ "-" +:+ randomPart.

(** [getSessionId()]: the id, and [localStorage] as the call leaves it *)
Definition getSessionId (timestamp randomPart : string)
    (localStorage : gmap string string) : string * gmap string string :=
  match Worker.given (localStorage !! SESSION_KEY) with
  | Some sessionId => (sessionId, localStorage)
  | None =>
      let sessionId := generateSessionId timestamp randomPart in
      (sessionId, <[SESSION_KEY := sessionId]> localStorage)
  end.

Definition clearSession (localStorage : gmap string string)
    : gmap string string :=
  delete SESSION_KEY localStorage.

Record SessionInfo := {
  sessionId : string;
  created : string;
  isNew : bool;
}.

Definition getSessionInfo (timestamp randomPart : string)
    (localStorage : gmap string string)
    : SessionInfo * gmap string string :=
  let '(sessionId, localStorage) :=
    getSessionId timestamp randomPart localStorage in
  let created :=
    default "unknown"
      (Worker.given (localStorage !! (SESSION_KEY +:+ "-created"))) in
  ({| sessionId := sessionId; created := created;
      isNew := bool_decide
                 (Worker.given (localStorage !! SESSION_KEY) = None) |},
   localStorage).

Definition getAgentSessionId (agentType : string) : string :=
  agentType +:+ "-persistent".

End SessionManager.
(** ** Vocabulary of the statements below *)

(** The oracle's verdict on the [n]-th storage request from now. *)
Definition nthFault (n : nat) (w : World.t) : option Js.Error :=
  default None (World.faults w !! n).

(** No storage request fails from now on. *)
Definition healthy (w : World.t) : Prop :=
  Forall (λ f, f = None) (World.faults w).

(** Between [w] and [w'], exactly [n] storage statements were issued and
    exactly the timers [delays] were awaited, which is all the time that
    passed; the oracle entries after the first [n] are still unread. *)
Definition spent (w w' : World.t) (n : nat) (delays : list Z) : Prop :=
  World.statements w' = World.statements w + n
  ∧ World.timeouts w' = World.timeouts w ++ delays
  ∧ World.now w' = (World.now w + foldr Z.add 0 delays)%Z
  ∧ World.faults w' = drop n (World.faults w).

(** The retry contract of one wrapped storage call [op] whose terminal
    behaviour on a final error [e] is [terminal e]. *)
Definition RetryContract {A} (op : M A) (terminal : Js.Error → Res A)
    : Prop :=
  ∀ w e1, nthFault 0 w = Some e1 →
    (Js.isConnectionEnded e1 = false →
       ∃ w', op w = (terminal e1, w') ∧ spent w w' 1 [])
    ∧ (Js.isConnectionEnded e1 = true →
       ∃ w', spent w w' 2 [(100 * 1)%Z]
             ∧ match nthFault 1 w with
               | Some e2 => op w = (terminal e2, w')
               | None => ∃ a, op w = (Ok a, w')
               end).

(** The rows of the registry for one (session, integration) pair. *)
Definition rowsFor (sessionId integrationName : string) (w : World.t)
    : list Schema.IntegrationConnection :=
  filter (λ c, Schema.ic_sessionId c = sessionId
               ∧ Schema.ic_integrationName c = integrationName)
    (World.integrationConnections w).

(** No (session, integration) pair has more than one row. *)
Definition wellKeyed (w : World.t) : Prop :=
  ∀ S X, length (rowsFor S X w) ≤ 1.

(** The stored messages of one agent role, oldest insertion first. *)
Definition messagesOf (agentType : string) (w : World.t)
    : list Schema.Message :=
  filter (λ m, Schema.msg_agentType m = agentType) (World.messages w).

(** A stored row as it appears in the transcript after a restore. *)
Definition asChatMessage (m : Schema.Message) : Agent.ChatMessage :=
  {| Agent.role := Schema.msg_role m;
     Agent.content := Schema.msg_content m;
     Agent.id := Schema.msg_id m |}.

(** Storage statements touch the tables and the uuid source only. *)
Definition sameIO (w w' : World.t) : Prop :=
  World.statements w' = World.statements w
  ∧ World.timeouts w' = World.timeouts w
  ∧ World.now w' = World.now w
  ∧ World.faults w' = World.faults w.

(** What the registry reports for one (session, integration) pair: some
    row of the pair has status [connected]. *)
Definition reportsConnected (sessionId integrationName : string)
    (w : World.t) : Prop :=
  Exists (λ c, Schema.ic_sessionId c = sessionId
               ∧ Schema.ic_integrationName c = integrationName
               ∧ Schema.ic_status c = "connected")
    (World.integrationConnections w).

Global Instance reportsConnected_dec s i w : Decision (reportsConnected s i w).
Proof. unfold reportsConnected. apply _. Defined.

(** The resolver's verdict on its [i]-th candidate: the [i]-th registry
    query is the [i]-th storage request of the call. *)
Definition verdict (sessionId : option string) (dbOps : option DbOperations.t)
    (w : World.t) (i : nat) (integrationName : string) : bool :=
  match Tools.sessionContext sessionId dbOps with
  | None => true
  | Some (sid, _) =>
      match nthFault i w with
      | Some _ => true
      | None => bool_decide (reportsConnected sid integrationName w)
      end
  end.

(** The tool bundle of an integration. *)
Definition bundle (integrationName : string) : gmap string Tools.Tool :=
  match Tools.getToolsByIntegration integrationName with
  | Ok tools => tools
  | Throw _ => ∅
  end.

(** What the resolver's loop accumulates over the candidates from the
    [i]-th on. *)
Fixpoint resolved (sessionId : option string) (dbOps : option DbOperations.t)
    (w : World.t) (i : nat) (names : list string)
    (agentTools : gmap string Tools.Tool) : gmap string Tools.Tool :=
  match names with
  | [] => agentTools
  | name :: rest =>
      resolved sessionId dbOps w (S i) rest
        (if verdict sessionId dbOps w i name then bundle name ∪ agentTools
         else agentTools)
  end.

(** The computation never writes to the [messages] table. *)
Definition keepsMessages {A} (m : M A) : Prop :=
  ∀ w, World.messages (m w).2 = World.messages w.

(** The computation leaves healthy storage healthy. *)
Definition staysHealthy {A} (m : M A) : Prop :=
  ∀ w, healthy w → healthy (m w).2.

(** The computation never rejects. *)
Definition total {A} (m : M A) : Prop :=
  ∀ w, ∃ a w', m w = (Ok a, w').

(** The body of the flush loop of [onClose]. *)
Definition flushOne (k : Agent.Kind) (this : Agent.t) (ops : DbOperations.t)
    (message : Agent.ChatMessage) : M unit :=
  timestamp ← newDate;
  DbOperations.saveMessage ops
    {| Schema.new_msg_agentType := Agent.agentType k;
       Schema.new_msg_sessionId := Agent.sessionId this;
       Schema.new_msg_role := Agent.role message;
       Schema.new_msg_content := Agent.content message;
       Schema.new_msg_metadata :=
         Js.JObj [ Js.field "timestamp" (Js.JDate timestamp);
                   Js.field "agentName" (Js.JStr (Agent.agentName k));
                   Js.field "savedOnClose" (Js.JBool true) ] |};;
  mret tt.

(** The error that ends the data stream of a chat turn, if any: tool
    resolution throws for an agent type that has no candidate list, and
    otherwise the generation may throw. *)
Definition turnError (k : Agent.Kind) (generation : Agent.Generation)
    : option Js.Error :=
  match Tools.agentToolMappings !! Agent.agentType k with
  | None => Some (Js.TypeError "integrationNames is not iterable")
  | Some _ =>
      match generation with
      | Agent.Throws error => Some error
      | _ => None
      end
  end.

(** Role and content of the rows that a chat turn above the threshold
    writes, in order: the inbound message when the last message is the
    user's, then the error record or the assistant's reply. *)
Definition turnRows (k : Agent.Kind) (this : Agent.t)
    (generation : Agent.Generation) : list (string * string) :=
  match last (Agent.messages this) with
  | Some m =>
      if decide (Agent.role m = "user") then [("user", Agent.content m)]
      else []
  | None => []
  end
  ++ match turnError k generation, generation with
     | Some error, _ =>
         [("system",
           "Error processing message: "
           +:+ (if Js.instanceofError error then Js.message error
                else "Unknown error"))]
     | None, Agent.Finishes result => [("assistant", Agent.text result)]
     | None, _ => []
     end.

(** A request to the worker that carries no session id. *)
Definition bare (method pathname : string) : Worker.Request :=
  {| Worker.method := method; Worker.pathname := pathname;
     Worker.searchSessionId := None; Worker.headerSessionId := None |}.

(** ** Sample values *)

Module Sample.

Definition world : World.t :=
  {| World.messages := []; World.sessions := [];
     World.integrationConnections := []; World.prompts := [];
     World.faults := []; World.statements := 0; World.ended := 0;
     World.now := 1700000000000%Z; World.nextUuid := 0;
     World.timeouts := []; World.console := [] |}.

Definition withFaults (fs : list (option Js.Error)) (w : World.t)
    : World.t :=
  {| World.messages := World.messages w;
     World.sessions := World.sessions w;
     World.integrationConnections := World.integrationConnections w;
     World.prompts := World.prompts w;
     World.faults := fs; World.statements := World.statements w;
     World.ended := World.ended w; World.now := World.now w;
     World.nextUuid := World.nextUuid w;
     World.timeouts := World.timeouts w;
     World.console := World.console w |}.

Definition connectionEnded : Js.Error :=
  {| Js.name := "PostgresError"; Js.code := Some "CONNECTION_ENDED";
     Js.errno := Some "CONNECTION_ENDED";
     Js.message := "write CONNECTION_ENDED"; Js.instanceofError := true |}.

Definition uniqueViolation : Js.Error :=
  {| Js.name := "PostgresError"; Js.code := Some "23505";
     Js.errno := None;
     Js.message := "duplicate key value violates unique constraint";
     Js.instanceofError := true |}.

Definition dbOps : DbOperations.t :=
  {| DbOperations.db :=
       DbOperations.drizzle (DbOperations.postgres "postgres://db") |}.

Definition dbManager : DatabaseManager.t :=
  (DatabaseManager.getDb (DatabaseManager.new "postgres://db")).2.

Definition said (role content : string) (n : string)
    : Agent.ChatMessage :=
  {| Agent.role := role; Agent.content := content;
     Agent.id := Schema.ClientId n |}.

Definition agent (k : Agent.Kind) (transcript : list Agent.ChatMessage)
    : Agent.t :=
  {| Agent.dbManager := Some dbManager; Agent.dbOps := Some dbOps;
     Agent.sessionId := Agent.persistentSessionId k;
     Agent.systemPrompt := ""; Agent.messages := transcript |}.

(** [world] after [session-1] connected shopify *)
Definition registry : World.t :=
  (DbOperations.connectIntegration dbOps "session-1" "shopify" None
     world).2.

Definition stored (n : nat) (agentType role content : string) (t : Z)
    : Schema.Message :=
  {| Schema.msg_id := Schema.Uuid n; Schema.msg_agentType := agentType;
     Schema.msg_sessionId := agentType +:+ "-persistent";
     Schema.msg_role := role; Schema.msg_content := content;
     Schema.msg_metadata := Js.JNull; Schema.msg_createdAt := t |}.

(** a table holding three messages of the router and one of the
    campaign agent *)
Definition archive : World.t :=
  World.setMessages
    [ stored 0 "router-agent" "user" "hello" 10;
      stored 1 "campaign-agent" "user" "budget?" 15;
      stored 2 "router-agent" "assistant" "hi there" 20;
      stored 3 "router-agent" "user" "connect shopify" 30 ]
    world.

(** a transcript of [n] user messages *)
Definition chatter (n : nat) : list Agent.ChatMessage :=
  replicate n (said "user" "ping" "m").

Definition reply : Agent.StreamResult :=
  {| Agent.text := "pong"; Agent.finishReason := "stop";
     Agent.usage := Js.JNull |}.

(** an agent holding one live message *)
Definition liveAgent : Agent.t :=
  agent Agent.RouterAgent [ said "user" "still here" "m1" ].

(** a world whose next storage request fails for good *)
Definition failing : World.t :=
  withFaults [ Some uniqueViolation ] world.

Definition session : Schema.NewSession :=
  {| Schema.new_ses_id := "router-agent-persistent";
     Schema.new_ses_agentType := "router-agent";
     Schema.new_ses_agentName := "router-agent-persistent";
     Schema.new_ses_metadata := Js.JNull |}.

Definition prompt : Schema.NewPrompt :=
  {| Schema.new_pr_agentType := "router-agent";
     Schema.new_pr_prompt := "You route requests." |}.

End Sample.


(** * More vocabulary *)

(** The four tables are the same in both worlds. *)
Definition sameTables (w w' : World.t) : Prop :=
  World.messages w' = World.messages w
  ∧ World.sessions w' = World.sessions w
  ∧ World.integrationConnections w' = World.integrationConnections w
  ∧ World.prompts w' = World.prompts w.

(** The registry queries one resolution makes. *)
Definition queries (sessionId : option string)
    (dbOps : option DbOperations.t) (names : list string) : nat :=
  match Tools.sessionContext sessionId dbOps with
  | Some _ => length names
  | None => 0
  end.

(** [w'] is [w] after [n] more storage statements that changed no table
    and ended no connection. *)
Definition onlyRead (w w' : World.t) (n : nat) : Prop :=
  sameTables w w'
  ∧ World.ended w' = World.ended w
  ∧ World.statements w' = World.statements w + n.

(** Everything but the registry table is the same in both worlds, and so
    are the registry rows of every pair other than ([S], [X]). *)
Definition onlyPair (S X : string) (w w' : World.t) : Prop :=
  World.messages w' = World.messages w
  ∧ World.sessions w' = World.sessions w
  ∧ World.prompts w' = World.prompts w
  ∧ ∀ S' X', (S', X') ≠ (S, X) → rowsFor S' X' w' = rowsFor S' X' w.

(** One call on the registry for a fixed pair. *)
Inductive Call : Type :=
| Connect (metadata : option Js.Json)
| Disconnect.

Definition registryCall (this : DbOperations.t) (S X : string) (c : Call)
    : M (list Schema.IntegrationConnection) :=
  match c with
  | Connect metadata => DbOperations.connectIntegration this S X metadata
  | Disconnect => DbOperations.disconnectIntegration this S X
  end.

(** The world after a sequence of calls, one after the other. *)
Fixpoint afterCalls (this : DbOperations.t) (S X : string) (cs : list Call)
    (w : World.t) : World.t :=
  match cs with
  | [] => w
  | c :: cs => afterCalls this S X cs (registryCall this S X c w).2
  end.

(** The session id a request carries: the query parameter or else the
    header, an empty string counting as none. *)
Definition sessionOf (request : Worker.Request) : option string :=
  Worker.given
    (Worker.orElse (Worker.searchSessionId request)
       (Worker.headerSessionId request)).

(** A name that the name check of the integrations API lets through. *)
Definition passesNameCheck (name : string) : Prop :=
  name ≠ "" ∧ Js.truthy (Js.get Tools.integrations name) = true.

(** The listing entry of [getIntegrationStatus]: connected, synced now. *)
Definition defaultEntry (now : Z) (entry : string * Tools.Integration)
    : Worker.Listed :=
  {| Worker.listed_id := entry.1;
     Worker.listed_integration := entry.2;
     Worker.listed_connected := true;
     Worker.listed_lastSync := Some now;
     Worker.listed_toolsCount := length (Tools.tools entry.2) |}.

(** A call that issues at least one and at most [n] storage statements,
    for every behaviour of storage. *)
Definition bounded {A} (op : M A) (n : nat) : Prop :=
  ∀ w, World.statements w < World.statements (op w).2 ≤ World.statements w + n.

(** The elements of [ms] whose storage request is accepted, when the
    [i]-th element is sent with the [i]-th request. *)
Fixpoint acceptedOf {A} (faults : list (option Js.Error)) (ms : list A)
    {struct ms} : list A :=
  match ms with
  | [] => []
  | m :: ms' =>
      match faults with
      | [] => ms
      | None :: faults' => m :: acceptedOf faults' ms'
      | Some _ :: faults' => acceptedOf faults' ms'
      end
  end.

(** What a stored row and a transcript message have in common. *)
Definition spoken (m : Agent.ChatMessage) : string * string :=
  (Agent.role m, Agent.content m).

Definition spokenRow (r : Schema.Message) : string * string :=
  (Schema.msg_role r, Schema.msg_content r).

(** The manager after [close()]. *)
Definition closed (manager : DatabaseManager.t) : DatabaseManager.t :=
  match DatabaseManager.conn manager with
  | Some _ =>
      {| DatabaseManager.db := None; DatabaseManager.conn := None;
         DatabaseManager.connectionString :=
           DatabaseManager.connectionString manager |}
  | None => manager
  end.

(** The number of open connections an agent holds: one or none. *)
Definition connectionsHeld (this : Agent.t) : nat :=
  match Agent.dbManager this with
  | Some manager =>
      match DatabaseManager.conn manager with Some _ => 1 | None => 0 end
  | None => 0
  end.

(** Everything but the [sessions] table is the same in both worlds. *)
Definition sameButSessions (w w' : World.t) : Prop :=
  World.messages w' = World.messages w
  ∧ World.integrationConnections w' = World.integrationConnections w
  ∧ World.prompts w' = World.prompts w.

(** The rows of one session in the [messages] table. *)
Definition sessionRows (sessionId : string) (w : World.t)
    : list Schema.Message :=
  filter (λ m, Schema.msg_sessionId m = sessionId) (World.messages w).

(** The answer to a request that the worker itself has no route for:
    what the agent router answers, or 404. *)
Definition unhandled (routed : option Worker.Response) : Worker.Response :=
  default {| Worker.status := 404; Worker.body := Worker.Text "Not found" |}
    routed.

(** The first rejection among the next [n] storage requests, if any. *)
Definition firstFault (n : nat) (w : World.t) : option Js.Error :=
  head (omap id (take n (World.faults w))).

(** The row of a tool execution once it is completed. *)
Definition completed (e : Executions.ToolExecution) (output : Js.Json)
    (status : string) : Executions.ToolExecution :=
  {| Executions.te_id := Executions.te_id e;
     Executions.te_sessionId := Executions.te_sessionId e;
     Executions.te_toolName := Executions.te_toolName e;
     Executions.te_input := Executions.te_input e;
     Executions.te_output := output; Executions.te_status := status;
     Executions.te_executedAt := Executions.te_executedAt e |}.

(** ** More sample values *)

Module Scenario.

Definition env : Worker.Env :=
  {| Worker.OPENAI_API_KEY := "sk-test";
     Worker.HYPERDRIVE_connectionString := "postgres://db" |}.

(** the panel's request for one integration of the campaign agent *)
Definition call (method name : string) : Worker.Request :=
  {| Worker.method := method;
     Worker.pathname := "/api/integrations/" +:+ name;
     Worker.searchSessionId := Some "campaign-agent-persistent";
     Worker.headerSessionId := None |}.

Definition listing : Worker.Request :=
  {| Worker.method := "GET";
     Worker.pathname := "/api/integrations";
     Worker.searchSessionId := Some "session-1";
     Worker.headerSessionId := None |}.

(** a store without tool executions *)
Definition store : Executions.Store :=
  {| Executions.world := Sample.world; Executions.toolExecutions := [] |}.

(** [Sample.world] after the router agent's session was created *)
Definition connected : World.t :=
  (DbOperations.createSession Sample.dbOps Sample.session Sample.world).2.

(** storage that rejects the second request only *)
Definition flaky : World.t :=
  Sample.withFaults [ None; Some Sample.uniqueViolation ] Sample.world.

(** 51 stored messages of the router agent, one per millisecond *)
Definition longArchive : World.t :=
  World.setMessages
    ((λ i, Sample.stored i "router-agent" "user" "ping" (Z.of_nat i))
       <$> seq 0 51)
    Sample.world.

(** a transcript of three messages *)
Definition transcript : list Agent.ChatMessage :=
  [ Sample.said "user" "one" "m1"; Sample.said "assistant" "two" "m2";
    Sample.said "user" "three" "m3" ].

End Scenario.
(** * Properties *)

Import Schema.

(** ** Running promises *)

Ltac run_step :=
  unfold mbind, M_bind, mret, M_ret, try_catch, throw, newDate, read, sleep,
    console_log, console_warn, console_error, effect.

Lemma run_bind {A B} (m : M A) (f : A → M B) (w : World.t) :
  (m ≫= f) w =
  match m w with
  | (Ok a, w') => f a w'
  | (Throw e, w') => (Throw e, w')
  end.
Proof. reflexivity. Qed.

Lemma run_ret {A} (a : A) (w : World.t) : mret (M := M) a w = (Ok a, w).
Proof. reflexivity. Qed.

Lemma nextFault_nth (w : World.t) : World.nextFault w = nthFault 0 w.
Proof. unfold World.nextFault, nthFault. destruct (World.faults w); reflexivity. Qed.

Lemma nthFault_issue (n : nat) (w : World.t) :
  nthFault n (World.issue w) = nthFault (S n) w.
Proof. unfold nthFault. simpl. destruct (World.faults w); reflexivity. Qed.

Lemma nthFault_print n l s w : nthFault n (World.print l s w) = nthFault n w.
Proof. reflexivity. Qed.

Lemma nthFault_wait n ms w : nthFault n (World.wait ms w) = nthFault n w.
Proof. reflexivity. Qed.

Lemma healthy_next (w : World.t) : healthy w → World.nextFault w = None.
Proof.
  unfold healthy, World.nextFault. intros H.
  destruct (World.faults w) as [|f fs]; [done|]. by inversion H.
Qed.

Lemma healthy_issue (w : World.t) : healthy w → healthy (World.issue w).
Proof.
  unfold healthy. simpl. intros H.
  destruct (World.faults w); simpl; [done|]. by inversion H.
Qed.

Lemma statement_ok {A} (run : World.t → A * World.t) (w : World.t) :
  World.nextFault w = None →
  statement run w = (Ok (run (World.issue w)).1, (run (World.issue w)).2).
Proof.
  intros H. unfold statement. rewrite H. by destruct (run (World.issue w)).
Qed.

Lemma statement_fault {A} (run : World.t → A * World.t) (w : World.t) e :
  World.nextFault w = Some e →
  statement run w = (Throw e, World.issue w).
Proof. intros H. unfold statement. by rewrite H. Qed.

Lemma drop_tail {A} (n : nat) (l : list A) : drop n (tail l) = drop (S n) l.
Proof. destruct l; simpl; [by rewrite drop_nil|done]. Qed.

Lemma healthy_elapse d w : healthy w → healthy (World.elapse d w).
Proof. done. Qed.

Lemma spent_intro w w' n ds :
  World.statements w' = World.statements w + n →
  World.timeouts w' = World.timeouts w ++ ds →
  World.now w' = (World.now w + foldr Z.add 0 ds)%Z →
  World.faults w' = drop n (World.faults w) →
  spent w w' n ds.
Proof. by repeat split. Qed.

(** ** What the statements do to the tables *)

Lemma sameIO_upsertSession d a b c w :
  sameIO w (Sql.upsertSession d a b c w).2.
Proof.
  unfold Sql.upsertSession. case_decide; [|done].
  by destruct (Sql.update _ _ _).
Qed.

Lemma sameIO_upsertPrompt d a b c w :
  sameIO w (Sql.upsertPrompt d a b c w).2.
Proof.
  unfold Sql.upsertPrompt. case_decide; [|done].
  by destruct (Sql.update _ _ _).
Qed.

Lemma sameIO_select {A} (rows : World.t → list A) w :
  sameIO w (Sql.select rows w).2.
Proof. done. Qed.

Section update.
Context {A : Type} (P : A → Prop) `{∀ x, Decision (P x)} (set : A → A).
Hypothesis set_keeps : ∀ x, P (set x) ↔ P x.

Lemma update_returning (table : list A) :
  (Sql.update P set table).1 = set <$> filter P table.
Proof. reflexivity. Qed.

Lemma update_length (table : list A) :
  length (Sql.update P set table).2 = length table.
Proof. simpl. by rewrite length_fmap. Qed.

Lemma update_filter (table : list A) :
  filter P (Sql.update P set table).2 = set <$> filter P table.
Proof.
  simpl. induction table as [|x l IH]; [done|].
  rewrite fmap_cons. destruct (decide (P x)) as [Hx|Hx].
  - rewrite filter_cons_True by by apply set_keeps.
    rewrite (filter_cons_True P x) by done. rewrite fmap_cons. by rewrite IH.
  - rewrite filter_cons_False by done.
    by rewrite (filter_cons_False P x) by done.
Qed.

Lemma update_none (table : list A) :
  filter P table = [] → (Sql.update P set table).2 = table.
Proof.
  simpl. induction table as [|x l IH]; [done|]. intros Hf.
  rewrite fmap_cons. destruct (decide (P x)) as [Hx|Hx].
  - by rewrite filter_cons_True in Hf.
  - rewrite filter_cons_False in Hf by done. by rewrite IH.
Qed.
End update.


Lemma updateIntegrationConnections_spec S X set w :
  (∀ c, ic_sessionId (set c) = ic_sessionId c
        ∧ ic_integrationName (set c) = ic_integrationName c) →
  let r := Sql.updateIntegrationConnections S X set w in
  r.1 = set <$> rowsFor S X w
  ∧ rowsFor S X r.2 = set <$> rowsFor S X w
  ∧ length (World.integrationConnections r.2)
    = length (World.integrationConnections w)
  ∧ (rowsFor S X w = [] →
     World.integrationConnections r.2 = World.integrationConnections w).
Proof.
  intros Hkeep. unfold Sql.updateIntegrationConnections, rowsFor.
  match goal with |- context [Sql.update ?P ?s ?t] =>
    pose proof (update_returning P s t) as Hr;
    pose proof (update_length P s t) as Hl;
    assert (Hf : filter P (Sql.update P s t).2 = s <$> filter P t)
      by (apply update_filter; intros x; destruct (Hkeep x) as [-> ->];
          reflexivity);
    pose proof (update_none P s t) as Hn;
    destruct (Sql.update P s t) as [rows table] end.
  simpl in *. by subst rows.
Qed.

Global Arguments Sql.updateIntegrationConnections : simpl never.

Lemma insertDesc_perm {A} (key : A → Z) x l : Sql.insertDesc key x l ≡ₚ x :: l.
Proof.
  induction l as [|y l IH]; simpl; [done|].
  case_match; [done|]. rewrite IH. apply Permutation_swap.
Qed.

Lemma orderByDesc_perm {A} (key : A → Z) l : Sql.orderByDesc key l ≡ₚ l.
Proof.
  induction l as [|x l IH]; simpl; [done|].
  by rewrite insertDesc_perm, IH.
Qed.


(** ** The retry loops (db/operations.ts) *)

Tactic Notation "retry_contract" tactic(frame) :=
  let w := fresh "w" in let e1 := fresh "e1" in
  let H1 := fresh "H1" in let Hc := fresh "Hc" in
  intros w e1 H1; rewrite <- nextFault_nth in H1; split; intros Hc;
  [ eexists; split;
    [ simpl; run_step; simpl;
      rewrite (statement_fault _ _ _ H1); simpl; rewrite Hc; reflexivity
    | apply spent_intro; simpl;
      [ lia | by rewrite app_nil_r | lia | by destruct (World.faults w) ] ]
  | simpl; run_step; simpl;
    rewrite (statement_fault _ _ _ H1); simpl; rewrite Hc; simpl;
    unfold statement; simpl; rewrite nextFault_nth;
    rewrite nthFault_wait, nthFault_print, nthFault_issue;
    destruct (nthFault 1 w) as [e2|];
    [ eexists; split; [|reflexivity];
      apply spent_intro; simpl;
      [ lia | done | lia | by destruct (World.faults w) as [|? [|? ?]] ]
    | match goal with
      | |- context [ let '(_, _) := ?call in _ ] =>
          lazymatch call with
          | context [ let '(_, _) := _ in _ ] => fail
          | context [ match _ with Ok _ => _ | Throw _ => _ end ] => fail
          | _ => idtac
          end;
          let Hf := fresh "Hf" in
          eassert (Hf : sameIO _ call.2) by frame;
          destruct call as [rows w''];
          destruct Hf as (Hs & Ht & Hn & Hfs); simpl in Hs, Ht, Hn, Hfs;
          eexists; split; [|eexists; reflexivity];
          apply spent_intro; simpl;
          [ rewrite Hs; lia | by rewrite Ht | rewrite Hn; lia
          | rewrite Hfs; by destruct (World.faults w) as [|? [|? ?]] ]
      | |- _ =>
          eexists; split; [|eexists; reflexivity];
          apply spent_intro; simpl;
          [ lia | done | lia | by destruct (World.faults w) as [|? [|? ?]] ]
      end ] ].

Lemma createSession_retry this data :
  RetryContract (DbOperations.createSession this data) (λ _, Ok None).
Proof.
  unfold DbOperations.createSession.
  retry_contract (apply sameIO_upsertSession).
Qed.

Lemma getAgentMessages_retry this a l :
  RetryContract (DbOperations.getAgentMessages this a l) Throw.
Proof.
  unfold DbOperations.getAgentMessages.
  retry_contract (apply sameIO_select).
Qed.

Lemma getPromptByAgentType_retry this a :
  RetryContract (DbOperations.getPromptByAgentType this a) (λ _, Ok None).
Proof.
  unfold DbOperations.getPromptByAgentType.
  retry_contract (apply sameIO_select).
Qed.

Lemma createOrUpdatePrompt_retry this a :
  RetryContract (DbOperations.createOrUpdatePrompt this a) (λ _, Ok None).
Proof.
  unfold DbOperations.createOrUpdatePrompt.
  retry_contract (apply sameIO_upsertPrompt).
Qed.

Lemma getAllPrompts_retry this :
  RetryContract (DbOperations.getAllPrompts this) Throw.
Proof.
  unfold DbOperations.getAllPrompts.
  retry_contract (apply sameIO_select).
Qed.



(** ** The integration registry (db/operations.ts) *)

Lemma disconnectIntegration_spec this S X w :
  World.nextFault w = None →
  ∃ rows w',
    DbOperations.disconnectIntegration this S X w = (Ok rows, w')
    ∧ rows = rowsFor S X w'
    ∧ length rows = length (rowsFor S X w)
    ∧ Forall (λ c, ic_status c = "disconnected") rows
    ∧ length (World.integrationConnections w')
      = length (World.integrationConnections w)
    ∧ (rowsFor S X w = [] →
       rows = [] ∧ World.integrationConnections w'
                   = World.integrationConnections w).
Proof.
  intros Hok. unfold DbOperations.disconnectIntegration. run_step.
  rewrite statement_ok by done.
  match goal with |- context [Sql.updateIntegrationConnections S X ?s ?w0] =>
    destruct (updateIntegrationConnections_spec S X s w0) as (Hr & Hf & Hl & Hn);
      [done|];
    destruct (Sql.updateIntegrationConnections S X s w0) as [rows w'] end.
  simpl in *. eexists _, _. split; [reflexivity|].
  change (rowsFor S X (World.issue w)) with (rowsFor S X w) in *.
  subst rows. split_and!.
  - done.
  - by rewrite length_fmap.
  - apply Forall_fmap. by apply Forall_true.
  - done.
  - intros Hnone. split; [by rewrite Hnone | auto].
Qed.

Lemma connect_fresh this S X md w :
  healthy w → rowsFor S X w = [] →
  ∃ row w',
    DbOperations.connectIntegration this S X md w = (Ok [row], w')
    ∧ World.integrationConnections w' = World.integrationConnections w ++ [row]
    ∧ rowsFor S X w' = [row]
    ∧ ic_status row = "connected"
    ∧ ic_lastSyncAt row = Some (World.now w)
    ∧ World.now w' = World.now w
    ∧ healthy w'.
Proof.
  intros Hh Hnone. unfold DbOperations.connectIntegration.
  unfold DbOperations.getIntegrationConnection. rewrite run_bind.
  rewrite statement_ok by by apply healthy_next.
  unfold Sql.select. cbn [fst snd].
  change (filter _ (World.integrationConnections (World.issue w)))
    with (rowsFor S X w). rewrite Hnone. cbn [take head].
  run_step. unfold DbOperations.saveIntegrationConnection.
  rewrite statement_ok by by apply healthy_next, healthy_issue.
  eexists _, _. split; [reflexivity|]. cbn. split_and!; try done.
  - unfold rowsFor. cbn. rewrite filter_app. fold (rowsFor S X w).
    rewrite Hnone. by rewrite filter_cons_True.
  - by do 2 apply healthy_issue.
Qed.

Lemma connect_existing this S X md w row rest :
  healthy w → rowsFor S X w = row :: rest →
  ∃ rows w',
    DbOperations.connectIntegration this S X md w = (Ok rows, w')
    ∧ rowsFor S X w' = rows
    ∧ length rows = length (row :: rest)
    ∧ (ic_id <$> rows) = (ic_id <$> row :: rest)
    ∧ Forall (λ c, ic_status c = "connected"
                   ∧ ic_lastSyncAt c = Some (World.now w)) rows
    ∧ length (World.integrationConnections w')
      = length (World.integrationConnections w)
    ∧ healthy w'
    ∧ World.now w' = World.now w.
Proof.
  intros Hh Hsome. unfold DbOperations.connectIntegration.
  unfold DbOperations.getIntegrationConnection. rewrite run_bind.
  rewrite statement_ok by by apply healthy_next.
  unfold Sql.select. cbn [fst snd].
  change (filter _ (World.integrationConnections (World.issue w)))
    with (rowsFor S X w). rewrite Hsome. cbn [take head].
  unfold DbOperations.updateIntegrationConnection. run_step.
  rewrite statement_ok by by apply healthy_next, healthy_issue.
  match goal with |- context [Sql.updateIntegrationConnections S X ?s ?w0] =>
    destruct (updateIntegrationConnections_spec S X s w0) as (Hr & Hf & Hl & Hn);
      [done|];
    assert (Hio : World.faults (Sql.updateIntegrationConnections S X s w0).2
                  = World.faults w0
                  ∧ World.now (Sql.updateIntegrationConnections S X s w0).2
                    = World.now w0)
      by (unfold Sql.updateIntegrationConnections;
          by destruct (Sql.update _ _ _));
    destruct (Sql.updateIntegrationConnections S X s w0) as [rows w'] end.
  cbn [fst snd] in *.
  change (rowsFor S X (World.issue (World.issue w))) with (rowsFor S X w) in *.
  rewrite Hsome in *.
  eexists _, _. split; [reflexivity|]. subst rows. split_and!.
  - done.
  - by rewrite length_fmap.
  - rewrite <- list_fmap_compose. done.
  - apply Forall_fmap. by apply Forall_true.
  - done.
  - unfold healthy. rewrite (proj1 Hio). by do 2 apply healthy_issue.
  - by rewrite (proj2 Hio).
Qed.

(** C6.  Two consecutive connects of one (session, integration) pair
    that has at most one row leave exactly one row for the pair; it is
    connected and its [lastSyncAt] is the time of the second call, later
    than the one the first call wrote.  When the pair had no row the
    first call inserts a new connected row; the second call, and any call
    after it, updates the row in place and inserts nothing. *)
Theorem connect_is_idempotent this S X md1 md2 w d :
  healthy w → length (rowsFor S X w) ≤ 1 → (0 < d)%Z →
  ∃ row1 w1 row2 w2 t1 t2,
    DbOperations.connectIntegration this S X md1 w = (Ok [row1], w1)
    ∧ DbOperations.connectIntegration this S X md2 (World.elapse d w1)
      = (Ok [row2], w2)
    ∧ rowsFor S X w2 = [row2]
    ∧ ic_status row2 = "connected"
    ∧ ic_id row2 = ic_id row1
    ∧ ic_lastSyncAt row1 = Some t1
    ∧ ic_lastSyncAt row2 = Some t2
    ∧ (t1 < t2)%Z
    ∧ length (World.integrationConnections w2)
      = length (World.integrationConnections w1)
    ∧ (rowsFor S X w = [] →
       World.integrationConnections w1
       = World.integrationConnections w ++ [row1]
       ∧ ic_status row1 = "connected")
    ∧ (rowsFor S X w ≠ [] →
       length (World.integrationConnections w1)
       = length (World.integrationConnections w))
    ∧ (∀ md3 d3, ∃ row3 w3,
         DbOperations.connectIntegration this S X md3 (World.elapse d3 w2)
         = (Ok [row3], w3)
         ∧ rowsFor S X w3 = [row3]
         ∧ length (World.integrationConnections w3)
           = length (World.integrationConnections w2)).
Proof.
  intros Hh Hone Hd.
  assert (∃ row1 w1,
    DbOperations.connectIntegration this S X md1 w = (Ok [row1], w1)
    ∧ rowsFor S X w1 = [row1]
    ∧ ic_lastSyncAt row1 = Some (World.now w)
    ∧ World.now w1 = World.now w
    ∧ healthy w1
    ∧ (rowsFor S X w = [] →
       World.integrationConnections w1
       = World.integrationConnections w ++ [row1]
       ∧ ic_status row1 = "connected")
    ∧ (rowsFor S X w ≠ [] →
       length (World.integrationConnections w1)
       = length (World.integrationConnections w)))
    as (row1 & w1 & E1 & Hr1 & Hl1 & Hn1 & Hh1 & Hfresh & Hold).
  { destruct (rowsFor S X w) as [|row [|? ?]] eqn:Hrows;
      [| |simpl in Hone; lia].
    - destruct (connect_fresh this S X md1 w Hh Hrows)
        as (row1 & w1 & E1 & Ht1 & Hr1 & Hs1 & Hl1 & Hn1 & Hh1).
      exists row1, w1. split_and!; done.
    - destruct (connect_existing this S X md1 w row [] Hh Hrows)
        as (rows & w1 & E1 & Hr1 & Hlen & Hid & Hall & Hl1 & Hh1 & Hn1).
      destruct rows as [|row1 [|? ?]]; try done.
      inversion Hall as [|?? [Hs1 Hls1] _]. subst.
      exists row1, w1. split_and!; done. }
  destruct (connect_existing this S X md2 (World.elapse d w1) row1 []
              (healthy_elapse d w1 Hh1) Hr1)
    as (rows & w2 & E2 & Hr2 & Hlen & Hid & Hall & Hl2 & Hh2 & Hn2).
  destruct rows as [|row2 [|? ?]]; try done.
  inversion Hid. inversion Hall as [|?? [Hs2 Hls2] _]. subst.
  exists row1, w1, row2, w2, (World.now w), (World.now w + d)%Z.
  split_and!; try done.
  - cbn in Hls2. by rewrite Hn1 in Hls2.
  - lia.
  - intros md3 d3.
    destruct (connect_existing this S X md3 (World.elapse d3 w2) row2 []
                (healthy_elapse d3 w2 Hh2) Hr2)
      as (rows & w3 & E3 & Hr3 & Hlen3 & _ & _ & Hl3 & _).
    destruct rows as [|row3 [|? ?]]; try done.
    by exists row3, w3.
Qed.

Lemma connect_is_idempotent_witness :
  ∃ row1 w1 row2 w2,
    DbOperations.connectIntegration Sample.dbOps "session-1" "shopify" None
      Sample.world = (Ok [row1], w1)
    ∧ DbOperations.connectIntegration Sample.dbOps "session-1" "shopify" None
        (World.elapse 1 w1) = (Ok [row2], w2)
    ∧ rowsFor "session-1" "shopify" w2 = [row2]
    ∧ ic_status row2 = "connected".
Proof.
  destruct (connect_is_idempotent Sample.dbOps "session-1" "shopify"
              None None Sample.world 1)
    as (row1 & w1 & row2 & w2 & t1 & t2 & E1 & E2 & Hr & Hs & _).
  - constructor.
  - simpl. lia.
  - lia.
  - by exists row1, w1, row2, w2.
Defined.

(** C7.  Disconnecting a pair that has no row returns the empty result,
    leaves the table as it is and raises nothing; disconnecting a pair
    that has rows returns them, each now with status [disconnected], and
    adds no row. *)
Theorem disconnect_without_row_is_noop this S X w :
  World.nextFault w = None →
  ∃ rows w',
    DbOperations.disconnectIntegration this S X w = (Ok rows, w')
    ∧ (rowsFor S X w = [] →
       rows = []
       ∧ World.integrationConnections w' = World.integrationConnections w)
    ∧ (rowsFor S X w ≠ [] →
       rows ≠ []
       ∧ rowsFor S X w' = rows
       ∧ Forall (λ c, ic_status c = "disconnected") rows
       ∧ length (World.integrationConnections w')
         = length (World.integrationConnections w)).
Proof.
  intros Hok.
  destruct (disconnectIntegration_spec this S X w Hok)
    as (rows & w' & E & Hrows & Hlen & Hall & Hl & Hnone).
  exists rows, w'. split_and!; [done|done|].
  intros Hsome. split_and!; try done.
  intros ->. destruct (rowsFor S X w); done.
Qed.

Lemma disconnect_without_row_is_noop_witness :
  ∃ w',
    DbOperations.disconnectIntegration Sample.dbOps "session-1" "posthog"
      Sample.world = (Ok [], w')
    ∧ World.integrationConnections w'
      = World.integrationConnections Sample.world.
Proof.
  destruct (disconnect_without_row_is_noop Sample.dbOps "session-1"
              "posthog" Sample.world eq_refl)
    as (rows & w' & E & Hnone & _).
  destruct (Hnone eq_refl) as [-> Htable]. by exists w'.
Defined.

(** The registry operations keep every pair at one row at most, whether
    or not storage fails under them. *)

Lemma update_other {A} (P Q : A → Prop) `{∀ x, Decision (P x)}
    `{∀ x, Decision (Q x)} (set : A → A) (table : list A) :
  (∀ x, Q (set x) ↔ Q x) →
  length (filter Q (Sql.update P set table).2) = length (filter Q table).
Proof.
  intros Hkeep. simpl. induction table as [|x l IH]; [done|].
  rewrite fmap_cons.
  assert (Q (if decide (P x) then set x else x) ↔ Q x) as Hx
    by (case_decide; [apply Hkeep|done]).
  destruct (decide (Q x)) as [Hq|Hq].
  - rewrite filter_cons_True by by apply Hx.
    rewrite (filter_cons_True Q x) by done. simpl. by rewrite IH.
  - rewrite filter_cons_False by (by rewrite Hx).
    by rewrite (filter_cons_False Q x) by done.
Qed.

Lemma wellKeyed_update S X set w :
  (∀ c, ic_sessionId (set c) = ic_sessionId c
        ∧ ic_integrationName (set c) = ic_integrationName c) →
  wellKeyed w →
  wellKeyed (Sql.updateIntegrationConnections S X set w).2.
Proof.
  intros Hkeep Hw S' X'. specialize (Hw S' X').
  unfold Sql.updateIntegrationConnections, rowsFor in *.
  match goal with |- context [Sql.update ?P ?s ?t] =>
    pose proof (update_other P
      (λ c, ic_sessionId c = S' ∧ ic_integrationName c = X') s t) as Hl;
    destruct (Sql.update P s t) as [rows table] end.
  simpl in *. rewrite Hl; [done|].
  intros c. by destruct (Hkeep c) as [-> ->].
Qed.

Lemma wellKeyed_issue w : wellKeyed w → wellKeyed (World.issue w).
Proof. done. Qed.

Lemma disconnect_keeps_wellKeyed this S X w :
  wellKeyed w →
  wellKeyed (DbOperations.disconnectIntegration this S X w).2.
Proof.
  intros Hw. unfold DbOperations.disconnectIntegration.
  rewrite run_bind. cbn [newDate read]. unfold statement.
  destruct (World.nextFault w); [done|].
  match goal with |- context [Sql.updateIntegrationConnections S X ?s ?w0] =>
    pose proof (wellKeyed_update S X s w0 (λ c, conj eq_refl eq_refl)
                  (wellKeyed_issue w Hw)) as Hu;
    destruct (Sql.updateIntegrationConnections S X s w0) end.
  done.
Qed.

Lemma connect_keeps_wellKeyed this S X md w :
  wellKeyed w →
  wellKeyed (DbOperations.connectIntegration this S X md w).2.
Proof.
  intros Hw. unfold DbOperations.connectIntegration.
  unfold DbOperations.getIntegrationConnection. rewrite run_bind.
  unfold statement at 1. destruct (World.nextFault w); [done|].
  unfold Sql.select. cbn [fst snd].
  change (filter _ (World.integrationConnections (World.issue w)))
    with (rowsFor S X w).
  destruct (rowsFor S X w) as [|row rest] eqn:Hrows; cbn [take head].
  - rewrite run_bind. cbn [newDate read].
    unfold DbOperations.saveIntegrationConnection, statement.
    destruct (World.nextFault (World.issue w)); [done|].
    intros S' X'. unfold rowsFor. cbn. rewrite filter_app, length_app.
    fold (rowsFor S' X' w).
    destruct (decide (S = S' ∧ X = X')) as [[<- <-]|Hne].
    + rewrite Hrows. by rewrite filter_cons_True.
    + rewrite filter_cons_False by (simpl; tauto).
      simpl. rewrite Nat.add_0_r. apply Hw.
  - rewrite run_bind. cbn [newDate read].
    unfold DbOperations.updateIntegrationConnection.
    rewrite run_bind. cbn [newDate read]. unfold statement.
    destruct (World.nextFault (World.issue w)); [done|].
    match goal with |- context [Sql.updateIntegrationConnections S X ?s ?w0] =>
      pose proof (wellKeyed_update S X s w0 (λ c, conj eq_refl eq_refl)
                    (wellKeyed_issue _ (wellKeyed_issue w Hw))) as Hu;
      destruct (Sql.updateIntegrationConnections S X s w0) end.
    done.
Qed.

Lemma wellKeyed_empty w : World.integrationConnections w = [] → wellKeyed w.
Proof. intros H S X. unfold rowsFor. rewrite H. simpl. lia. Qed.

(** ** The tool resolver (tools/index.ts) *)

Lemma getSessionIntegrations_ok ops sid w :
  World.nextFault w = None →
  ∃ rows, DbOperations.getSessionIntegrations ops sid w
          = (Ok rows, World.issue w)
    ∧ ∀ I, Tools.someConnected I rows
           = bool_decide (reportsConnected sid I w).
Proof.
  intros Hok. unfold DbOperations.getSessionIntegrations.
  rewrite statement_ok by done. eexists. split; [reflexivity|].
  intros I. unfold Tools.someConnected, reportsConnected, Sql.select.
  cbn [fst]. apply bool_decide_ext.
  rewrite !Exists_exists. change (World.integrationConnections (World.issue w)) with (World.integrationConnections w).
  split.
  - intros (c & Hin & Hn & Hs).
    rewrite orderByDesc_perm in Hin. apply list_elem_of_filter in Hin as [Hsid Hin].
    eauto.
  - intros (c & Hin & Hsid & Hn & Hs). exists c. split; [|done].
    rewrite orderByDesc_perm. apply list_elem_of_filter. done.
Qed.

Lemma bundle_own name :
  is_Some (Tools.integrations !! name) →
  Tools.getToolsByIntegration name = Ok (bundle name).
Proof.
  intros [integration Hown].
  unfold bundle, Tools.getToolsByIntegration, Js.get. by rewrite Hown.
Qed.

Lemma forIntegrationNames_no_context names sessionId dbOps acc w :
  Tools.sessionContext sessionId dbOps = None →
  Forall (λ name, is_Some (Tools.integrations !! name)) names →
  ∀ n, Tools.forIntegrationNames names sessionId dbOps acc w
       = (Ok (resolved sessionId dbOps w n names acc), w).
Proof.
  intros Hctx Hown. revert acc.
  induction Hown as [|name names Hname Hown IH]; intros acc n; [done|].
  cbn [Tools.forIntegrationNames resolved]. unfold verdict. rewrite Hctx.
  rewrite run_bind, run_ret, run_bind, run_bind, (bundle_own name Hname).
  cbn [Tools.liftRes]. rewrite !run_ret. apply IH.
Qed.

Lemma forIntegrationNames_context names sessionId dbOps sid ops acc w :
  Tools.sessionContext sessionId dbOps = Some (sid, ops) →
  Forall (λ name, is_Some (Tools.integrations !! name)) names →
  ∀ n w0,
    World.integrationConnections w0 = World.integrationConnections w →
    (∀ i, nthFault i w0 = nthFault (n + i) w) →
    ∃ w', Tools.forIntegrationNames names sessionId dbOps acc w0
          = (Ok (resolved sessionId dbOps w n names acc), w').
Proof.
  intros Hctx Hown. revert acc.
  induction Hown as [|name names Hname Hown IH]; intros acc n w0 Htab Hf.
  { eexists. reflexivity. }
  cbn [Tools.forIntegrationNames resolved]. unfold verdict. rewrite Hctx.
  assert (Hnext : World.nextFault w0 = nthFault n w)
    by (by rewrite nextFault_nth, Hf, Nat.add_0_r).
  assert (Hshift : ∀ i, nthFault i (World.issue w0) = nthFault (S n + i) w).
  { intros i. rewrite nthFault_issue, Hf. f_equal. lia. }
  rewrite run_bind. unfold try_catch at 1. rewrite run_bind.
  destruct (nthFault n w) as [e|] eqn:Hn.
  - unfold DbOperations.getSessionIntegrations.
    rewrite (statement_fault _ _ e) by done.
    rewrite run_ret, run_bind, run_bind, (bundle_own name Hname).
    cbn [Tools.liftRes]. rewrite !run_ret. by apply IH.
  - destruct (getSessionIntegrations_ok ops sid w0 Hnext)
      as (rows & -> & Hrows).
    rewrite run_ret, Hrows.
    assert (bool_decide (reportsConnected sid name w0)
            = bool_decide (reportsConnected sid name w)) as ->.
    { apply bool_decide_ext. unfold reportsConnected. by rewrite Htab. }
    rewrite run_bind. destruct (bool_decide (reportsConnected sid name w)).
    + rewrite run_bind, (bundle_own name Hname).
      cbn [Tools.liftRes]. rewrite !run_ret. by apply IH.
    + rewrite run_ret. by apply IH.
Qed.

Lemma subseteq_union_eq (m1 m2 : gmap string Tools.Tool) :
  m1 ⊆ m2 ↔ bool_decide (m1 ∪ m2 = m2) = true.
Proof.
  rewrite bool_decide_eq_true. split.
  - apply map_subseteq_union.
  - intros <-. apply map_union_subseteq_l.
Qed.

Lemma agentToolMappings_own role candidates :
  Tools.agentToolMappings !! role = Some candidates →
  (role = "auto-agent" ∧ candidates = ["shopify"; "posthog"])
  ∨ (role = "campaign-agent"
     ∧ candidates = ["google-ads"; "shopify"; "posthog"]).
Proof.
  intros H. apply elem_of_list_to_map_2 in H.
  repeat (apply elem_of_cons in H as [H|H]; [inversion H; auto|]).
  by apply elem_of_nil in H.
Qed.

Lemma candidates_own role candidates :
  Tools.agentToolMappings !! role = Some candidates →
  Forall (λ name, is_Some (Tools.integrations !! name)) candidates.
Proof.
  intros [[_ ->]|[_ ->]]%agentToolMappings_own;
    repeat constructor; by eexists.
Qed.



Lemma resolved_includes sessionId dbOps w candidates i name :
  candidates = ["shopify"; "posthog"]
  ∨ candidates = ["google-ads"; "shopify"; "posthog"] →
  candidates !! i = Some name →
  bundle name ⊆ resolved sessionId dbOps w 0 candidates ∅
  ↔ verdict sessionId dbOps w i name = true.
Proof.
  intros [->| ->] Hi.
  - destruct i as [|[|i]]; [| |by destruct i]; injection Hi as <-;
      cbn [resolved];
      generalize (verdict sessionId dbOps w 0 "shopify");
      generalize (verdict sessionId dbOps w 1 "posthog");
      intros v1 v0; destruct v0, v1;
      rewrite subseteq_union_eq; vm_compute; tauto.
  - destruct i as [|[|[|i]]]; [| | |by destruct i]; injection Hi as <-;
      cbn [resolved];
      generalize (verdict sessionId dbOps w 0 "google-ads");
      generalize (verdict sessionId dbOps w 1 "shopify");
      generalize (verdict sessionId dbOps w 2 "posthog");
      intros v2 v1 v0; destruct v0, v1, v2;
      rewrite subseteq_union_eq; vm_compute; tauto.
Qed.
(** C1.  For a role that has a static candidate list, the resolver
    returns a tool mapping, and the bundle of the [i]-th candidate is part
    of it if and only if: no session id or no registry handle was given
    (default open), or the registry query made for that candidate, the
    [i]-th storage request of the call, throws (default open), or the
    registry reports the integration connected for the session. *)
Theorem resolver_includes_iff_connected role candidates sessionId dbOps w :
  Tools.agentToolMappings !! role = Some candidates →
  ∃ tools w',
    Tools.getToolsForAgent role sessionId dbOps w = (Ok tools, w')
    ∧ ∀ i name, candidates !! i = Some name →
        ∃ b, Tools.getToolsByIntegration name = Ok b
          ∧ (b ⊆ tools ↔
             match Tools.sessionContext sessionId dbOps with
             | None => True
             | Some (sid, _) =>
                 is_Some (nthFault i w) ∨ reportsConnected sid name w
             end).
Proof.
  intros Hrole.
  pose proof (candidates_own _ _ Hrole) as Hown.
  assert (∃ w', Tools.getToolsForAgent role sessionId dbOps w
                = (Ok (resolved sessionId dbOps w 0 candidates ∅), w'))
    as [w' Hrun].
  { unfold Tools.getToolsForAgent, Js.get. rewrite Hrole, run_bind.
    destruct (Tools.sessionContext sessionId dbOps) as [[sid ops]|] eqn:Hctx.
    - destruct (forIntegrationNames_context candidates sessionId dbOps
                  sid ops ∅ w Hctx Hown 0 w eq_refl (λ i, eq_refl))
        as [w' ->]. by eexists.
    - rewrite (forIntegrationNames_no_context candidates sessionId dbOps
                 ∅ w Hctx Hown 0). by eexists. }
  exists (resolved sessionId dbOps w 0 candidates ∅), w'.
  split; [done|]. intros i name Hi. exists (bundle name).
  split.
  { apply bundle_own. by eapply (Forall_lookup_1 _ _ _ _ Hown). }
  transitivity (verdict sessionId dbOps w i name = true).
  - apply resolved_includes; [|done].
    apply agentToolMappings_own in Hrole as [[_ ->]|[_ ->]]; auto.
  - unfold verdict.
    destruct (Tools.sessionContext sessionId dbOps) as [[sid ops]|]; [|done].
    destruct (nthFault i w) as [e|].
    + split; [intros _; left; by eexists | done].
    + rewrite bool_decide_eq_true. split; [by right|].
      intros [[? [=]]|?]; done.
Qed.

Lemma resolver_includes_iff_connected_witness :
  ∃ tools w',
    Tools.getToolsForAgent "auto-agent" (Some "session-1")
      (Some Sample.dbOps) Sample.registry = (Ok tools, w')
    ∧ bundle "shopify" ⊆ tools
    ∧ ¬ bundle "posthog" ⊆ tools.
Proof.
  destruct (resolver_includes_iff_connected "auto-agent"
              ["shopify"; "posthog"] (Some "session-1") (Some Sample.dbOps)
              Sample.registry eq_refl)
    as (tools & w' & E & H).
  exists tools, w'. split; [done|].
  destruct (H 0 "shopify" eq_refl) as (b0 & E0 & H0).
  destruct (H 1 "posthog" eq_refl) as (b1 & E1 & H1).
  rewrite bundle_own in E0 by (by eexists).
  rewrite bundle_own in E1 by (by eexists).
  injection E0 as <-. injection E1 as <-.
  split.
  - apply H0. right. apply (bool_decide_unpack _). by vm_compute.
  - intros Hin. apply H1 in Hin as [[e He]|Hc]; [done|].
    revert Hc. apply (bool_decide_eq_false_1 _). by vm_compute.
Defined.

Lemma getToolsForAgent_resolved role candidates sessionId dbOps w :
  Tools.agentToolMappings !! role = Some candidates →
  ∃ w', Tools.getToolsForAgent role sessionId dbOps w
        = (Ok (resolved sessionId dbOps w 0 candidates ∅), w').
Proof.
  intros Hrole. pose proof (candidates_own _ _ Hrole) as Hown.
  unfold Tools.getToolsForAgent, Js.get. rewrite Hrole, run_bind.
  destruct (Tools.sessionContext sessionId dbOps) as [[sid ops]|] eqn:Hctx.
  - destruct (forIntegrationNames_context candidates sessionId dbOps
                sid ops ∅ w Hctx Hown 0 w eq_refl (λ i, eq_refl))
      as [w' ->]. by eexists.
  - rewrite (forIntegrationNames_no_context candidates sessionId dbOps
               ∅ w Hctx Hown 0). by eexists.
Qed.


(** ** Restoring the transcript (server.ts) *)

Lemma insertDesc_lowest {A} (key : A → Z) x l :
  Forall (λ y, (key x < key y)%Z) l → Sql.insertDesc key x l = l ++ [x].
Proof.
  induction 1 as [|y l Hy Hl IH]; simpl; [done|].
  destruct (Z.leb_spec (key y) (key x)); [lia|]. by rewrite IH.
Qed.

Lemma orderByDesc_increasing {A} (key : A → Z) l :
  StronglySorted (λ a b, (key a < key b)%Z) l →
  Sql.orderByDesc key l = reverse l.
Proof.
  induction 1 as [|x l Hs IH Hx]; simpl; [done|].
  rewrite IH, reverse_cons. apply insertDesc_lowest.
  by apply Forall_reverse.
Qed.

Lemma getAgentMessages_ok ops agentType limit w :
  World.nextFault w = None →
  DbOperations.getAgentMessages ops agentType limit w
  = (Ok (take limit (Sql.orderByDesc msg_createdAt (messagesOf agentType w))),
     World.issue w).
Proof.
  intros Hok. unfold DbOperations.getAgentMessages.
  simpl. run_step. simpl. by rewrite statement_ok by done.
Qed.

Lemma foldl_push this rows :
  foldl Agent.push this rows
  = Agent.setMessages (Agent.messages this ++ (asChatMessage <$> rows)) this.
Proof.
  revert this. induction rows as [|m rows IH]; intros this; simpl.
  - rewrite app_nil_r. by destruct this.
  - rewrite IH. unfold Agent.push, Agent.setMessages. simpl.
    by rewrite <- app_assoc.
Qed.

(** The restore, spelled out on the outcome of its fetch. *)
Lemma restoreConversationHistory_spec k this ops w :
  Agent.storage this = Some ops →
  Agent.restoreConversationHistory k this w =
  match DbOperations.getAgentMessages ops (Agent.agentType k) 50 w with
  | (Ok [], w1) =>
      (Ok this,
       World.print World.Log
         (Agent.agentName k +:+ ": No previous conversation history found")
         w1)
  | (Ok fetched, w1) =>
      (Ok (Agent.setMessages (asChatMessage <$> reverse fetched) this),
       World.print World.Log
         (Agent.agentName k +:+ ": Successfully restored messages")
         (World.print World.Log
            (Agent.agentName k +:+ ": Restoring previous messages") w1))
  | (Throw e, w1) =>
      (Ok this,
       World.print World.Log
         (Agent.agentName k +:+ ": Continuing without restored history")
         (World.print World.Err
            (Agent.agentName k
             +:+ ": Failed to restore conversation history:") w1))
  end.
Proof.
  intros Hst. unfold Agent.restoreConversationHistory. rewrite Hst.
  unfold try_catch at 1. rewrite run_bind.
  destruct (DbOperations.getAgentMessages ops (Agent.agentType k) 50 w)
    as [[fetched|e] w1]; [|done].
  destruct fetched as [|m fetched]; [done|].
  rewrite bool_decide_eq_true_2 by (simpl; lia).
  rewrite foldl_push. done.
Qed.

(** Without a storage handle or a session id nothing is fetched. *)
Lemma restore_without_storage k this w :
  Agent.storage this = None →
  Agent.restoreConversationHistory k this w = (Ok this, w).
Proof. intros H. unfold Agent.restoreConversationHistory. by rewrite H. Qed.

(** C4 (amended).  When the fetch returns at least one message, the
    fetched messages, put in chronological order, replace the in-memory
    transcript wholesale.  When the fetch returns nothing the transcript
    is left as it was.  When the fetch fails the failure is logged and the
    controller continues with the transcript left as it was: empty only
    when it was empty before. *)
Theorem restore_replaces_or_keeps k this ops w outcome w1 :
  Agent.storage this = Some ops →
  DbOperations.getAgentMessages ops (Agent.agentType k) 50 w
  = (outcome, w1) →
  ∃ this' w',
    Agent.restoreConversationHistory k this w = (Ok this', w')
    ∧ match outcome with
      | Ok [] => this' = this
      | Ok fetched =>
          Agent.messages this' = asChatMessage <$> reverse fetched
      | Throw e =>
          this' = this
          ∧ World.console w'
            = World.console w1
              ++ [ (World.Err,
                    Agent.agentName k
                    +:+ ": Failed to restore conversation history:");
                   (World.Log,
                    Agent.agentName k
                    +:+ ": Continuing without restored history") ]
      end.
Proof.
  intros Hst Hfetch.
  rewrite (restoreConversationHistory_spec k this ops w Hst), Hfetch.
  destruct outcome as [[|m fetched]|e]; eexists _, _;
    (split; [reflexivity|]); try done.
  split; [done|]. simpl. by rewrite <- app_assoc.
Qed.

Lemma restore_replaces_or_keeps_witness :
  ∃ this' w',
    Agent.restoreConversationHistory Agent.RouterAgent Sample.liveAgent
      Sample.archive = (Ok this', w')
    ∧ Agent.messages this'
      = [ asChatMessage (Sample.stored 0 "router-agent" "user" "hello" 10);
          asChatMessage
            (Sample.stored 2 "router-agent" "assistant" "hi there" 20);
          asChatMessage
            (Sample.stored 3 "router-agent" "user" "connect shopify" 30) ].
Proof.
  destruct (restore_replaces_or_keeps Agent.RouterAgent Sample.liveAgent
              Sample.dbOps Sample.archive _ _ eq_refl eq_refl)
    as (this' & w' & E & Hm).
  by exists this', w'.
Defined.

(** C4 as stated fails: with one live message in memory and a fetch that
    fails, the restore leaves that message in the transcript instead of
    continuing with an empty one; and a fetch that returns no message
    leaves it there too instead of replacing the transcript with the
    (empty) fetched list. *)
Lemma restore_failure_keeps_transcript :
  Agent.messages Sample.liveAgent ≠ []
  ∧ (DbOperations.getAgentMessages Sample.dbOps "router-agent" 50
       Sample.failing).1 = Throw Sample.uniqueViolation
  ∧ (Agent.restoreConversationHistory Agent.RouterAgent Sample.liveAgent
       Sample.failing).1 = Ok Sample.liveAgent
  ∧ (DbOperations.getAgentMessages Sample.dbOps "router-agent" 50
       Sample.world).1 = Ok []
  ∧ (Agent.restoreConversationHistory Agent.RouterAgent Sample.liveAgent
       Sample.world).1 = Ok Sample.liveAgent.
Proof. by split_and!. Qed.

(** C5.  When the stored messages of a role carry increasing creation
    times, fetching them with a limit of at least their number and
    reversing the recency-descending result gives them back in creation
    order; and the restore, whose limit is 50, leaves exactly these
    messages, in that order, as the transcript. *)
Theorem restore_round_trip k this ops w :
  World.nextFault w = None →
  StronglySorted (λ a b, (msg_createdAt a < msg_createdAt b)%Z)
    (messagesOf (Agent.agentType k) w) →
  (∀ limit, length (messagesOf (Agent.agentType k) w) ≤ limit →
     ∃ rows w',
       DbOperations.getAgentMessages ops (Agent.agentType k) limit w
       = (Ok rows, w')
       ∧ reverse rows = messagesOf (Agent.agentType k) w)
  ∧ (Agent.storage this = Some ops →
     length (messagesOf (Agent.agentType k) w) ≤ 50 →
     0 < length (messagesOf (Agent.agentType k) w)
     ∨ Agent.messages this = [] →
     ∃ this' w',
       Agent.restoreConversationHistory k this w = (Ok this', w')
       ∧ Agent.messages this'
         = asChatMessage <$> messagesOf (Agent.agentType k) w).
Proof.
  intros Hok Hsorted.
  assert (Hfetch : ∀ limit,
    length (messagesOf (Agent.agentType k) w) ≤ limit →
    DbOperations.getAgentMessages ops (Agent.agentType k) limit w
    = (Ok (reverse (messagesOf (Agent.agentType k) w)), World.issue w)).
  { intros limit Hlimit. rewrite getAgentMessages_ok by done.
    rewrite orderByDesc_increasing by done.
    rewrite take_ge by (by rewrite length_reverse). done. }
  split.
  - intros limit Hlimit. eexists _, _. split; [by apply Hfetch|].
    apply reverse_involutive.
  - intros Hst Hlen Hcase. rewrite (restoreConversationHistory_spec k this ops w Hst).
    rewrite Hfetch by done.
    destruct (reverse (messagesOf (Agent.agentType k) w)) as [|m rows] eqn:Hr.
    + apply (f_equal reverse) in Hr. rewrite reverse_involutive in Hr.
      rewrite Hr in *. destruct Hcase as [Hpos|Hempty];
        [simpl in Hpos; lia|]. eexists _, _. split; [reflexivity|done].
    + eexists _, _. split; [reflexivity|]. simpl.
      by rewrite <- Hr, reverse_involutive.
Qed.

Lemma restore_round_trip_witness :
  ∃ this' w',
    Agent.restoreConversationHistory Agent.RouterAgent Sample.liveAgent
      Sample.archive = (Ok this', w')
    ∧ Agent.messages this'
      = asChatMessage <$> messagesOf "router-agent" Sample.archive.
Proof.
  destruct (restore_round_trip Agent.RouterAgent Sample.liveAgent
              Sample.dbOps Sample.archive eq_refl) as [_ H].
  - repeat (constructor; [|repeat constructor; simpl; lia]). constructor.
  - apply H; [done|simpl; lia|left; simpl; lia].
Defined.

(** C5 as stated fails for messages with equal creation times, and the
    flush on close writes such messages: its inserts all read the same
    clock.  After a transcript of two messages is flushed, the fetch, which
    orders by creation time alone, returns the two rows as stored; the
    reversal then puts the second message first, both in the reversed
    fetch and in the transcript that the restore leaves. *)
Lemma restore_reverses_equal_times :
  let transcript :=
    [ Sample.said "user" "first" "m1";
      Sample.said "assistant" "second" "m2" ] in
  let w :=
    (Agent.onClose Agent.RouterAgent "connection-1"
       (Sample.agent Agent.RouterAgent transcript) Sample.world).2 in
  World.nextFault w = None
  ∧ msg_content <$> messagesOf "router-agent" w = ["first"; "second"]
  ∧ (∃ rows w',
       DbOperations.getAgentMessages Sample.dbOps "router-agent" 50 w
       = (Ok rows, w')
       ∧ msg_content <$> reverse rows = ["second"; "first"]
       ∧ reverse rows ≠ messagesOf "router-agent" w)
  ∧ (∃ this' w',
       Agent.restoreConversationHistory Agent.RouterAgent
         (Sample.agent Agent.RouterAgent []) w = (Ok this', w')
       ∧ Agent.content <$> Agent.messages this' = ["second"; "first"]
       ∧ Agent.messages this'
         ≠ asChatMessage <$> messagesOf "router-agent" w).
Proof.
  cbv zeta. split_and!.
  - vm_compute. reflexivity.
  - vm_compute. reflexivity.
  - eexists _, _. split; [lazy; reflexivity|]. split; [vm_compute; reflexivity|].
    vm_compute. intros H. discriminate H.
  - eexists _, _. split; [lazy; reflexivity|]. split; [vm_compute; reflexivity|].
    vm_compute. intros H. discriminate H.
Qed.

(** ** The chat turn (server.ts) *)

Section keeps.
Context {A B : Type}.

Lemma keeps_ret (a : A) : keepsMessages (mret a).
Proof. done. Qed.

Lemma keeps_throw e : keepsMessages (throw (A := A) e).
Proof. done. Qed.

Lemma keeps_bind (m : M A) (f : A → M B) :
  keepsMessages m → (∀ a, keepsMessages (f a)) → keepsMessages (m ≫= f).
Proof.
  intros Hm Hf w. rewrite run_bind. specialize (Hm w).
  destruct (m w) as [[a|e] w1]; simpl in *; [|done].
  by rewrite Hf.
Qed.

Lemma keeps_try_catch (m : M A) (h : Js.Error → M A) :
  keepsMessages m → (∀ e, keepsMessages (h e)) →
  keepsMessages (try_catch m h).
Proof.
  intros Hm Hh w. unfold try_catch. specialize (Hm w).
  destruct (m w) as [[a|e] w1]; simpl in *; [done|].
  by rewrite Hh.
Qed.

Lemma keeps_statement (run : World.t → A * World.t) :
  (∀ w, World.messages (run w).2 = World.messages w) →
  keepsMessages (statement run).
Proof.
  intros Hrun w. unfold statement.
  destruct (World.nextFault w); [done|].
  specialize (Hrun (World.issue w)).
  by destruct (run (World.issue w)).
Qed.
End keeps.

Lemma keeps_print l s : keepsMessages (effect (World.print l s)).
Proof. done. Qed.

Lemma keeps_newDate : keepsMessages newDate.
Proof. done. Qed.

Create HintDb keeps.
#[local] Hint Resolve keeps_ret keeps_throw keeps_print keeps_newDate : keeps.
#[local] Hint Extern 1 (keepsMessages (console_log _)) => apply keeps_print : keeps.
#[local] Hint Extern 1 (keepsMessages (console_warn _)) => apply keeps_print : keeps.
#[local] Hint Extern 1 (keepsMessages (console_error _)) => apply keeps_print : keeps.
#[local] Hint Extern 2 (keepsMessages (_ ≫= _)) => apply keeps_bind; [|intros ?] : keeps.
#[local] Hint Extern 2 (keepsMessages (try_catch _ _)) => apply keeps_try_catch; [|intros ?] : keeps.

Lemma keeps_getSessionIntegrations ops sid :
  keepsMessages (DbOperations.getSessionIntegrations ops sid).
Proof. by apply keeps_statement. Qed.

Lemma keeps_getSessionMessages ops sid :
  keepsMessages (DbOperations.getSessionMessages ops sid).
Proof. by apply keeps_statement. Qed.

Lemma keeps_updateSessionMetadata ops sid md :
  keepsMessages (DbOperations.updateSessionMetadata ops sid md).
Proof.
  unfold DbOperations.updateSessionMetadata.
  apply keeps_bind; [done|intros t]. apply keeps_bind; [|done].
  apply keeps_statement. intros w. unfold Sql.updateSession.
  by destruct (Sql.update _ _ _).
Qed.

Lemma keeps_liftRes {A} (r : Res A) : keepsMessages (Tools.liftRes r).
Proof. by destruct r. Qed.

#[local] Hint Resolve keeps_getSessionIntegrations keeps_getSessionMessages
  keeps_updateSessionMetadata keeps_liftRes : keeps.

Lemma keeps_forIntegrationNames names sid ops acc :
  keepsMessages (Tools.forIntegrationNames names sid ops acc).
Proof.
  revert acc. induction names as [|name names IH]; intros acc;
    cbn [Tools.forIntegrationNames]; [done|].
  apply keeps_bind.
  - destruct (Tools.sessionContext sid ops) as [[? ?]|]; eauto 10 with keeps.
  - intros [|]; eauto 10 with keeps.
Qed.

Lemma keeps_getToolsForAgent role sid ops :
  keepsMessages (Tools.getToolsForAgent role sid ops).
Proof.
  unfold Tools.getToolsForAgent. destruct (Js.get _ _); [|done..].
  apply keeps_bind; [apply keeps_forIntegrationNames|done].
Qed.

Lemma keeps_getMessageCount this : keepsMessages (Agent.getMessageCount this).
Proof.
  unfold Agent.getMessageCount. destruct (Agent.storage this); [|done].
  eauto 10 with keeps.
Qed.

#[local] Hint Resolve keeps_getToolsForAgent keeps_getMessageCount : keeps.

Lemma keeps_createDataStreamResponse (execute : M Agent.t) :
  keepsMessages execute →
  keepsMessages (Agent.createDataStreamResponse execute).
Proof.
  intros He w. unfold Agent.createDataStreamResponse. specialize (He w).
  by destruct (execute w).
Qed.

Section below_threshold.
Variables (k : Agent.Kind) (this : Agent.t).
Hypothesis below : length (Agent.messages this) ≤ 10.

Lemma gate_closed : bool_decide (10 < length (Agent.messages this)) = false.
Proof. apply bool_decide_eq_false_2. lia. Qed.

Lemma keeps_saveUserMessage : keepsMessages (Agent.saveUserMessage k this).
Proof.
  unfold Agent.saveUserMessage. destruct (Agent.storage this); [|done].
  by rewrite gate_closed, andb_false_r.
Qed.

Lemma keeps_streamOnFinish onFinish result :
  keepsMessages (Agent.streamOnFinish k this onFinish result).
Proof.
  unfold Agent.streamOnFinish. apply keeps_bind; [|done].
  destruct (Agent.storage this); [|done]. by rewrite gate_closed.
Qed.

Lemma keeps_saveErrorMessage error :
  keepsMessages (Agent.saveErrorMessage k this error).
Proof.
  unfold Agent.saveErrorMessage. destruct (Agent.storage this); [|done].
  by rewrite gate_closed.
Qed.

Lemma keeps_onChatMessage onFinish generation :
  keepsMessages (Agent.onChatMessage k this onFinish generation).
Proof.
  unfold Agent.onChatMessage, Agent.execute.
  apply keeps_bind; [apply keeps_saveUserMessage|intros _].
  apply keeps_createDataStreamResponse.
  apply keeps_bind.
  - apply keeps_try_catch.
    + apply keeps_bind; [apply keeps_getToolsForAgent|intros tools].
      apply keeps_bind; [done|intros _]. by destruct generation.
    + intros e. apply keeps_bind; [done|intros _].
      apply keeps_bind; [apply keeps_saveErrorMessage|done].
  - intros [result|]; [apply keeps_streamOnFinish|done].
Qed.
End below_threshold.

Lemma saveMessage_ok ops data w :
  World.nextFault w = None →
  ∃ row,
    DbOperations.saveMessage ops data w
    = (Ok (Some row),
       World.setMessages (World.messages w ++ [row])
         (World.takeUuid (World.issue w)))
    ∧ msg_role row = new_msg_role data
    ∧ msg_content row = new_msg_content data
    ∧ msg_agentType row = new_msg_agentType data
    ∧ msg_sessionId row = new_msg_sessionId data.
Proof.
  intros Hok. unfold DbOperations.saveMessage, try_catch.
  rewrite run_bind. cbn [newDate read]. rewrite run_bind.
  rewrite statement_ok by done. eexists. split; [reflexivity|done].
Qed.

Lemma saveMessage_total ops data : total (DbOperations.saveMessage ops data).
Proof.
  intros w. unfold DbOperations.saveMessage, try_catch.
  rewrite run_bind. cbn [newDate read]. rewrite run_bind.
  unfold statement. destruct (World.nextFault w); by eexists _, _.
Qed.

Lemma saveErrorMessage_total k this error :
  total (Agent.saveErrorMessage k this error).
Proof.
  intros w. unfold Agent.saveErrorMessage.
  destruct (Agent.storage this) as [ops|]; [|by eexists _, _].
  case_bool_decide; [|by eexists _, _].
  unfold try_catch. rewrite run_bind. cbn [newDate read]. rewrite run_bind.
  match goal with |- context [DbOperations.saveMessage ops ?d w] =>
    destruct (saveMessage_total ops d w) as (r & w' & ->) end.
  by eexists _, _.
Qed.

Section stays.
Context {A B : Type}.

Lemma stays_ret (a : A) : staysHealthy (mret a).
Proof. by intros w. Qed.

Lemma stays_bind (m : M A) (f : A → M B) :
  staysHealthy m → (∀ a, staysHealthy (f a)) → staysHealthy (m ≫= f).
Proof.
  intros Hm Hf w Hh. rewrite run_bind. specialize (Hm w Hh).
  destruct (m w) as [[a|e] w1]; simpl in *; [|done].
  by apply Hf.
Qed.

Lemma stays_try_catch (m : M A) (h : Js.Error → M A) :
  staysHealthy m → (∀ e, staysHealthy (h e)) →
  staysHealthy (try_catch m h).
Proof.
  intros Hm Hh w Hw. unfold try_catch. specialize (Hm w Hw).
  destruct (m w) as [[a|e] w1]; simpl in *; [done|].
  by apply Hh.
Qed.

Lemma stays_select (rows : World.t → list A) :
  staysHealthy (statement (Sql.select rows)).
Proof.
  intros w Hh. rewrite statement_ok by by apply healthy_next.
  by apply healthy_issue.
Qed.
End stays.

Lemma stays_liftRes {A} (r : Res A) : staysHealthy (Tools.liftRes r).
Proof. destruct r; by intros w. Qed.

Lemma staysHealthy_forIntegrationNames names sid ops acc :
  staysHealthy (Tools.forIntegrationNames names sid ops acc).
Proof.
  revert acc. induction names as [|name names IH]; intros acc;
    cbn [Tools.forIntegrationNames]; [apply stays_ret|].
  apply stays_bind.
  - destruct (Tools.sessionContext sid ops) as [[? ?]|]; [|apply stays_ret].
    apply stays_try_catch; [|intros e; apply stays_ret].
    apply stays_bind; [apply stays_select|intros rows; apply stays_ret].
  - intros [|]; (apply stays_bind; [|intros ?; apply IH]);
      [|apply stays_ret].
    apply stays_bind; [apply stays_liftRes|intros ?; apply stays_ret].
Qed.

Lemma staysHealthy_getToolsForAgent role sid ops :
  staysHealthy (Tools.getToolsForAgent role sid ops).
Proof.
  unfold Tools.getToolsForAgent.
  destruct (Js.get _ _); [|by intros w..].
  apply stays_bind; [apply staysHealthy_forIntegrationNames|].
  intros tools. apply stays_ret.
Qed.

Section above_threshold.
Variables (k : Agent.Kind) (this : Agent.t) (ops : DbOperations.t).
Hypothesis above : 10 < length (Agent.messages this).
Hypothesis stored : Agent.storage this = Some ops.

Lemma gate_open : bool_decide (10 < length (Agent.messages this)) = true.
Proof. by apply bool_decide_eq_true_2. Qed.

Lemma saveUserMessage_one_row m w :
  World.nextFault w = None →
  last (Agent.messages this) = Some m → Agent.role m = "user" →
  ∃ row,
    World.messages (Agent.saveUserMessage k this w).2
    = World.messages w ++ [row]
    ∧ msg_role row = "user" ∧ msg_content row = Agent.content m.
Proof.
  intros Hok Hlast Hrole. unfold Agent.saveUserMessage.
  rewrite stored, Hlast, gate_open. cbn [fmap option_fmap option_map].
  rewrite Hrole. rewrite bool_decide_eq_true_2 by done. cbn [andb].
  unfold try_catch. rewrite run_bind. cbn [newDate read]. rewrite run_bind.
  match goal with |- context [DbOperations.saveMessage ops ?d w] =>
    destruct (saveMessage_ok ops d w Hok) as (row & -> & Hr & Hc & _) end.
  exists row. by split_and!.
Qed.

Lemma streamOnFinish_one_row onFinish result w :
  World.nextFault w = None →
  ∃ row,
    World.messages (Agent.streamOnFinish k this onFinish result w).2
    = World.messages w ++ [row]
    ∧ msg_role row = "assistant"
    ∧ msg_content row = Agent.text result.
Proof.
  intros Hok. unfold Agent.streamOnFinish.
  rewrite stored, gate_open. rewrite run_bind.
  unfold try_catch at 1. rewrite run_bind. cbn [newDate read].
  rewrite run_bind.
  match goal with |- context [DbOperations.saveMessage ops ?d w] =>
    destruct (saveMessage_ok ops d w Hok) as (row & -> & Hr & Hc & _) end.
  exists row. split; [|done].
  match goal with |- context [(?m ≫= ?f) ?w0] =>
    assert (Hk : keepsMessages (m ≫= f)) by eauto 12 with keeps;
    specialize (Hk w0); destruct ((m ≫= f) w0) as [[[]|e] w1] end;
    simpl in *; done.
Qed.

Lemma saveErrorMessage_one_row error w :
  World.nextFault w = None →
  ∃ row,
    World.messages (Agent.saveErrorMessage k this error w).2
    = World.messages w ++ [row]
    ∧ msg_role row = "system".
Proof.
  intros Hok. unfold Agent.saveErrorMessage.
  rewrite stored, gate_open.
  unfold try_catch. rewrite run_bind. cbn [newDate read]. rewrite run_bind.
  match goal with |- context [DbOperations.saveMessage ops ?d w] =>
    destruct (saveMessage_ok ops d w Hok) as (row & -> & Hr & Hc & _) end.
  exists row. by split_and!.
Qed.
Lemma saveUserMessage_inbound w :
  healthy w →
  ∃ rows w1,
    Agent.saveUserMessage k this w = (Ok tt, w1)
    ∧ World.messages w1 = World.messages w ++ rows
    ∧ (λ r, (msg_role r, msg_content r)) <$> rows
      = match last (Agent.messages this) with
        | Some m =>
            if decide (Agent.role m = "user")
            then [("user", Agent.content m)] else []
        | None => []
        end
    ∧ healthy w1.
Proof.
  intros Hh. unfold Agent.saveUserMessage. rewrite stored, gate_open.
  rewrite andb_true_r.
  destruct (last (Agent.messages this)) as [m|];
    cbn [fmap option_fmap option_map].
  2:{ rewrite bool_decide_eq_false_2 by done.
      exists [], w. by rewrite app_nil_r. }
  destruct (decide (Agent.role m = "user")) as [Hrole|Hrole].
  - rewrite bool_decide_eq_true_2 by by rewrite Hrole.
    unfold try_catch. rewrite run_bind. cbn [newDate read]. rewrite run_bind.
    match goal with |- context [DbOperations.saveMessage ops ?d w] =>
      destruct (saveMessage_ok ops d w (healthy_next w Hh))
        as (row & -> & Hr & Hc & _) end.
    eexists [row], _. split; [reflexivity|]. cbn.
    split; [done|]. split; [by rewrite Hr, Hc|]. by apply healthy_issue.
  - rewrite bool_decide_eq_false_2 by (intros [=]; done).
    exists [], w. by rewrite app_nil_r.
Qed.

Lemma saveErrorMessage_record error w :
  World.nextFault w = None →
  ∃ row w1,
    Agent.saveErrorMessage k this error w = (Ok tt, w1)
    ∧ World.messages w1 = World.messages w ++ [row]
    ∧ msg_role row = "system"
    ∧ msg_content row
      = "Error processing message: "
        +:+ (if Js.instanceofError error then Js.message error
             else "Unknown error").
Proof.
  intros Hok. unfold Agent.saveErrorMessage.
  rewrite stored, gate_open.
  unfold try_catch. rewrite run_bind. cbn [newDate read]. rewrite run_bind.
  match goal with |- context [DbOperations.saveMessage ops ?d w] =>
    destruct (saveMessage_ok ops d w Hok) as (row & -> & Hr & Hc & _) end.
  eexists row, _. by split_and!.
Qed.

Lemma streamOnFinish_total_one_row onFinish result w :
  World.nextFault w = None →
  ∃ row this' w1,
    Agent.streamOnFinish k this onFinish result w = (Ok this', w1)
    ∧ World.messages w1 = World.messages w ++ [row]
    ∧ msg_role row = "assistant"
    ∧ msg_content row = Agent.text result.
Proof.
  intros Hok.
  destruct (streamOnFinish_one_row onFinish result w Hok)
    as (row & Hm & Hr & Hc).
  exists row. revert Hm. unfold Agent.streamOnFinish.
  rewrite stored, gate_open, run_bind.
  match goal with |- context [try_catch ?b ?h w] =>
    assert (∃ w1, try_catch b h w = (Ok tt, w1)) as [w1 ->]
      by (unfold try_catch; destruct (b w) as [[[]|e] w0]; by eexists)
  end.
  rewrite run_ret. cbn [snd]. intros Hm.
  eexists _, _. split; [reflexivity|done].
Qed.

(** a whole turn above the threshold *)
Lemma onChatMessage_rows onFinish generation w :
  healthy w → Agent.dbOps this = Some ops →
  ∃ rows,
    World.messages (Agent.onChatMessage k this onFinish generation w).2
    = World.messages w ++ rows
    ∧ (λ r, (msg_role r, msg_content r)) <$> rows
      = turnRows k this generation.
Proof.
  intros Hh Hops. unfold Agent.onChatMessage. rewrite run_bind.
  destruct (saveUserMessage_inbound w Hh)
    as (inbound & w1 & -> & Hm1 & Hp1 & Hh1).
  unfold turnRows, turnError. rewrite <- Hp1.
  unfold Agent.createDataStreamResponse, Agent.execute.
  rewrite run_bind. unfold try_catch at 1. rewrite run_bind, Hops.
  pose proof (staysHealthy_getToolsForAgent (Agent.agentType k)
                (Some (Agent.sessionId this)) (Some ops) w1 Hh1) as Hh2.
  pose proof (keeps_getToolsForAgent (Agent.agentType k)
                (Some (Agent.sessionId this)) (Some ops) w1) as Hm2.
  destruct (Tools.agentToolMappings !! Agent.agentType k)
    as [candidates|] eqn:Hrole.
  - destruct (getToolsForAgent_resolved _ _ (Some (Agent.sessionId this))
                (Some ops) w1 Hrole) as [w2 E].
    rewrite E in Hh2, Hm2 |- *. cbn [snd] in Hh2, Hm2.
    rewrite run_bind. cbn [console_log effect].
    destruct generation as [error|result|].
    + cbn [throw]. rewrite run_bind. cbn [console_error effect].
      rewrite run_bind.
      match goal with |- context [Agent.saveErrorMessage k this error ?w0] =>
        destruct (saveErrorMessage_record error w0)
          as (row & w3 & -> & Hm3 & Hr & Hc);
          [by apply healthy_next|] end.
      exists (inbound ++ [row]). cbn [throw snd].
      rewrite Hm3. cbn. rewrite Hm2, Hm1, <- app_assoc.
      split; [done|]. by rewrite fmap_app, fmap_cons, Hr, Hc.
    + rewrite run_ret.
      match goal with
      | |- context [Agent.streamOnFinish k this onFinish result ?w0] =>
          destruct (streamOnFinish_total_one_row onFinish result w0)
            as (row & this' & w3 & -> & Hm3 & Hr & Hc);
            [by apply healthy_next|] end.
      exists (inbound ++ [row]). cbn [snd].
      rewrite Hm3. cbn. rewrite Hm2, Hm1, <- app_assoc.
      split; [done|]. by rewrite fmap_app, fmap_cons, Hr, Hc.
    + rewrite !run_ret. exists inbound. cbn.
      rewrite Hm2, Hm1. by rewrite app_nil_r.
  - assert (Tools.getToolsForAgent (Agent.agentType k)
              (Some (Agent.sessionId this)) (Some ops) w1
            = (Throw (Js.TypeError "integrationNames is not iterable"), w1))
      as ->.
    { unfold Tools.getToolsForAgent, Js.get. rewrite Hrole.
      by case_bool_decide. }
    rewrite run_bind. cbn [console_error effect]. rewrite run_bind.
    match goal with |- context [Agent.saveErrorMessage k this ?e ?w0] =>
      destruct (saveErrorMessage_record e w0)
        as (row & w3 & -> & Hm3 & Hr & Hc);
        [by apply healthy_next|] end.
    exists (inbound ++ [row]). cbn [throw snd].
    rewrite Hm3. cbn. rewrite Hm1, <- app_assoc.
    split; [done|]. by rewrite fmap_app, fmap_cons, Hr, Hc.
Qed.
End above_threshold.


(** C2.  A chat turn whose transcript holds at most 10 messages writes no
    message row at all, whatever the generation does.  With more than 10
    messages, each of the three gated saves writes exactly one row when
    the agent has its storage handle and session id and the insert is not
    rejected: the inbound message when the last message is the user's,
    the assistant reply in the stream's completion callback, and the
    system-role error record in the error handler.  And a whole turn of
    [onChatMessage] on healthy storage adds exactly these rows: the
    inbound row if the last message is the user's, followed by the error
    record if tool resolution or the generation throws, by the reply if
    the generation finishes, and by nothing if the stream is cut short. *)
Theorem threshold_gate k this :
  (length (Agent.messages this) ≤ 10 →
   ∀ onFinish generation w,
     World.messages (Agent.onChatMessage k this onFinish generation w).2
     = World.messages w)
  ∧ (10 < length (Agent.messages this) →
     ∀ ops w,
       Agent.storage this = Some ops → World.nextFault w = None →
       (∀ m, last (Agent.messages this) = Some m → Agent.role m = "user" →
          ∃ row,
            World.messages (Agent.saveUserMessage k this w).2
            = World.messages w ++ [row]
            ∧ msg_role row = "user" ∧ msg_content row = Agent.content m)
       ∧ (∀ onFinish result,
            ∃ row,
              World.messages
                (Agent.streamOnFinish k this onFinish result w).2
              = World.messages w ++ [row]
              ∧ msg_role row = "assistant"
              ∧ msg_content row = Agent.text result)
       ∧ (∀ error,
            ∃ row,
              World.messages (Agent.saveErrorMessage k this error w).2
              = World.messages w ++ [row]
              ∧ msg_role row = "system")
       ∧ (healthy w →
          ∀ onFinish generation,
            ∃ rows,
              World.messages
                (Agent.onChatMessage k this onFinish generation w).2
              = World.messages w ++ rows
              ∧ (λ r, (msg_role r, msg_content r)) <$> rows
                = turnRows k this generation)).
Proof.
  split.
  - intros Hbelow onFinish generation w. by apply keeps_onChatMessage.
  - intros Habove ops w Hst Hok. split_and!.
    + intros m Hlast Hrole. by eapply saveUserMessage_one_row.
    + intros onFinish result. by eapply streamOnFinish_one_row.
    + intros error. by eapply saveErrorMessage_one_row.
    + intros Hh onFinish generation.
      eapply onChatMessage_rows; [done..|].
      revert Hst. unfold Agent.storage.
      destruct (Agent.dbOps this); [|done]. by destruct (decide _).
Qed.

Lemma threshold_gate_witness :
  World.messages
    (Agent.onChatMessage Agent.CampaignAgent
       (Sample.agent Agent.CampaignAgent (Sample.chatter 10)) None
       (Agent.Finishes Sample.reply) Sample.world).2
  = World.messages Sample.world
  ∧ (∃ row,
       World.messages
         (Agent.streamOnFinish Agent.CampaignAgent
            (Sample.agent Agent.CampaignAgent (Sample.chatter 11)) None
            Sample.reply Sample.world).2
       = World.messages Sample.world ++ [row]
       ∧ msg_role row = "assistant"
       ∧ msg_content row = "pong")
  ∧ ∃ rows,
      World.messages
        (Agent.onChatMessage Agent.CampaignAgent
           (Sample.agent Agent.CampaignAgent (Sample.chatter 11)) None
           (Agent.Finishes Sample.reply) Sample.world).2
      = World.messages Sample.world ++ rows
      ∧ (λ r, (msg_role r, msg_content r)) <$> rows
        = [("user", "ping"); ("assistant", "pong")].
Proof.
  split.
  - apply (threshold_gate Agent.CampaignAgent
             (Sample.agent Agent.CampaignAgent (Sample.chatter 10))).
    simpl. lia.
  - destruct (threshold_gate Agent.CampaignAgent
                (Sample.agent Agent.CampaignAgent (Sample.chatter 11)))
      as [_ H].
    destruct (H ltac:(simpl; lia) Sample.dbOps Sample.world eq_refl eq_refl)
      as (_ & Hfinish & _ & Hturn).
    split; [apply (Hfinish None Sample.reply)|].
    apply (Hturn (Forall_nil_2 _) None (Agent.Finishes Sample.reply)).
Defined.

Lemma getToolsForAgent_router sid ops w :
  Tools.getToolsForAgent "router-agent" sid ops w
  = (Throw (Js.TypeError "integrationNames is not iterable"), w).
Proof. reflexivity. Qed.

Lemma getToolsForAgent_unlisted agentType sid ops w :
  agentType ≠ "auto-agent" → agentType ≠ "campaign-agent" →
  Tools.agentToolMappings !! agentType = None
  ∧ Js.get Tools.agentToolMappings agentType
    = (if bool_decide (agentType ∈ Js.objectPrototype)
       then Js.Inherited agentType else Js.Undefined)
  ∧ Tools.getToolsForAgent agentType sid ops w
    = (Throw (Js.TypeError "integrationNames is not iterable"), w).
Proof.
  intros Ha Hc.
  assert (Hnone : Tools.agentToolMappings !! agentType = None).
  { unfold Tools.agentToolMappings. apply not_elem_of_list_to_map_1.
    cbn. rewrite !not_elem_of_cons. split_and!; try done.
    apply not_elem_of_nil. }
  split; [done|].
  unfold Tools.getToolsForAgent, Js.get. rewrite Hnone.
  split; [done|]. by case_bool_decide.
Qed.

(** C9 (amended).  The static candidate map has entries for "auto-agent"
    and "campaign-agent" only.  For any other agent type the lookup gives
    no candidate list: [undefined] when the name is not a member of
    [Object.prototype], which is the case of "router-agent", and the
    inherited, non-iterable member otherwise; iterating it throws a
    [TypeError] before any registry query, and no tool mapping is
    returned.  So every chat turn of [RouterAgent] takes the error
    handler around tool resolution, whatever the generation would do, and
    the data stream of the turn's response ends in that error. *)
Theorem router_turn_takes_error_path this onFinish generation w :
  dom Tools.agentToolMappings
  = ({[ "auto-agent"; "campaign-agent" ]} : gset string)
  ∧ (∀ agentType sid ops w0,
       agentType ≠ "auto-agent" → agentType ≠ "campaign-agent" →
       Js.get Tools.agentToolMappings agentType
       = (if bool_decide (agentType ∈ Js.objectPrototype)
          then Js.Inherited agentType else Js.Undefined)
       ∧ Tools.getToolsForAgent agentType sid ops w0
         = (Throw (Js.TypeError "integrationNames is not iterable"), w0))
  ∧ Js.get Tools.agentToolMappings (Agent.agentType Agent.RouterAgent)
    = Js.Undefined
  ∧ (∃ w',
       Agent.saveErrorMessage Agent.RouterAgent this
         (Js.TypeError "integrationNames is not iterable")
         (World.print World.Err "Error in RouterAgent onChatMessage:" w)
       = (Ok (), w')
       ∧ Agent.execute Agent.RouterAgent this onFinish generation w
         = (Throw (Js.TypeError "integrationNames is not iterable"), w'))
  ∧ ∃ w',
      Agent.onChatMessage Agent.RouterAgent this onFinish generation w
      = (Ok {| Agent.res_status := 200;
               Agent.res_stream :=
                 Throw (Js.TypeError "integrationNames is not iterable") |},
         w').
Proof.
  split_and!.
  - apply leibniz_equiv. unfold Tools.agentToolMappings.
    rewrite dom_list_to_map. cbn. set_solver.
  - intros agentType sid ops w0 Ha Hc.
    by destruct (getToolsForAgent_unlisted agentType sid ops w0 Ha Hc)
      as (_ & ? & ?).
  - reflexivity.
  - unfold Agent.execute. rewrite run_bind. unfold try_catch at 1.
    rewrite run_bind, getToolsForAgent_router.
    rewrite run_bind. cbn [console_error effect]. rewrite run_bind.
    match goal with |- context [Agent.saveErrorMessage ?k ?t ?e ?w0] =>
      destruct (saveErrorMessage_total k t e w0) as ([] & w' & E) end.
    exists w'. split; [exact E|].
    change ("Error in " +:+ Agent.agentName Agent.RouterAgent
            +:+ " onChatMessage:")
      with "Error in RouterAgent onChatMessage:".
    by rewrite E.
  - unfold Agent.onChatMessage. rewrite run_bind.
    assert (∃ w1, Agent.saveUserMessage Agent.RouterAgent this w = (Ok tt, w1))
      as [w1 ->].
    { unfold Agent.saveUserMessage.
      destruct (Agent.storage this) as [ops|]; [|by eexists].
      destruct (_ && _); [|by eexists].
      unfold try_catch. rewrite run_bind. cbn [newDate read]. rewrite run_bind.
      match goal with |- context [DbOperations.saveMessage ops ?d w] =>
        destruct (saveMessage_total ops d w) as (r & w' & ->) end.
      by eexists. }
    unfold Agent.createDataStreamResponse, Agent.execute.
    rewrite run_bind. unfold try_catch at 1.
    rewrite run_bind, getToolsForAgent_router.
    rewrite run_bind. cbn [console_error effect]. rewrite run_bind.
    match goal with |- context [Agent.saveErrorMessage ?k ?t ?e ?w0] =>
      destruct (saveErrorMessage_total k t e w0) as ([] & w' & ->) end.
    by eexists.
Qed.

Lemma router_turn_takes_error_path_witness :
  Tools.getToolsForAgent "router-agent" (Some "router-agent-persistent")
    (Some Sample.dbOps) Sample.world
  = (Throw (Js.TypeError "integrationNames is not iterable"), Sample.world).
Proof.
  destruct (router_turn_takes_error_path Sample.liveAgent None Agent.Pending
              Sample.world) as (_ & H & _).
  by destruct (H "router-agent" (Some "router-agent-persistent")
                 (Some Sample.dbOps) Sample.world) as [_ ?].
Defined.

(** C9 as stated fails: "constructor" is neither of the two listed agent
    types, yet looking it up in the candidate map does not give
    [undefined]; it gives the member inherited from [Object.prototype]. *)
Lemma unlisted_lookup_is_not_always_undefined :
  "constructor" ≠ "auto-agent"
  ∧ "constructor" ≠ "campaign-agent"
  ∧ Js.get Tools.agentToolMappings "constructor" ≠ Js.Undefined.
Proof. by split_and!. Qed.

(** ** Closing (server.ts, db/index.ts) *)

Lemma healthy_saved w row :
  healthy w →
  healthy (World.setMessages (World.messages w ++ [row])
             (World.takeUuid (World.issue w))).
Proof. apply healthy_issue. Qed.

Lemma flush_writes_all k this ops ms w :
  healthy w →
  ∃ w' rows,
    Agent.for_of ms (flushOne k this ops) w = (Ok tt, w')
    ∧ World.messages w' = World.messages w ++ rows
    ∧ (λ r, (msg_role r, msg_content r)) <$> rows
      = (λ m, (Agent.role m, Agent.content m)) <$> ms
    ∧ Forall (λ r, msg_agentType r = Agent.agentType k
                   ∧ msg_sessionId r = Agent.sessionId this) rows
    ∧ World.ended w' = World.ended w
    ∧ World.console w' = World.console w
    ∧ healthy w'.
Proof.
  revert w. induction ms as [|m ms IH]; intros w Hh.
  { exists w, []. split_and!; try done. by rewrite app_nil_r. }
  cbn [Agent.for_of]. rewrite run_bind. unfold flushOne at 1.
  rewrite run_bind. cbn [newDate read]. rewrite run_bind.
  match goal with |- context [DbOperations.saveMessage ops ?d w] =>
    destruct (saveMessage_ok ops d w (healthy_next w Hh))
      as (row & -> & Hr & Hc & Ha & Hs) end.
  rewrite run_ret.
  destruct (IH _ (healthy_saved w row Hh))
    as (w' & rows & -> & Hm & Hp & Hall & He & Hcon & Hh').
  exists w', (row :: rows). split_and!; try done.
  - rewrite Hm. cbn. by rewrite <- app_assoc.
  - cbn. by rewrite Hr, Hc, Hp.
  - by constructor.
Qed.

Lemma saveMessage_ended ops data w :
  World.ended (DbOperations.saveMessage ops data w).2 = World.ended w.
Proof.
  unfold DbOperations.saveMessage, try_catch.
  rewrite run_bind. cbn [newDate read]. rewrite run_bind.
  unfold statement. by destruct (World.nextFault w).
Qed.

Lemma flush_ended k this ops ms w :
  World.ended (Agent.for_of ms (flushOne k this ops) w).2 = World.ended w.
Proof.
  revert w. induction ms as [|m ms IH]; intros w; [done|].
  cbn [Agent.for_of]. rewrite run_bind. unfold flushOne at 1.
  rewrite run_bind. cbn [newDate read]. rewrite run_bind.
  match goal with |- context [DbOperations.saveMessage ops ?d w] =>
    pose proof (saveMessage_ended ops d w) as He;
    destruct (saveMessage_total ops d w) as (r & w1 & E) end.
  rewrite E in *. rewrite run_ret. rewrite IH. done.
Qed.

Lemma close_released manager w :
  DatabaseManager.conn manager = None →
  DatabaseManager.close manager w = (Ok manager, w).
Proof. intros H. unfold DatabaseManager.close. by rewrite H. Qed.

Lemma close_releases manager c w :
  DatabaseManager.conn manager = Some c →
  ∃ w',
    DatabaseManager.close manager w
    = (Ok {| DatabaseManager.db := None; DatabaseManager.conn := None;
             DatabaseManager.connectionString :=
               DatabaseManager.connectionString manager |}, w')
    ∧ World.ended w' = S (World.ended w)
    ∧ World.messages w' = World.messages w
    ∧ (World.nextFault w = None →
       World.console w'
       = World.console w
         ++ [(World.Log, "DatabaseManager: Connection closed")]).
Proof.
  intros H. unfold DatabaseManager.close. rewrite H.
  rewrite run_bind. unfold try_catch. rewrite run_bind.
  unfold DatabaseManager.conn_end.
  destruct (World.nextFault w); by eexists.
Qed.

(** C8.  On close, an agent that has its storage handle and session id
    writes one row per transcript message, in order and whatever the
    transcript length, when storage is healthy; after that the connection
    held by the manager is ended, once, and both handles are cleared.
    Closing the manager again changes nothing, and a second [onClose] ends
    no connection. *)
Theorem close_flushes_and_releases_once k connectionId this ops manager c w :
  Agent.storage this = Some ops → healthy w →
  Agent.dbManager this = Some manager →
  DatabaseManager.conn manager = Some c →
  ∃ this' w' rows manager',
    Agent.onClose k connectionId this w = (Ok this', w')
    ∧ World.messages w' = World.messages w ++ rows
    ∧ (λ r, (msg_role r, msg_content r)) <$> rows
      = (λ m, (Agent.role m, Agent.content m)) <$> Agent.messages this
    ∧ Forall (λ r, msg_agentType r = Agent.agentType k
                   ∧ msg_sessionId r = Agent.sessionId this) rows
    ∧ World.ended w' = S (World.ended w)
    ∧ (∃ flushLog,
         World.console w'
         = World.console w
           ++ [(World.Log, Agent.agentName k +:+ " disconnected")]
           ++ flushLog
           ++ [(World.Log, "DatabaseManager: Connection closed")])
    ∧ Agent.dbManager this' = Some manager'
    ∧ DatabaseManager.conn manager' = None
    ∧ DatabaseManager.db manager' = None
    ∧ (∀ w2, DatabaseManager.close manager' w2 = (Ok manager', w2))
    ∧ (∀ connectionId2 w2,
         World.ended (Agent.onClose k connectionId2 this' w2).2
         = World.ended w2).
Proof.
  intros Hst Hh Hm Hc.
  set (manager' :=
    {| DatabaseManager.db := None; DatabaseManager.conn := None;
       DatabaseManager.connectionString :=
         DatabaseManager.connectionString manager |}).
  assert (Hflush : ∃ w1 rows,
    (match Agent.storage this with
     | Some ops =>
         if bool_decide (0 < length (Agent.messages this)) then
           try_catch
             (console_log (Agent.agentName k
                           +:+ ": Saving messages to database on close");;
              Agent.for_of (Agent.messages this) (flushOne k this ops);;
              console_log (Agent.agentName k
                           +:+ ": Successfully saved all messages on close"))
             (λ error,
               console_error (Agent.agentName k
                              +:+ ": Failed to save messages on close:"))
         else mret tt
     | None => mret tt
     end) (World.print World.Log (Agent.agentName k +:+ " disconnected") w)
    = (Ok tt, w1)
    ∧ World.messages w1 = World.messages w ++ rows
    ∧ (λ r, (msg_role r, msg_content r)) <$> rows
      = (λ m, (Agent.role m, Agent.content m)) <$> Agent.messages this
    ∧ Forall (λ r, msg_agentType r = Agent.agentType k
                   ∧ msg_sessionId r = Agent.sessionId this) rows
    ∧ World.ended w1 = World.ended w
    ∧ healthy w1
    ∧ ∃ flushLog,
        World.console w1
        = World.console w
          ++ [(World.Log, Agent.agentName k +:+ " disconnected")]
          ++ flushLog).
  { rewrite Hst. case_bool_decide as Hlen.
    - unfold try_catch. rewrite run_bind. cbn [console_log effect].
      rewrite run_bind.
      match goal with |- context [Agent.for_of _ _ ?w0] =>
        destruct (flush_writes_all k this ops (Agent.messages this) w0)
          as (w1 & rows & -> & Hmsg & Hp & Hall & He & Hcon & Hh1);
          [done|] end.
      eexists _, rows. split; [reflexivity|]. split_and!; try done.
      eexists [_; _]. cbn. rewrite Hcon. cbn.
      by rewrite <- !app_assoc.
    - exists (World.print World.Log (Agent.agentName k +:+ " disconnected") w), [].
      destruct (Agent.messages this); [|simpl in Hlen; lia].
      split_and!; try done; [by rewrite app_nil_r|].
      exists []. by rewrite app_nil_r. }
  destruct Hflush
    as (w1 & rows & Hrun & Hmsg & Hp & Hall & He & Hh1 & flushLog & Hcon).
  destruct (close_releases manager c w1 Hc)
    as (w2 & Hclose & He2 & Hm2 & Hcon2).
  exists (Agent.setDbManager (Some manager') this), w2, rows, manager'.
  split_and!; try done.
  - unfold Agent.onClose. rewrite run_bind. cbn [console_log effect].
    rewrite run_bind. unfold flushOne in Hrun. rewrite Hrun, Hm.
    rewrite run_bind. unfold try_catch. fold manager' in Hclose.
    by rewrite Hclose.
  - by rewrite Hm2.
  - by rewrite He2, He.
  - exists flushLog.
    rewrite Hcon2 by (by apply healthy_next). rewrite Hcon.
    by rewrite <- !app_assoc.
  - intros cid2 w3. unfold Agent.onClose. rewrite run_bind.
    cbn [console_log effect]. rewrite run_bind.
    assert (Agent.storage (Agent.setDbManager (Some manager') this)
            = Some ops) as -> by done.
    cbn [Agent.messages Agent.setDbManager Agent.dbManager Agent.sessionId].
    match goal with |- context [(if ?b then ?m else _) ?w0] =>
      assert (Hk : World.ended ((if b then m else mret tt) w0).2
                   = World.ended w3
                   ∧ ∃ w4, (if b then m else mret tt) w0 = (Ok tt, w4)) end.
    { case_bool_decide; [|split; [done|by eexists]].
      unfold try_catch. rewrite run_bind. cbn [console_log effect].
      rewrite run_bind.
      match goal with |- context [Agent.for_of ?ms ?f ?w0] =>
        pose proof (flush_ended k this ops ms w0) as Hfe;
        unfold flushOne in Hfe;
        destruct (Agent.for_of ms f w0) as [[[]|e] w4] end;
        simpl in *; split; try done; by eexists. }
    destruct Hk as [Hk [w4 E4]]. rewrite E4 in *. simpl in Hk.
    rewrite run_bind. unfold try_catch.
    by rewrite close_released.
Qed.

Lemma close_flushes_and_releases_once_witness :
  ∃ this' w' rows,
    Agent.onClose Agent.RouterAgent "connection-1"
      (Sample.agent Agent.RouterAgent (Sample.chatter 3)) Sample.world
    = (Ok this', w')
    ∧ World.messages w' = rows
    ∧ length rows = 3
    ∧ World.ended w' = 1.
Proof.
  destruct (close_flushes_and_releases_once Agent.RouterAgent "connection-1"
              (Sample.agent Agent.RouterAgent (Sample.chatter 3))
              Sample.dbOps Sample.dbManager
              (DbOperations.postgres "postgres://db") Sample.world)
    as (this' & w' & rows & manager' & E & Hm & Hp & _ & He & _).
  - reflexivity.
  - constructor.
  - reflexivity.
  - reflexivity.
  - exists this', w', rows. split_and!; try done.
    apply (f_equal length) in Hp. by rewrite !length_fmap in Hp.
Defined.

(** ** The integrations API (server.ts) *)

Lemma prefix_split (s1 s2 : string) :
  String.prefix s1 s2 = true → ∃ rest, s2 = s1 +:+ rest.
Proof.
  revert s2. induction s1 as [|c s1 IH]; intros s2.
  - intros _. by exists s2.
  - destruct s2 as [|c' s2]; simpl; [done|].
    destruct (Ascii.ascii_dec c c') as [->|]; [|done].
    intros [rest ->]%IH. by exists rest.
Qed.

Lemma fetch_unresolved_name_is_404 request env routed w :
  Worker.method request = "POST" ∨ Worker.method request = "DELETE" →
  String.prefix "/api/integrations/" (Worker.pathname request) = true →
  Worker.popSplit (Worker.pathname request) = ""
  ∨ Js.get Tools.integrations (Worker.popSplit (Worker.pathname request))
    = Js.Undefined →
  Worker.fetch request env routed w
  = (Ok {| Worker.status := 404;
           Worker.body := Worker.Failure "Integration not found" None |}, w).
Proof.
  intros Hmethod Hprefix Hname.
  destruct request as [method pathname search header]. simpl in *.
  destruct (prefix_split _ _ Hprefix) as [rest Hp].
  unfold Worker.fetch. cbn [Worker.method Worker.pathname
    Worker.searchSessionId Worker.headerSessionId].
  assert (Hnot : bool_decide
            (Worker.popSplit pathname = "")
          || negb (Js.truthy (Js.get Tools.integrations
                                (Worker.popSplit pathname))) = true).
  { destruct Hname as [->| ->]; [done|]. by rewrite orb_true_r. }
  rewrite (decide_False (P := method = "OPTIONS"))
    by (destruct Hmethod as [->| ->]; done).
  rewrite (decide_False (P := pathname = "/check-open-ai-key"))
    by (by rewrite Hp).
  assert (String.prefix "/api/integrations" pathname = true) as ->
    by (by rewrite Hp).
  rewrite Hprefix. rewrite run_bind. unfold try_catch.
  rewrite (bool_decide_eq_false_2 (pathname = "/api/integrations"))
    by (by rewrite Hp).
  cbn [andb].
  destruct Hmethod as [->| ->]; cbn [andb bool_decide decide_rel];
    rewrite ?bool_decide_eq_true_2 by done;
    rewrite ?(bool_decide_eq_false_2 ("DELETE" = "POST")) by done;
    cbn [andb]; rewrite Hnot; reflexivity.
Qed.

(** C10, at the failing input.  "constructor" names no integration, yet
    a POST or DELETE for it without a session id is answered 400
    "Session ID required": the name check lets through every member that
    the [integrations] object inherits from [Object.prototype]. *)
Theorem fetch_inherited_name_is_not_rejected env routed w :
  Worker.fetch (bare "POST" "/api/integrations/constructor") env routed w
  = (Ok {| Worker.status := 400;
           Worker.body := Worker.Failure "Session ID required" None |}, w)
  ∧ Worker.fetch (bare "DELETE" "/api/integrations/constructor") env routed w
    = (Ok {| Worker.status := 400;
             Worker.body := Worker.Failure "Session ID required" None |}, w).
Proof. split; reflexivity. Qed.

(** With a session id the same request goes through and stores a row for
    an integration named "constructor". *)
Lemma fetch_inherited_name_with_session env routed :
  ∃ row w',
    Worker.fetch
      {| Worker.method := "POST";
         Worker.pathname := "/api/integrations/constructor";
         Worker.searchSessionId := Some "session-1";
         Worker.headerSessionId := None |} env routed Sample.world
    = (Ok {| Worker.status := 200;
             Worker.body :=
               Worker.Success "constructor" "connected"
                 "Successfully connected to constructor" |}, w')
    ∧ World.integrationConnections w' = [row]
    ∧ ic_integrationName row = "constructor".
Proof. by eexists _, _. Qed.

(** * Further properties

    ** Tool resolution (tools/index.ts) *)

Lemma sameTables_refl w : sameTables w w.
Proof. done. Qed.

Lemma sameTables_trans w1 w2 w3 :
  sameTables w1 w2 → sameTables w2 w3 → sameTables w1 w3.
Proof.
  intros (?&?&?&?) (?&?&?&?). split_and!; congruence.
Qed.

Lemma getSessionIntegrations_world ops sid w :
  (DbOperations.getSessionIntegrations ops sid w).2 = World.issue w.
Proof.
  unfold DbOperations.getSessionIntegrations, statement.
  by destruct (World.nextFault w).
Qed.

Lemma forIntegrationNames_reads names sessionId dbOps acc w :
  Forall (λ name, is_Some (Tools.integrations !! name)) names →
  onlyRead w (Tools.forIntegrationNames names sessionId dbOps acc w).2
    (queries sessionId dbOps names).
Proof.
  intros Hown. unfold onlyRead, queries.
  destruct (Tools.sessionContext sessionId dbOps) as [[sid ops]|] eqn:Hctx.
  - revert acc w.
    induction Hown as [|name names Hname Hown IH]; intros acc w.
    { cbn. split_and!; [done..|lia]. }
    assert (∃ acc',
      (Tools.forIntegrationNames (name :: names) sessionId dbOps acc w).2
      = (Tools.forIntegrationNames names sessionId dbOps acc'
           (World.issue w)).2) as [acc' ->].
    { cbn [Tools.forIntegrationNames]. rewrite run_bind, Hctx.
      unfold try_catch at 1. rewrite run_bind.
      pose proof (getSessionIntegrations_world ops sid w) as Hw.
      destruct (DbOperations.getSessionIntegrations ops sid w)
        as [[rows|e] w1]; simpl in Hw; subst w1; rewrite run_ret, run_bind.
      - destruct (Tools.someConnected name rows).
        + rewrite run_bind, (bundle_own name Hname). cbn [Tools.liftRes].
          rewrite !run_ret. by eexists.
        + rewrite run_ret. by eexists.
      - rewrite run_bind, (bundle_own name Hname). cbn [Tools.liftRes].
        rewrite !run_ret. by eexists. }
    destruct (IH acc' (World.issue w)) as (Ht & He & Hs).
    split_and!; [done|done|]. rewrite Hs. cbn. lia.
  - rewrite (forIntegrationNames_no_context names sessionId dbOps acc w
               Hctx Hown 0).
    cbn. split_and!; [done..|lia].
Qed.

(** X1.  For a role that has a candidate list, tool resolution only reads:
    whatever storage answers, no table is changed and no connection is
    ended, and the registry is queried once per candidate when a session
    id and a registry handle are given, and not at all otherwise. *)
Theorem resolver_only_reads role candidates sessionId dbOps w :
  Tools.agentToolMappings !! role = Some candidates →
  onlyRead w (Tools.getToolsForAgent role sessionId dbOps w).2
    (queries sessionId dbOps candidates).
Proof.
  intros Hrole. pose proof (candidates_own _ _ Hrole) as Hown.
  pose proof (forIntegrationNames_reads candidates sessionId dbOps ∅ w Hown)
    as H.
  unfold Tools.getToolsForAgent, Js.get. rewrite Hrole, run_bind.
  by destruct (Tools.forIntegrationNames candidates sessionId dbOps ∅ w)
    as [[tools|e] w1].
Qed.

Lemma resolver_only_reads_witness :
  onlyRead Sample.registry
    (Tools.getToolsForAgent "auto-agent" (Some "session-1")
       (Some Sample.dbOps) Sample.registry).2 2.
Proof.
  exact (resolver_only_reads "auto-agent" ["shopify"; "posthog"]
           (Some "session-1") (Some Sample.dbOps) Sample.registry eq_refl).
Defined.

(** every tool is filed under its own name *)
Lemma findByName_name allTools toolName t :
  Tools.findByName allTools toolName = Some t →
  Tools.tool_name t = Some toolName.
Proof.
  unfold Tools.findByName. intros H.
  apply fmap_Some in H as ([i [key t']] & Hfind & ->).
  by apply list_find_Some in Hfind as (_ & Hname & _).
Qed.

Lemma bundle_named name t tool :
  bundle name !! t = Some tool → Tools.tool_name tool = Some t.
Proof.
  unfold bundle, Tools.getToolsByIntegration.
  destruct (Js.get Tools.integrations name) as [integration| |]; [|done..].
  generalize (Tools.tools integration). intros names.
  assert (∀ (acc : gmap string Tools.Tool),
    (∀ t tool, acc !! t = Some tool → Tools.tool_name tool = Some t) →
    foldl
      (λ (integrationTools : gmap string Tools.Tool) toolName,
         match Tools.findByName Tools.getAllTools toolName with
         | Some t => <[toolName := t]> integrationTools
         | None => integrationTools
         end) acc names !! t = Some tool →
    Tools.tool_name tool = Some t) as Hfold.
  { induction names as [|n names IH]; intros acc Hacc; simpl; [by apply Hacc|].
    apply IH. intros t' tool'.
    destruct (Tools.findByName Tools.getAllTools n) as [found|] eqn:Hfind;
      [|by apply Hacc].
    destruct (decide (n = t')) as [->|Hne].
    - rewrite lookup_insert_eq. intros [= <-]. by eapply findByName_name.
    - rewrite lookup_insert_ne by done. by apply Hacc. }
  apply Hfold. intros ??. by rewrite lookup_empty.
Qed.

Lemma resolved_from sessionId dbOps w i names acc t tool :
  resolved sessionId dbOps w i names acc !! t = Some tool →
  acc !! t = Some tool ∨ ∃ name, name ∈ names ∧ bundle name !! t = Some tool.
Proof.
  revert i acc. induction names as [|name names IH]; intros i acc; simpl.
  { by left. }
  intros H. apply IH in H as [H|(n & Hn & H)].
  - destruct (verdict _ _ _ _ _); [|by left].
    apply lookup_union_Some_raw in H as [H|[_ H]]; [|by left].
    right. exists name. split; [left|done].
  - right. exists n. split; [by right|done].
Qed.

(** X2.  Tool resolution never hands out a tool from outside the role's
    candidate integrations: every tool of the resulting mapping is filed
    under its own name and belongs to the bundle of one of the
    candidates. *)
Theorem resolver_stays_within_candidates role candidates sessionId dbOps w
    tools w' t tool :
  Tools.agentToolMappings !! role = Some candidates →
  Tools.getToolsForAgent role sessionId dbOps w = (Ok tools, w') →
  tools !! t = Some tool →
  Tools.tool_name tool = Some t
  ∧ ∃ name, name ∈ candidates ∧ bundle name !! t = Some tool.
Proof.
  intros Hrole Hrun Ht.
  pose proof (candidates_own _ _ Hrole) as Hown.
  assert (tools = resolved sessionId dbOps w 0 candidates ∅) as ->.
  { revert Hrun. unfold Tools.getToolsForAgent, Js.get.
    rewrite Hrole, run_bind.
    destruct (Tools.sessionContext sessionId dbOps) as [[sid ops]|] eqn:Hctx.
    - destruct (forIntegrationNames_context candidates sessionId dbOps
                  sid ops ∅ w Hctx Hown 0 w eq_refl (λ i, eq_refl))
        as [w1 ->]. by intros [= <- _].
    - rewrite (forIntegrationNames_no_context candidates sessionId dbOps
                 ∅ w Hctx Hown 0). by intros [= <- _]. }
  apply resolved_from in Ht as [Ht|(name & Hin & Ht)];
    [by rewrite lookup_empty in Ht|].
  split; [by eapply bundle_named|by exists name].
Qed.

Lemma resolver_stays_within_candidates_witness :
  ∃ tool,
    Tools.tool_name tool = Some "getShopifyOrders"
    ∧ ∃ name, name ∈ ["shopify"; "posthog"]
              ∧ bundle name !! "getShopifyOrders" = Some tool.
Proof.
  eexists.
  eapply (resolver_stays_within_candidates "auto-agent" ["shopify"; "posthog"]
            None None Sample.world _ _ "getShopifyOrders" _ eq_refl).
  - reflexivity.
  - reflexivity.
Defined.

Lemma integrations_own name integration :
  Tools.integrations !! name = Some integration →
  (name, integration) ∈ Tools.integrationEntries.
Proof. apply elem_of_list_to_map_2. Qed.

(** X3.  The tools an integration advertises against the tools that
    exist.  Every integration of the table resolves to a bundle, and the
    bundle holds exactly the advertised tool names except
    [getGoogleAdsStats], which no tool carries as its name; the three tool
    objects share no key, so that spreading them into [getAllTools]
    overwrites nothing and keeps every tool, in the order of the three
    objects; and a name that is neither an integration nor a member of
    [Object.prototype] resolves to the empty bundle. *)
Theorem advertised_tools_resolve name integration :
  Tools.integrations !! name = Some integration →
  Tools.getToolsByIntegration name = Ok (bundle name)
  ∧ dom (bundle name)
    = list_to_set
        (filter (λ t, t ≠ "getGoogleAdsStats") (Tools.tools integration))
  ∧ NoDup ((Tools.googleAdsTools ++ Tools.shopifyTools
            ++ Tools.posthogTools).*1)
  ∧ Tools.getAllTools
    = Tools.googleAdsTools ++ Tools.shopifyTools ++ Tools.posthogTools
  ∧ ∀ other, Tools.integrations !! other = None →
             other ∉ Js.objectPrototype →
             Tools.getToolsByIntegration other = Ok ∅.
Proof.
  intros Hown. split_and!.
  - apply bundle_own. by eexists.
  - apply integrations_own in Hown.
    repeat (apply elem_of_cons in Hown as [[= -> ->]|Hown];
            [apply (bool_decide_unpack _); vm_compute; exact I|]).
    by apply elem_of_nil in Hown.
  - apply (bool_decide_unpack _). vm_compute. exact I.
  - vm_compute. reflexivity.
  - intros other Hnone Hproto.
    unfold Tools.getToolsByIntegration, Js.get. rewrite Hnone.
    by rewrite bool_decide_eq_false_2.
Qed.

Lemma advertised_tools_resolve_witness :
  dom (bundle "google-ads")
  = list_to_set
      [ "getGoogleAdsPaymentInfo"; "getGoogleAdsCampaigns";
        "getGoogleAdsKeywords"; "getGoogleAdsAudienceInsights";
        "getGoogleAdsCompetitorAnalysis" ].
Proof.
  destruct (advertised_tools_resolve "google-ads" _ eq_refl) as (_ & H & _).
  exact H.
Defined.

(** ** The integration registry (db/operations.ts, server.ts) *)

Lemma update_elsewhere {A} (P Q : A → Prop) `{∀ x, Decision (P x)}
    `{∀ x, Decision (Q x)} (set : A → A) (table : list A) :
  (∀ x, Q x → ¬ P x) → (∀ x, P x → ¬ Q (set x)) →
  filter Q (Sql.update P set table).2 = filter Q table.
Proof.
  intros Hdisj Hset. simpl. induction table as [|x l IH]; [done|].
  rewrite fmap_cons. destruct (decide (Q x)) as [Hq|Hq].
  - rewrite decide_False by by apply Hdisj.
    by rewrite !filter_cons_True, IH by done.
  - destruct (decide (P x)) as [Hp|Hp].
    + rewrite filter_cons_False by by apply Hset.
      by rewrite filter_cons_False, IH by done.
    + by rewrite !filter_cons_False, IH by done.
Qed.

Lemma onlyPair_update S X set w :
  (∀ c, ic_sessionId (set c) = ic_sessionId c
        ∧ ic_integrationName (set c) = ic_integrationName c) →
  onlyPair S X w (Sql.updateIntegrationConnections S X set w).2.
Proof.
  intros Hkeep. unfold onlyPair, Sql.updateIntegrationConnections, rowsFor.
  match goal with |- context [Sql.update ?P ?s ?t] =>
    assert (Hother : ∀ S' X', (S', X') ≠ (S, X) →
      filter (λ c, ic_sessionId c = S' ∧ ic_integrationName c = X')
        (Sql.update P s t).2
      = filter (λ c, ic_sessionId c = S' ∧ ic_integrationName c = X') t);
    [|destruct (Sql.update P s t) as [rows table]] end.
  { intros S' X' Hne. apply update_elsewhere.
    - intros c [<- <-] [<- <-]. done.
    - intros c [<- <-]. destruct (Hkeep c) as [-> ->]. intros [<- <-]. done. }
  simpl in *. split_and!; done.
Qed.

Lemma onlyPair_issue S X w : onlyPair S X w (World.issue w).
Proof. done. Qed.

Lemma onlyPair_trans S X w1 w2 w3 :
  onlyPair S X w1 w2 → onlyPair S X w2 w3 → onlyPair S X w1 w3.
Proof.
  intros (?&?&?&Ha) (?&?&?&Hb). split_and!; try congruence.
  intros S' X' Hne. by rewrite Hb, Ha.
Qed.

(** X4.  [connectIntegration] and [disconnectIntegration] touch the
    registry rows of their own (session, integration) pair only: whatever
    storage answers, the rows of every other pair and the other tables
    are as before. *)
Theorem registry_calls_touch_one_pair this S X md w :
  onlyPair S X w (DbOperations.connectIntegration this S X md w).2
  ∧ onlyPair S X w (DbOperations.disconnectIntegration this S X w).2.
Proof.
  split.
  - unfold DbOperations.connectIntegration.
    unfold DbOperations.getIntegrationConnection. rewrite run_bind.
    unfold statement at 1. destruct (World.nextFault w); [done|].
    unfold Sql.select. cbn [fst snd].
    destruct (head _); rewrite run_bind; cbn [newDate read].
    + unfold DbOperations.updateIntegrationConnection.
      rewrite run_bind. cbn [newDate read]. unfold statement.
      destruct (World.nextFault (World.issue w)); [done|].
      match goal with
      | |- context [Sql.updateIntegrationConnections S X ?s ?w0] =>
          pose proof (onlyPair_update S X s w0 (λ c, conj eq_refl eq_refl))
            as Hu;
          destruct (Sql.updateIntegrationConnections S X s w0)
      end.
      done.
    + unfold DbOperations.saveIntegrationConnection, statement.
      destruct (World.nextFault (World.issue w)); [done|].
      split_and!; try done. intros S' X' Hne. unfold rowsFor. cbn.
      rewrite filter_app, filter_cons_False, app_nil_r; [done|].
      cbn. intros [<- <-]. done.
  - unfold DbOperations.disconnectIntegration.
    rewrite run_bind. cbn [newDate read]. unfold statement.
    destruct (World.nextFault w); [done|].
    match goal with
    | |- context [Sql.updateIntegrationConnections S X ?s ?w0] =>
        pose proof (onlyPair_update S X s w0 (λ c, conj eq_refl eq_refl))
          as Hu;
        destruct (Sql.updateIntegrationConnections S X s w0)
    end.
    done.
Qed.

Lemma connect_fault_first this S X md w e :
  nthFault 0 w = Some e →
  DbOperations.connectIntegration this S X md w = (Throw e, World.issue w).
Proof.
  intros Hf. rewrite <- nextFault_nth in Hf.
  unfold DbOperations.connectIntegration,
    DbOperations.getIntegrationConnection.
  rewrite run_bind. by rewrite (statement_fault _ _ e) by done.
Qed.

Lemma connect_fault_second this S X md w e :
  nthFault 0 w = None → nthFault 1 w = Some e →
  DbOperations.connectIntegration this S X md w
  = (Throw e, World.issue (World.issue w)).
Proof.
  intros H0 H1. rewrite <- nextFault_nth in H0.
  assert (World.nextFault (World.issue w) = Some e) as Hn
    by (by rewrite nextFault_nth, nthFault_issue).
  unfold DbOperations.connectIntegration,
    DbOperations.getIntegrationConnection.
  rewrite !run_bind. rewrite statement_ok by done.
  unfold Sql.select. cbn [fst snd].
  destruct (head _); rewrite !run_bind; cbn [newDate read].
  - unfold DbOperations.updateIntegrationConnection.
    rewrite !run_bind. cbn [newDate read].
    by rewrite !(statement_fault _ _ e) by done.
  - unfold DbOperations.saveIntegrationConnection.
    by rewrite !(statement_fault _ _ e) by done.
Qed.

Lemma disconnect_fault this S X w e :
  nthFault 0 w = Some e →
  DbOperations.disconnectIntegration this S X w = (Throw e, World.issue w).
Proof.
  intros Hf. rewrite <- nextFault_nth in Hf.
  unfold DbOperations.disconnectIntegration.
  rewrite run_bind. cbn [newDate read].
  by rewrite (statement_fault _ _ e) by done.
Qed.

Lemma connect_accepted this S X md w :
  nthFault 0 w = None → nthFault 1 w = None →
  ∃ rows w',
    DbOperations.connectIntegration this S X md w = (Ok rows, w')
    ∧ World.statements w' = World.statements w + 2
    ∧ World.ended w' = World.ended w
    ∧ nthFault 0 w' = nthFault 2 w.
Proof.
  intros H0 H1. rewrite <- nextFault_nth in H0.
  assert (World.nextFault (World.issue w) = None) as Hn
    by (by rewrite nextFault_nth, nthFault_issue).
  assert (Hthird : nthFault 0 (World.issue (World.issue w)) = nthFault 2 w)
    by (by rewrite !nthFault_issue).
  unfold DbOperations.connectIntegration,
    DbOperations.getIntegrationConnection.
  rewrite run_bind, statement_ok by done.
  unfold Sql.select. cbn [fst snd].
  destruct (head _); rewrite run_bind; cbn [newDate read].
  - unfold DbOperations.updateIntegrationConnection.
    rewrite run_bind. cbn [newDate read].
    rewrite statement_ok by done.
    unfold Sql.updateIntegrationConnections.
    destruct (Sql.update _ _ _). eexists _, _. split; [reflexivity|].
    cbn. split_and!; [lia|done|done].
  - unfold DbOperations.saveIntegrationConnection.
    rewrite statement_ok by done. eexists _, _. split; [reflexivity|].
    cbn. split_and!; [lia|done|done].
Qed.

Lemma disconnect_accepted this S X w :
  nthFault 0 w = None →
  ∃ rows w',
    DbOperations.disconnectIntegration this S X w = (Ok rows, w')
    ∧ World.statements w' = World.statements w + 1
    ∧ World.ended w' = World.ended w
    ∧ nthFault 0 w' = nthFault 1 w.
Proof.
  intros H0. rewrite <- nextFault_nth in H0.
  assert (Hnext : nthFault 0 (World.issue w) = nthFault 1 w)
    by (by rewrite !nthFault_issue).
  unfold DbOperations.disconnectIntegration.
  rewrite run_bind. cbn [newDate read]. rewrite statement_ok by done.
  unfold Sql.updateIntegrationConnections.
  destruct (Sql.update _ _ _). eexists _, _. split; [reflexivity|].
  cbn. split_and!; [lia|done|done].
Qed.

(** X5.  A storage error inside a registry call is rethrown as it is, and
    the registry is as before: for [connectIntegration] an error of the
    lookup or of the write that follows it, for [disconnectIntegration]
    an error of its update. *)
Theorem registry_calls_rethrow this S X md w e :
  (nthFault 0 w = Some e
   ∨ (nthFault 0 w = None ∧ nthFault 1 w = Some e) →
     ∃ w', DbOperations.connectIntegration this S X md w = (Throw e, w')
           ∧ World.integrationConnections w'
             = World.integrationConnections w)
  ∧ (nthFault 0 w = Some e →
     ∃ w', DbOperations.disconnectIntegration this S X w = (Throw e, w')
           ∧ World.integrationConnections w'
             = World.integrationConnections w).
Proof.
  split.
  - intros [H0|[H0 H1]].
    + rewrite (connect_fault_first _ _ _ _ _ _ H0). by eexists.
    + rewrite (connect_fault_second _ _ _ _ _ _ H0 H1). by eexists.
  - intros H0. rewrite (disconnect_fault _ _ _ _ _ H0). by eexists.
Qed.

Lemma registry_calls_rethrow_witness :
  ∃ w',
    DbOperations.connectIntegration Sample.dbOps "session-1" "shopify" None
      Sample.failing = (Throw Sample.uniqueViolation, w')
    ∧ World.integrationConnections w'
      = World.integrationConnections Sample.failing.
Proof.
  apply (proj1 (registry_calls_rethrow Sample.dbOps "session-1" "shopify"
                  None Sample.failing Sample.uniqueViolation)).
  left. reflexivity.
Defined.

(** X6.  The agent's own [connectIntegration] and [disconnectIntegration]
    never throw.  They answer [true] exactly when the agent has its
    registry handle and session id and storage accepts the statements of
    the call (two for a connect, one for a disconnect); when they answer
    [false] the registry is as before. *)
Theorem agent_registry_methods k this name w :
  (∃ b w', AgentRest.connectIntegration k this name w = (Ok b, w')
     ∧ (b = true ↔ is_Some (Agent.storage this)
                    ∧ nthFault 0 w = None ∧ nthFault 1 w = None)
     ∧ (b = false →
        World.integrationConnections w' = World.integrationConnections w))
  ∧ (∃ b w', AgentRest.disconnectIntegration k this name w = (Ok b, w')
       ∧ (b = true ↔ is_Some (Agent.storage this) ∧ nthFault 0 w = None)
       ∧ (b = false →
          World.integrationConnections w' = World.integrationConnections w)).
Proof.
  split.
  - unfold AgentRest.connectIntegration.
    destruct (Agent.storage this) as [ops|].
    2:{ exists false, w. split; [done|]. split; [|done].
        split; [done|]. by intros [[? [=]] _]. }
    unfold try_catch. rewrite run_bind. cbn [newDate read]. rewrite run_bind.
    destruct (nthFault 0 w) as [e|] eqn:H0.
    { rewrite (connect_fault_first _ _ _ _ _ _ H0).
      eexists false, _. split; [reflexivity|]. split; [|done].
      split; [done|]. by intros (_ & [=] & _). }
    destruct (nthFault 1 w) as [e|] eqn:H1.
    { rewrite (connect_fault_second _ _ _ _ _ _ H0 H1).
      eexists false, _. split; [reflexivity|]. split; [|done].
      split; [done|]. by intros (_ & _ & [=]). }
    destruct (connect_accepted ops (Agent.sessionId this) name
                (Some (Js.JObj
                   [ Js.field "connectedAt" (Js.JDate (World.now w));
                     Js.field "source" (Js.JStr "agent");
                     Js.field "agentType" (Js.JStr (Agent.agentType k)) ]))
                w H0 H1)
      as (rows & w' & -> & _).
    eexists true, _. split; [reflexivity|]. split; [|done].
    split; [|done]. intros _. split; [by eexists|done].
  - unfold AgentRest.disconnectIntegration.
    destruct (Agent.storage this) as [ops|].
    2:{ exists false, w. split; [done|]. split; [|done].
        split; [done|]. by intros [[? [=]] _]. }
    unfold try_catch. rewrite run_bind.
    destruct (nthFault 0 w) as [e|] eqn:H0.
    { rewrite (disconnect_fault _ _ _ _ _ H0).
      eexists false, _. split; [reflexivity|]. split; [|done].
      split; [done|]. by intros (_ & [=]). }
    destruct (disconnect_accepted ops (Agent.sessionId this) name w H0)
      as (rows & w' & -> & _).
    eexists true, _. split; [reflexivity|]. split; [|done].
    split; [|done]. intros _. split; [by eexists|done].
Qed.

Lemma agent_registry_methods_witness :
  ∃ w',
    AgentRest.connectIntegration Agent.CampaignAgent
      (Sample.agent Agent.CampaignAgent []) "shopify" Sample.world
    = (Ok true, w').
Proof.
  destruct (agent_registry_methods Agent.CampaignAgent
              (Sample.agent Agent.CampaignAgent []) "shopify" Sample.world)
    as [(b & w' & E & Hiff & _) _].
  exists w'. rewrite E. f_equal. f_equal. apply Hiff.
  split; [by eexists|]. split; reflexivity.
Defined.

Lemma reportsConnected_rowsFor S X w :
  reportsConnected S X w
  ↔ Exists (λ c, ic_status c = "connected") (rowsFor S X w).
Proof.
  unfold reportsConnected, rowsFor. rewrite !Exists_exists. split.
  - intros (c & Hin & Hs & Hx & Hc). exists c. split; [|done].
    by apply list_elem_of_filter.
  - intros (c & Hin & Hc). apply list_elem_of_filter in Hin as [[Hs Hx] Hin].
    by exists c.
Qed.

Lemma disconnect_healthy this S X w :
  healthy w → healthy (DbOperations.disconnectIntegration this S X w).2.
Proof.
  intros Hh. unfold DbOperations.disconnectIntegration.
  rewrite run_bind. cbn [newDate read].
  rewrite statement_ok by by apply healthy_next.
  unfold Sql.updateIntegrationConnections.
  destruct (Sql.update _ _ _). cbn. by apply healthy_issue.
Qed.

Lemma connect_reports this S X md w :
  healthy w →
  reportsConnected S X (DbOperations.connectIntegration this S X md w).2
  ∧ healthy (DbOperations.connectIntegration this S X md w).2.
Proof.
  intros Hh. rewrite reportsConnected_rowsFor.
  destruct (rowsFor S X w) as [|row rest] eqn:Hrows.
  - destruct (connect_fresh this S X md w Hh Hrows)
      as (r & w' & E & _ & Hr & Hs & _ & _ & Hh').
    rewrite E. cbn [snd]. rewrite Hr.
    split; [|done]. by constructor.
  - destruct (connect_existing this S X md w row rest Hh Hrows)
      as (rows & w' & E & Hr & Hlen & _ & Hall & _ & Hh' & _).
    rewrite E. cbn [snd]. rewrite Hr.
    split; [|done]. destruct rows as [|r rows]; [done|].
    inversion Hall as [|?? [Hs _] _]. by constructor.
Qed.

Lemma disconnect_reports this S X w :
  healthy w →
  ¬ reportsConnected S X (DbOperations.disconnectIntegration this S X w).2.
Proof.
  intros Hh. rewrite reportsConnected_rowsFor.
  destruct (disconnectIntegration_spec this S X w (healthy_next w Hh))
    as (rows & w' & E & Hr & _ & Hall & _).
  rewrite E. cbn [snd]. rewrite <- Hr.
  intros Hex. apply Exists_exists in Hex as (c & Hin & Hc).
  rewrite Forall_forall in Hall. specialize (Hall c Hin). congruence.
Qed.

Lemma afterCalls_healthy this S X cs w :
  healthy w → healthy (afterCalls this S X cs w).
Proof.
  revert w. induction cs as [|c cs IH]; intros w Hh; [done|].
  cbn. apply IH. destruct c; cbn.
  - by apply connect_reports.
  - by apply disconnect_healthy.
Qed.

Lemma afterCalls_app this S X cs cs' w :
  afterCalls this S X (cs ++ cs') w
  = afterCalls this S X cs' (afterCalls this S X cs w).
Proof. revert w. induction cs as [|c cs IH]; intros w; [done|]. cbn. apply IH. Qed.

(** X7.  On healthy storage the registry reports a (session, integration)
    pair connected exactly when the last call made for the pair was a
    connect, whatever calls came before it and whatever the registry
    held at the start. *)
Theorem status_follows_last_call this S X cs c w :
  healthy w →
  reportsConnected S X (afterCalls this S X (cs ++ [c]) w)
  ↔ ∃ metadata, c = Connect metadata.
Proof.
  intros Hh. rewrite afterCalls_app. cbn.
  pose proof (afterCalls_healthy this S X cs w Hh) as Hh'.
  destruct c as [md|]; cbn.
  - split; [by eexists|]. intros _. by apply connect_reports.
  - split; [|by intros [? [=]]]. intros H.
    by apply disconnect_reports in H.
Qed.

Lemma status_follows_last_call_witness :
  reportsConnected "session-1" "shopify"
    (afterCalls Sample.dbOps "session-1" "shopify"
       [Disconnect; Connect None] Sample.world).
Proof.
  apply (status_follows_last_call Sample.dbOps "session-1" "shopify"
           [Disconnect] (Connect None) Sample.world).
  - apply Forall_nil_2.
  - by exists None.
Defined.


(** ** The worker's routes (server.ts) *)

Lemma connect_accepted_reports this S X md w :
  nthFault 0 w = None → nthFault 1 w = None →
  reportsConnected S X (DbOperations.connectIntegration this S X md w).2.
Proof.
  intros H0 H1. rewrite <- nextFault_nth in H0.
  assert (World.nextFault (World.issue w) = None) as Hn
    by (by rewrite nextFault_nth, nthFault_issue).
  rewrite reportsConnected_rowsFor.
  unfold DbOperations.connectIntegration,
    DbOperations.getIntegrationConnection.
  rewrite run_bind, statement_ok by done.
  unfold Sql.select. cbn [fst snd].
  destruct (head _) as [existing|] eqn:Hhead; rewrite run_bind;
    cbn [newDate read].
  - unfold DbOperations.updateIntegrationConnection.
    rewrite run_bind. cbn [newDate read].
    rewrite statement_ok by done.
    match goal with
    | |- context [Sql.updateIntegrationConnections S X ?s ?w0] =>
        destruct (updateIntegrationConnections_spec S X s w0
                    (λ c, conj eq_refl eq_refl)) as (_ & Hr & _)
    end.
    cbn [snd]. cbn zeta in Hr. rewrite Hr.
    change (rowsFor S X (World.issue (World.issue w))) with (rowsFor S X w).
    change (filter _ (World.integrationConnections (World.issue w)))
      with (rowsFor S X w) in Hhead.
    destruct (rowsFor S X w) as [|row rest]; [done|].
    rewrite fmap_cons. by constructor.
  - unfold DbOperations.saveIntegrationConnection.
    rewrite statement_ok by done.
    unfold Sql.insertIntegrationConnection, rowsFor. cbn.
    rewrite filter_app, filter_cons_True by done.
    apply Exists_app. right. by constructor.
Qed.

Lemma operations_eq env :
  Worker.operations env
  = ({| DbOperations.db :=
          DbOperations.drizzle
            (DbOperations.postgres (Worker.HYPERDRIVE_connectionString env)) |},
     {| DatabaseManager.db :=
          Some (DbOperations.drizzle
                  (DbOperations.postgres
                     (Worker.HYPERDRIVE_connectionString env)));
        DatabaseManager.conn :=
          Some (DbOperations.postgres
                  (Worker.HYPERDRIVE_connectionString env));
        DatabaseManager.connectionString :=
          Worker.HYPERDRIVE_connectionString env |}).
Proof. reflexivity. Qed.

(** X8.  The worker's [fetch] answers every request: given what the
    agent router returns, and whatever the request, the environment and
    storage do, a response is returned and no error of the integrations
    API is thrown to the runtime. *)
Theorem fetch_always_answers request env routed w :
  ∃ response w', Worker.fetch request env routed w = (Ok response, w').
Proof.
  unfold Worker.fetch.
  destruct (decide _); [by eexists _, _|].
  destruct (decide _); [by eexists _, _|].
  destruct (String.prefix _ _); [|by eexists _, _].
  rewrite run_bind. unfold try_catch.
  match goal with |- context [match ?b w with _ => _ end] =>
    destruct (b w) as [[[response|]|e] w'] end; by eexists _, _.
Qed.

Lemma close_keeps_registry manager w :
  World.integrationConnections (DatabaseManager.close manager w).2
  = World.integrationConnections w.
Proof.
  unfold DatabaseManager.close. destruct (DatabaseManager.conn manager); [|done].
  rewrite run_bind. unfold try_catch. rewrite run_bind.
  unfold DatabaseManager.conn_end. by destruct (World.nextFault w).
Qed.

Lemma close_sameTables manager w :
  sameTables w (DatabaseManager.close manager w).2.
Proof.
  unfold DatabaseManager.close. destruct (DatabaseManager.conn manager); [|done].
  rewrite run_bind. unfold try_catch. rewrite run_bind.
  unfold DatabaseManager.conn_end. by destruct (World.nextFault w).
Qed.

Lemma sessionOf_given request sid :
  sessionOf request = Some sid →
  Worker.given
    (Worker.orElse (Worker.searchSessionId request)
       (Worker.headerSessionId request)) = Some sid.
Proof. done. Qed.

Section api_call.
Variables (request : Worker.Request) (env : Worker.Env)
  (routed : option Worker.Response) (name sid : string).
Hypothesis Hprefix :
  String.prefix "/api/integrations/" (Worker.pathname request) = true.
Hypothesis Hname : Worker.popSplit (Worker.pathname request) = name.
Hypothesis Hpass : passesNameCheck name.
Hypothesis Hsid : sessionOf request = Some sid.

Lemma fetch_post w :
  Worker.method request = "POST" →
  Worker.fetch request env routed w
  = match DbOperations.connectIntegration (Worker.operations env).1 sid name
            (Some (Js.JObj
               [ Js.field "connectedAt" (Js.JDate (World.now w));
                 Js.field "source" (Js.JStr "api") ])) w with
    | (Ok _, w1) =>
        (Ok {| Worker.status := 200;
               Worker.body :=
                 Worker.Success name "connected"
                   ("Successfully connected to " +:+ name) |},
         (DatabaseManager.close (Worker.operations env).2 w1).2)
    | (Throw error, w1) =>
        (Ok {| Worker.status := 500;
               Worker.body :=
                 Worker.Failure "Failed to connect integration"
                   (Some (if Js.instanceofError error then Js.message error
                          else "Unknown error")) |},
         World.print World.Err "Failed to connect integration:" w1)
    end.
Proof.
  intros Hmethod. destruct Hpass as [Hne Htruthy].
  apply sessionOf_given in Hsid.
  destruct request as [method pathname search header]. simpl in *.
  destruct (prefix_split _ _ Hprefix) as [rest Hp].
  unfold Worker.fetch. cbn [Worker.method Worker.pathname
    Worker.searchSessionId Worker.headerSessionId].
  rewrite (decide_False (P := method = "OPTIONS")) by (by rewrite Hmethod).
  rewrite (decide_False (P := pathname = "/check-open-ai-key"))
    by (by rewrite Hp).
  assert (String.prefix "/api/integrations" pathname = true) as ->
    by (by rewrite Hp).
  rewrite Hprefix, Hname, Hsid, Htruthy. rewrite run_bind. unfold try_catch.
  rewrite (bool_decide_eq_false_2 (pathname = "/api/integrations"))
    by (by rewrite Hp).
  rewrite (bool_decide_eq_false_2 (name = "")) by done.
  rewrite (bool_decide_eq_true_2 (method = "POST")) by done.
  cbn [andb orb negb]. rewrite operations_eq. cbn [fst snd].
  rewrite !run_bind. cbn [newDate read]. rewrite run_bind.
  destruct (DbOperations.connectIntegration _ _ _ _ w) as [[rows|e] w1];
    [|reflexivity].
  rewrite run_bind.
  match goal with |- context [DatabaseManager.close ?m w1] =>
    destruct (close_releases m _ w1 eq_refl) as (w2 & -> & _) end.
  reflexivity.
Qed.

Lemma fetch_delete w :
  Worker.method request = "DELETE" →
  Worker.fetch request env routed w
  = match DbOperations.disconnectIntegration (Worker.operations env).1 sid
            name w with
    | (Ok _, w1) =>
        (Ok {| Worker.status := 200;
               Worker.body :=
                 Worker.Success name "disconnected"
                   ("Successfully disconnected from " +:+ name) |},
         (DatabaseManager.close (Worker.operations env).2 w1).2)
    | (Throw error, w1) =>
        (Ok {| Worker.status := 500;
               Worker.body :=
                 Worker.Failure "Failed to disconnect integration"
                   (Some (if Js.instanceofError error then Js.message error
                          else "Unknown error")) |},
         World.print World.Err "Failed to disconnect integration:" w1)
    end.
Proof.
  intros Hmethod. destruct Hpass as [Hne Htruthy].
  apply sessionOf_given in Hsid.
  destruct request as [method pathname search header]. simpl in *.
  destruct (prefix_split _ _ Hprefix) as [rest Hp].
  unfold Worker.fetch. cbn [Worker.method Worker.pathname
    Worker.searchSessionId Worker.headerSessionId].
  rewrite (decide_False (P := method = "OPTIONS")) by (by rewrite Hmethod).
  rewrite (decide_False (P := pathname = "/check-open-ai-key"))
    by (by rewrite Hp).
  assert (String.prefix "/api/integrations" pathname = true) as ->
    by (by rewrite Hp).
  rewrite Hprefix, Hname, Hsid, Htruthy. rewrite run_bind. unfold try_catch.
  rewrite (bool_decide_eq_false_2 (pathname = "/api/integrations"))
    by (by rewrite Hp).
  rewrite (bool_decide_eq_false_2 (name = "")) by done.
  rewrite (bool_decide_eq_false_2 (method = "POST")) by (by rewrite Hmethod).
  rewrite (bool_decide_eq_true_2 (method = "DELETE")) by done.
  cbn [andb orb negb]. rewrite operations_eq. cbn [fst snd].
  rewrite !run_bind.
  destruct (DbOperations.disconnectIntegration _ _ _ w) as [[rows|e] w1];
    [|reflexivity].
  rewrite run_bind.
  match goal with |- context [DatabaseManager.close ?m w1] =>
    destruct (close_releases m _ w1 eq_refl) as (w2 & -> & _) end.
  reflexivity.
Qed.

End api_call.

Lemma disconnect_accepted_reports this S X w :
  nthFault 0 w = None →
  ¬ reportsConnected S X (DbOperations.disconnectIntegration this S X w).2.
Proof.
  intros H0. rewrite <- nextFault_nth in H0. rewrite reportsConnected_rowsFor.
  destruct (disconnectIntegration_spec this S X w H0)
    as (rows & w' & E & Hr & _ & Hall & _).
  rewrite E. cbn [snd]. rewrite <- Hr.
  intros Hex. apply Exists_exists in Hex as (c & Hin & Hc).
  rewrite Forall_forall in Hall. specialize (Hall c Hin). congruence.
Qed.

Lemma reportsConnected_same w w' S X :
  World.integrationConnections w' = World.integrationConnections w →
  reportsConnected S X w' ↔ reportsConnected S X w.
Proof. unfold reportsConnected. by intros ->. Qed.

Lemma close_ends manager c w :
  DatabaseManager.conn manager = Some c →
  World.ended (DatabaseManager.close manager w).2 = S (World.ended w).
Proof.
  intros Hc. destruct (close_releases manager c w Hc) as (w' & -> & He & _).
  done.
Qed.

(** X9.  POST and DELETE on [/api/integrations/<name>] with a session id
    and a name that passes the name check: the answer is 200 exactly when
    storage accepts the statements of the call, and then the registry
    reports the new status and the connection opened for the request is
    ended; otherwise the answer is 500, the registry is as before and
    the connection is never ended. *)
Theorem api_call_outcome request env routed name sid w :
  String.prefix "/api/integrations/" (Worker.pathname request) = true →
  Worker.popSplit (Worker.pathname request) = name →
  passesNameCheck name →
  sessionOf request = Some sid →
  (Worker.method request = "POST" →
   ∃ response w',
     Worker.fetch request env routed w = (Ok response, w')
     ∧ (Worker.status response = 200 ∨ Worker.status response = 500)
     ∧ (Worker.status response = 200
        ↔ nthFault 0 w = None ∧ nthFault 1 w = None)
     ∧ (Worker.status response = 200 →
        reportsConnected sid name w' ∧ World.ended w' = S (World.ended w))
     ∧ (Worker.status response = 500 →
        World.integrationConnections w' = World.integrationConnections w
        ∧ World.ended w' = World.ended w))
  ∧ (Worker.method request = "DELETE" →
     ∃ response w',
       Worker.fetch request env routed w = (Ok response, w')
       ∧ (Worker.status response = 200 ∨ Worker.status response = 500)
       ∧ (Worker.status response = 200 ↔ nthFault 0 w = None)
       ∧ (Worker.status response = 200 →
          ¬ reportsConnected sid name w'
          ∧ World.ended w' = S (World.ended w))
       ∧ (Worker.status response = 500 →
          World.integrationConnections w' = World.integrationConnections w
          ∧ World.ended w' = World.ended w)).
Proof.
  intros Hprefix Hname Hpass Hsid. split; intros Hmethod.
  - rewrite (fetch_post _ env routed name sid Hprefix Hname Hpass Hsid w
               Hmethod).
    rewrite operations_eq. cbn [fst snd].
    match goal with
    | |- context [DbOperations.connectIntegration ?o sid name ?md w] =>
        set (ops := o); set (metadata := md)
    end.
    destruct (nthFault 0 w) as [e|] eqn:H0.
    { rewrite (connect_fault_first ops sid name metadata w e H0).
      eexists _, _. split; [reflexivity|]. cbn.
      split_and!; [by right| |done|done]. split; [done|]. by intros [[=] _]. }
    destruct (nthFault 1 w) as [e|] eqn:H1.
    { rewrite (connect_fault_second ops sid name metadata w e H0 H1).
      eexists _, _. split; [reflexivity|]. cbn.
      split_and!; [by right| |done|done]. split; [done|]. by intros [_ [=]]. }
    pose proof (connect_accepted_reports ops sid name metadata w H0 H1)
      as Hrep.
    destruct (connect_accepted ops sid name metadata w H0 H1)
      as (rows & w1 & E & _ & Hended & _).
    rewrite E in Hrep |- *. cbn [snd] in Hrep.
    eexists _, _. split; [reflexivity|]. cbn [Worker.status].
    split_and!; [by left|done| |done]. intros _. split.
    + by rewrite (reportsConnected_same w1) by apply close_keeps_registry.
    + erewrite close_ends by reflexivity. by rewrite Hended.
  - rewrite (fetch_delete _ env routed name sid Hprefix Hname Hpass Hsid w
               Hmethod).
    rewrite operations_eq. cbn [fst snd].
    match goal with
    | |- context [DbOperations.disconnectIntegration ?o sid name w] =>
        set (ops := o)
    end.
    destruct (nthFault 0 w) as [e|] eqn:H0.
    { rewrite (disconnect_fault ops sid name w e H0).
      eexists _, _. split; [reflexivity|]. cbn.
      split_and!; [by right|done|done|done]. }
    pose proof (disconnect_accepted_reports ops sid name w H0) as Hrep.
    destruct (disconnect_accepted ops sid name w H0)
      as (rows & w1 & E & _ & Hended & _).
    rewrite E in Hrep |- *. cbn [snd] in Hrep.
    eexists _, _. split; [reflexivity|]. cbn [Worker.status].
    split_and!; [by left|done| |done]. intros _. split.
    + by rewrite (reportsConnected_same w1) by apply close_keeps_registry.
    + erewrite close_ends by reflexivity. by rewrite Hended.
Qed.

Lemma api_call_outcome_witness :
  ∃ response w',
    Worker.fetch (Scenario.call "POST" "shopify") Scenario.env None
      Sample.world = (Ok response, w')
    ∧ Worker.status response = 200
    ∧ reportsConnected "campaign-agent-persistent" "shopify" w'.
Proof.
  destruct (api_call_outcome (Scenario.call "POST" "shopify") Scenario.env
              None "shopify" "campaign-agent-persistent" Sample.world)
    as [Hpost _].
  - reflexivity.
  - reflexivity.
  - split; [done|reflexivity].
  - reflexivity.
  - destruct (Hpost eq_refl) as (response & w' & E & _ & Hiff & Hok & _).
    exists response, w'. split; [exact E|].
    assert (Worker.status response = 200) as H200
      by (apply Hiff; split; reflexivity).
    split; [exact H200|]. exact (proj1 (Hok H200)).
Defined.

Lemma listEntries_eq w :
  Worker.mapM Worker.listEntry Tools.integrationEntries w
  = (Ok (defaultEntry (World.now w) <$> Tools.integrationEntries), w).
Proof. reflexivity. Qed.

Lemma connectedSet_reports sid name w :
  Exists (λ conn, ic_status conn = "connected" ∧ ic_integrationName conn = name)
    (Sql.orderByDesc ic_createdAt
       (filter (λ c, ic_sessionId c = sid) (World.integrationConnections w)))
  ↔ reportsConnected sid name w.
Proof.
  unfold reportsConnected. rewrite !Exists_exists. split.
  - intros (c & Hin & Hs & Hn). rewrite orderByDesc_perm in Hin.
    apply list_elem_of_filter in Hin as [Hsid Hin]. by exists c.
  - intros (c & Hin & Hsid & Hn & Hs). exists c. split; [|done].
    rewrite orderByDesc_perm. by apply list_elem_of_filter.
Qed.

(** X10.  [GET /api/integrations] always answers 200 with one entry per
    integration, in the order of the source, and changes no table.  With
    a session id and storage answering, an entry is marked connected
    exactly when the registry reports it for that session, and the
    connection opened for the request is ended.  Without a session id,
    or when the registry query fails, every entry is marked connected
    and no connection is ended. *)
Theorem listing_outcome request env routed w :
  Worker.method request = "GET" →
  Worker.pathname request = "/api/integrations" →
  ∃ entries w',
    Worker.fetch request env routed w
    = (Ok {| Worker.status := 200; Worker.body := Worker.Listing entries |},
       w')
    ∧ Worker.listed_id <$> entries = ["google-ads"; "shopify"; "posthog"]
    ∧ sameTables w w'
    ∧ match sessionOf request, nthFault 0 w with
      | Some sid, None =>
          (∀ entry, entry ∈ entries →
             Worker.listed_connected entry = true
             ↔ reportsConnected sid (Worker.listed_id entry) w)
          ∧ World.ended w' = S (World.ended w)
      | _, _ =>
          (∀ entry, entry ∈ entries → Worker.listed_connected entry = true)
          ∧ World.ended w' = World.ended w
      end.
Proof.
  intros Hmethod Hpath. unfold sessionOf.
  destruct request as [method pathname search header]. simpl in *.
  subst method pathname. unfold Worker.fetch.
  cbn [Worker.method Worker.pathname Worker.searchSessionId
       Worker.headerSessionId].
  rewrite (decide_False (P := "GET" = "OPTIONS")) by done.
  rewrite (decide_False (P := "/api/integrations" = "/check-open-ai-key"))
    by done.
  change (String.prefix "/api/integrations" "/api/integrations") with true.
  cbn match. rewrite run_bind. unfold try_catch.
  rewrite !bool_decide_eq_true_2 by done. cbn [andb].
  rewrite run_bind, listEntries_eq.
  destruct (Worker.given _) as [sid|].
  2:{ eexists _, _. split; [reflexivity|]. split; [done|]. split; [done|].
      split; [|done]. intros entry Hin.
      apply list_elem_of_fmap in Hin as (e & -> & _). done. }
  rewrite run_bind. unfold try_catch. rewrite operations_eq.
  rewrite run_bind. unfold DbOperations.getSessionIntegrations.
  destruct (nthFault 0 w) as [e|] eqn:H0; rewrite <- nextFault_nth in H0.
  { rewrite (statement_fault _ _ e) by done.
    eexists _, _. split; [reflexivity|]. split; [done|]. split; [done|].
    split; [|done]. intros entry Hin.
    apply list_elem_of_fmap in Hin as (x & -> & _). done. }
  rewrite statement_ok by done. unfold Sql.select. cbn [fst snd].
  rewrite run_bind.
  match goal with |- context [DatabaseManager.close ?m ?w1] =>
    destruct (close_releases m _ w1 eq_refl) as (w2 & E & Hended & _);
    pose proof (close_sameTables m w1) as Htab;
    rewrite E in Htab |- * end.
  cbn [snd] in Htab.
  eexists _, _. split; [reflexivity|]. split; [done|]. split.
  { eapply sameTables_trans; [|apply Htab]. done. }
  split; [|done]. intros entry Hin.
  apply list_elem_of_fmap in Hin as (x & -> & Hin).
  cbn [Worker.listed_connected Worker.listed_id].
  rewrite bool_decide_eq_true. exact (connectedSet_reports sid _ w).
Qed.

Lemma listing_outcome_witness :
  ∃ entries w',
    Worker.fetch Scenario.listing Scenario.env None Sample.registry
    = (Ok {| Worker.status := 200; Worker.body := Worker.Listing entries |},
       w')
    ∧ Worker.listed_id <$> entries = ["google-ads"; "shopify"; "posthog"]
    ∧ World.ended w' = 1.
Proof.
  destruct (listing_outcome Scenario.listing Scenario.env None
              Sample.registry eq_refl eq_refl)
    as (entries & w' & E & Hids & _ & _ & Hended).
  exists entries, w'. split; [exact E|]. split; [exact Hids|exact Hended].
Defined.

Lemma healthy_nth w i : healthy w → nthFault i w = None.
Proof.
  unfold healthy, nthFault. intros Hh.
  destruct (World.faults w !! i) as [f|] eqn:Hf; [|done].
  by apply (Forall_lookup_1 _ _ _ _ Hh) in Hf as ->.
Qed.

Lemma healthy_issueEnd w : healthy w → healthy (World.issueEnd w).
Proof.
  unfold healthy. cbn. intros Hh. destruct (World.faults w); [done|].
  by inversion Hh.
Qed.

Lemma close_healthy manager w :
  healthy w → healthy (DatabaseManager.close manager w).2.
Proof.
  intros Hh. unfold DatabaseManager.close.
  destruct (DatabaseManager.conn manager); [|done].
  rewrite run_bind. unfold try_catch. rewrite run_bind.
  unfold DatabaseManager.conn_end. rewrite (healthy_next w Hh).
  cbn. by apply healthy_issueEnd.
Qed.

(** X11.  The panel of the frontend talks to the API under the session id
    that the campaign agent uses for itself.  So, on healthy storage,
    after the panel's POST for one of the agent's candidate integrations
    the agent's next tool resolution includes that bundle, and after the
    panel's DELETE it does not. *)
Theorem panel_switches_agent_tools request env routed candidates name i this
    ops w :
  String.prefix "/api/integrations/" (Worker.pathname request) = true →
  Worker.popSplit (Worker.pathname request) = name →
  Tools.agentToolMappings !! Agent.agentType Agent.CampaignAgent
  = Some candidates →
  candidates !! i = Some name →
  sessionOf request
  = Some (SessionManager.getAgentSessionId
            (Agent.agentType Agent.CampaignAgent)) →
  Agent.sessionId this = Agent.persistentSessionId Agent.CampaignAgent →
  Agent.dbOps this = Some ops →
  healthy w →
  ∃ tools w',
    Tools.getToolsForAgent (Agent.agentType Agent.CampaignAgent)
      (Some (Agent.sessionId this)) (Agent.dbOps this)
      (Worker.fetch request env routed w).2 = (Ok tools, w')
    ∧ (Worker.method request = "POST" → bundle name ⊆ tools)
    ∧ (Worker.method request = "DELETE" → ¬ bundle name ⊆ tools).
Proof.
  intros Hprefix Hname Hrole Hi Hsid Hthis Hops Hh.
  assert (candidates = ["google-ads"; "shopify"; "posthog"]) as ->
    by (by apply agentToolMappings_own in Hrole as [[[=] _]|[_ ->]]).
  assert (Hpass : passesNameCheck name).
  { clear -Hi. destruct i as [|[|[|i]]]; [..|done];
      injection Hi as <-; (split; [done|vm_compute; reflexivity]). }
  rewrite Hthis, Hops.
  change (Agent.persistentSessionId Agent.CampaignAgent)
    with "campaign-agent-persistent".
  change (SessionManager.getAgentSessionId
            (Agent.agentType Agent.CampaignAgent))
    with "campaign-agent-persistent" in Hsid.
  change (Agent.agentType Agent.CampaignAgent) with "campaign-agent".
  set (w1 := (Worker.fetch request env routed w).2).
  assert (Hh1 : Worker.method request = "POST"
                ∨ Worker.method request = "DELETE" → healthy w1).
  { intros [Hm|Hm]; subst w1.
    - rewrite (fetch_post _ env routed name _ Hprefix Hname Hpass Hsid w Hm).
      match goal with
      | |- context [DbOperations.connectIntegration ?o ?s ?n ?md w] =>
          destruct (connect_reports o s n md w Hh) as [_ Hh'];
          destruct (connect_accepted o s n md w (healthy_nth w 0 Hh)
                      (healthy_nth w 1 Hh)) as (rows & w2 & E & _);
          rewrite E in Hh' |- *
      end.
      cbn [snd] in *. by apply close_healthy.
    - rewrite (fetch_delete _ env routed name _ Hprefix Hname Hpass Hsid w
                 Hm).
      match goal with
      | |- context [DbOperations.disconnectIntegration ?o ?s ?n w] =>
          pose proof (disconnect_healthy o s n w Hh) as Hh';
          destruct (disconnect_accepted o s n w (healthy_nth w 0 Hh))
            as (rows & w2 & E & _);
          rewrite E in Hh' |- *
      end.
      cbn [snd] in *. by apply close_healthy. }
  assert (Hrep : (Worker.method request = "POST" →
                  reportsConnected "campaign-agent-persistent" name w1)
                 ∧ (Worker.method request = "DELETE" →
                    ¬ reportsConnected "campaign-agent-persistent" name w1)).
  { split; intros Hm; subst w1.
    - rewrite (fetch_post _ env routed name _ Hprefix Hname Hpass Hsid w Hm).
      match goal with
      | |- context [DbOperations.connectIntegration ?o ?s ?n ?md w] =>
          pose proof (connect_accepted_reports o s n md w
                        (healthy_nth w 0 Hh) (healthy_nth w 1 Hh)) as Hr;
          destruct (connect_accepted o s n md w (healthy_nth w 0 Hh)
                      (healthy_nth w 1 Hh)) as (rows & w2 & E & _);
          rewrite E in Hr |- *
      end.
      cbn [snd] in *.
      by rewrite (reportsConnected_same w2) by apply close_keeps_registry.
    - rewrite (fetch_delete _ env routed name _ Hprefix Hname Hpass Hsid w
                 Hm).
      match goal with
      | |- context [DbOperations.disconnectIntegration ?o ?s ?n w] =>
          pose proof (disconnect_accepted_reports o s n w
                        (healthy_nth w 0 Hh)) as Hr;
          destruct (disconnect_accepted o s n w (healthy_nth w 0 Hh))
            as (rows & w2 & E & _);
          rewrite E in Hr |- *
      end.
      cbn [snd] in *.
      by rewrite (reportsConnected_same w2) by apply close_keeps_registry. }
  destruct Hrep as [Hpost Hdelete].
  destruct (getToolsForAgent_resolved "campaign-agent"
              ["google-ads"; "shopify"; "posthog"]
              (Some "campaign-agent-persistent") (Some ops) w1 eq_refl)
    as [w' E].
  eexists _, _. split; [exact E|].
  assert (Hiff : Worker.method request = "POST"
                 ∨ Worker.method request = "DELETE" →
    bundle name
    ⊆ resolved (Some "campaign-agent-persistent") (Some ops) w1 0
        ["google-ads"; "shopify"; "posthog"] ∅
    ↔ reportsConnected "campaign-agent-persistent" name w1).
  { intros Hm.
    rewrite (resolved_includes _ _ w1 _ i name) by auto.
    unfold verdict, Tools.sessionContext.
    rewrite decide_False by done. rewrite (healthy_nth w1 i (Hh1 Hm)).
    apply bool_decide_eq_true. }
  split; intros Hm.
  - apply Hiff; auto.
  - rewrite Hiff by auto. auto.
Qed.

Lemma panel_switches_agent_tools_witness :
  ∃ tools w',
    Tools.getToolsForAgent "campaign-agent"
      (Some "campaign-agent-persistent") (Some Sample.dbOps)
      (Worker.fetch (Scenario.call "POST" "shopify") Scenario.env None
         Sample.world).2 = (Ok tools, w')
    ∧ bundle "shopify" ⊆ tools.
Proof.
  destruct (panel_switches_agent_tools (Scenario.call "POST" "shopify")
              Scenario.env None ["google-ads"; "shopify"; "posthog"]
              "shopify" 1 (Sample.agent Agent.CampaignAgent []) Sample.dbOps
              Sample.world)
    as (tools & w' & E & Hpost & _).
  - reflexivity.
  - reflexivity.
  - reflexivity.
  - reflexivity.
  - reflexivity.
  - reflexivity.
  - reflexivity.
  - apply Forall_nil_2.
  - exists tools, w'. split; [exact E|]. by apply Hpost.
Defined.

(** X12.  What the worker answers without looking at storage.  The
    preflight request and the key check are answered at once; a POST or
    DELETE on [/api/integrations/<name>] is checked for its name first
    (404) and for its session id second (400); and a request that matches
    no route of the integrations API, such as a GET for one integration
    or a POST without a name segment, goes to the agent router, or is
    answered 404 when the router has no answer. *)
Theorem answers_without_storage request env routed w :
  (Worker.method request = "OPTIONS" →
   Worker.fetch request env routed w
   = (Ok {| Worker.status := 200; Worker.body := Worker.NoBody |}, w))
  ∧ (Worker.method request ≠ "OPTIONS" →
     Worker.pathname request = "/check-open-ai-key" →
     Worker.fetch request env routed w
     = (Ok {| Worker.status := 200;
              Worker.body :=
                Worker.KeyCheck
                  (bool_decide (Worker.OPENAI_API_KEY env ≠ "")) |}, w))
  ∧ (Worker.method request = "POST" ∨ Worker.method request = "DELETE" →
     String.prefix "/api/integrations/" (Worker.pathname request) = true →
     (¬ passesNameCheck (Worker.popSplit (Worker.pathname request)) →
      Worker.fetch request env routed w
      = (Ok {| Worker.status := 404;
               Worker.body := Worker.Failure "Integration not found" None |},
         w))
     ∧ (passesNameCheck (Worker.popSplit (Worker.pathname request)) →
        sessionOf request = None →
        Worker.fetch request env routed w
        = (Ok {| Worker.status := 400;
                 Worker.body := Worker.Failure "Session ID required" None |},
           w)))
  ∧ (Worker.method request ≠ "OPTIONS" →
     Worker.pathname request ≠ "/check-open-ai-key" →
     (Worker.method request = "GET" →
      Worker.pathname request ≠ "/api/integrations") →
     (Worker.method request = "POST" ∨ Worker.method request = "DELETE" →
      String.prefix "/api/integrations/" (Worker.pathname request) = false) →
     Worker.fetch request env routed w = (Ok (unhandled routed), w)).
Proof.
  destruct request as [method pathname search header].
  cbn [Worker.method Worker.pathname]. split_and!.
  - intros ->. reflexivity.
  - intros Hm ->. unfold Worker.fetch. cbn [Worker.method Worker.pathname].
    by rewrite decide_False, decide_True by done.
  - intros Hmethod Hprefix. split.
    + intros Hno. apply fetch_unresolved_name_is_404; [done..|].
      cbn [Worker.pathname].
      destruct (decide (Worker.popSplit pathname = "")) as [|Hne]; [by left|].
      right. destruct (Js.get _ _) as [integration|member|] eqn:Hget;
        [..|done]; exfalso; apply Hno; split; try done; by rewrite Hget.
    + intros [Hne Htruthy] Hsid. unfold sessionOf in Hsid.
      cbn [Worker.searchSessionId Worker.headerSessionId] in Hsid.
      destruct (prefix_split _ _ Hprefix) as [rest Hp].
      unfold Worker.fetch. cbn [Worker.method Worker.pathname
        Worker.searchSessionId Worker.headerSessionId].
      rewrite (decide_False (P := method = "OPTIONS"))
        by (destruct Hmethod as [->| ->]; done).
      rewrite (decide_False (P := pathname = "/check-open-ai-key"))
        by (by rewrite Hp).
      assert (String.prefix "/api/integrations" pathname = true) as ->
        by (by rewrite Hp).
      rewrite Hprefix, Hsid, Htruthy. rewrite run_bind. unfold try_catch.
      rewrite (bool_decide_eq_false_2 (pathname = "/api/integrations"))
        by (by rewrite Hp).
      rewrite (bool_decide_eq_false_2 (Worker.popSplit pathname = ""))
        by done.
      cbn [andb orb negb].
      destruct Hmethod as [->| ->]; reflexivity.
  - intros Hopt Hkey Hget Hcall. unfold Worker.fetch, unhandled.
    cbn [Worker.method Worker.pathname Worker.searchSessionId
         Worker.headerSessionId].
    rewrite (decide_False (P := method = "OPTIONS")) by done.
    rewrite (decide_False (P := pathname = "/check-open-ai-key")) by done.
    destruct (String.prefix "/api/integrations" pathname); [|done].
    rewrite run_bind. unfold try_catch.
    destruct (decide (method = "GET")) as [->|Hg].
    + rewrite (bool_decide_eq_false_2 (pathname = "/api/integrations"))
        by auto.
      cbn [andb]. rewrite !andb_false_r. reflexivity.
    + rewrite (bool_decide_eq_false_2 (method = "GET")) by done.
      rewrite andb_false_r.
      destruct (decide (method = "POST")) as [->|Hpost].
      { rewrite Hcall by auto. reflexivity. }
      rewrite (bool_decide_eq_false_2 (method = "POST")) by done.
      rewrite andb_false_r.
      destruct (decide (method = "DELETE")) as [->|Hdel].
      { rewrite Hcall by auto. reflexivity. }
      rewrite (bool_decide_eq_false_2 (method = "DELETE")) by done.
      rewrite andb_false_r. reflexivity.
Qed.

Lemma answers_without_storage_witness :
  Worker.fetch (bare "GET" "/api/integrations/shopify") Scenario.env None
    Sample.world
  = (Ok (unhandled None), Sample.world).
Proof.
  apply (answers_without_storage (bare "GET" "/api/integrations/shopify")
           Scenario.env None Sample.world).
  - done.
  - done.
  - done.
  - intros [|]; done.
Defined.

(** ** Chat turns and storage failures (server.ts) *)

Lemma total_try_catch {A} (body : M A) (handler : Js.Error → M A) :
  (∀ e, total (handler e)) → total (try_catch body handler).
Proof.
  intros Hh w. unfold try_catch.
  destruct (body w) as [[a|e] w1]; [by eexists _, _|]. apply Hh.
Qed.

Lemma total_print l s : total (effect (World.print l s)).
Proof. intros w. by eexists _, _. Qed.

Lemma saveUserMessage_total k this : total (Agent.saveUserMessage k this).
Proof.
  unfold Agent.saveUserMessage.
  destruct (Agent.storage this) as [ops|]; [|by eexists _, _].
  destruct (_ && _); [|by eexists _, _].
  apply total_try_catch. intros e. apply total_print.
Qed.

Lemma streamOnFinish_total k this onFinish result w :
  ∃ w', Agent.streamOnFinish k this onFinish result w
        = (Ok (match onFinish with
               | Some callback => callback result this
               | None => this
               end), w').
Proof.
  unfold Agent.streamOnFinish. rewrite run_bind.
  destruct (Agent.storage this) as [ops|]; [|by eexists].
  case_bool_decide; [|by eexists].
  match goal with |- context [try_catch ?b ?h w] =>
    destruct (total_try_catch b h (λ e, total_print _ _) w)
      as ([] & w' & ->) end.
  by eexists.
Qed.

Lemma execute_outcome k candidates this onFinish generation w :
  Tools.agentToolMappings !! Agent.agentType k = Some candidates →
  ∃ w',
    Agent.execute k this onFinish generation w
    = (match generation with
       | Agent.Throws e => Throw e
       | Agent.Finishes result =>
           Ok (match onFinish with
               | Some callback => callback result this
               | None => this
               end)
       | Agent.Pending => Ok this
       end, w').
Proof.
  intros Hrole. unfold Agent.execute. rewrite run_bind.
  unfold try_catch at 1. rewrite run_bind.
  destruct (getToolsForAgent_resolved _ _ (Some (Agent.sessionId this))
              (Agent.dbOps this) w Hrole) as [w2 ->].
  rewrite run_bind. cbn [console_log effect].
  destruct generation as [e|result|].
  - cbn [throw]. rewrite run_bind. cbn [console_error effect].
    rewrite run_bind.
    match goal with |- context [Agent.saveErrorMessage k this e ?w0] =>
      destruct (saveErrorMessage_total k this e w0) as ([] & w' & ->) end.
    by eexists.
  - rewrite run_ret. apply streamOnFinish_total.
  - rewrite run_ret. by eexists.
Qed.

(** X13.  For an agent whose type has a candidate list, a chat turn never
    rejects, whatever storage does during the turn: [onChatMessage]
    returns the streaming response, with status 200, and how its stream
    ends is decided by the text generation alone.  A generation that
    throws [e] ends the stream in the error [e], a generation that
    finishes hands the result to the caller's callback, and one that is
    cut short leaves the agent as it is. *)
Theorem turn_outcome_ignores_storage k candidates this onFinish generation w :
  Tools.agentToolMappings !! Agent.agentType k = Some candidates →
  ∃ w',
    Agent.onChatMessage k this onFinish generation w
    = (Ok {| Agent.res_status := 200;
             Agent.res_stream :=
               match generation with
               | Agent.Throws e => Throw e
               | Agent.Finishes result =>
                   Ok (match onFinish with
                       | Some callback => callback result this
                       | None => this
                       end)
               | Agent.Pending => Ok this
               end |}, w').
Proof.
  intros Hrole. unfold Agent.onChatMessage. rewrite run_bind.
  destruct (saveUserMessage_total k this w) as ([] & w1 & ->).
  unfold Agent.createDataStreamResponse.
  destruct (execute_outcome k candidates this onFinish generation w1 Hrole)
    as [w' ->].
  by eexists.
Qed.

Lemma turn_outcome_ignores_storage_witness :
  ∃ w',
    Agent.onChatMessage Agent.CampaignAgent
      (Sample.agent Agent.CampaignAgent (Sample.chatter 11)) None
      (Agent.Throws Sample.connectionEnded) Sample.failing
    = (Ok {| Agent.res_status := 200;
             Agent.res_stream := Throw Sample.connectionEnded |}, w').
Proof.
  exact (turn_outcome_ignores_storage Agent.CampaignAgent
           ["google-ads"; "shopify"; "posthog"]
           (Sample.agent Agent.CampaignAgent (Sample.chatter 11)) None
           (Agent.Throws Sample.connectionEnded) Sample.failing eq_refl).
Defined.

(** ** Sessions and prompts (db/operations.ts, server.ts) *)

Lemma createSession_ok this data w :
  World.nextFault w = None →
  DbOperations.createSession this data w
  = (Ok (head (Sql.upsertSession data (World.now w) (World.now w)
                 (World.now w) (World.issue w)).1),
     (Sql.upsertSession data (World.now w) (World.now w) (World.now w)
        (World.issue w)).2).
Proof.
  intros Hn. unfold DbOperations.createSession.
  change (Z.to_nat DbOperations.maxRetries) with 2. cbn [for_attempts].
  rewrite run_bind. unfold try_catch. rewrite !run_bind.
  cbn [newDate read]. rewrite !run_bind. cbn [newDate read].
  rewrite !run_bind. cbn [newDate read]. rewrite run_bind.
  rewrite statement_ok by done. reflexivity.
Qed.

Lemma filter_none {A} (P : A → Prop) `{∀ x, Decision (P x)} (l : list A) :
  (∀ x, x ∈ l → ¬ P x) → filter P l = [].
Proof.
  induction l as [|y l IH]; intros Hno; [done|].
  rewrite filter_cons_False by (apply Hno; left).
  apply IH. intros x Hx. apply Hno. by right.
Qed.

Lemma filter_key_unique {A B} `{EqDecision B} (key : A → B) (l : list A) x :
  NoDup (key <$> l) → x ∈ l → filter (λ y, key y = key x) l = [x].
Proof.
  induction l as [|y l IH]; intros Hnd Hin; [by apply elem_of_nil in Hin|].
  rewrite fmap_cons in Hnd. apply NoDup_cons in Hnd as [Hy Hnd].
  apply elem_of_cons in Hin as [->|Hin].
  - rewrite filter_cons_True by done. f_equal.
    apply filter_none. intros z Hz Hk. apply Hy. rewrite <- Hk.
    by apply list_elem_of_fmap_2.
  - rewrite filter_cons_False; [by apply IH|].
    intros Hk. apply Hy. rewrite Hk. by apply list_elem_of_fmap_2.
Qed.

Lemma update_keys {A B} (key : A → B) (P : A → Prop) `{∀ x, Decision (P x)}
    (set : A → A) (table : list A) :
  (∀ x, key (set x) = key x) →
  key <$> (Sql.update P set table).2 = key <$> table.
Proof.
  intros Hkey. cbn. rewrite <- list_fmap_compose. apply list_fmap_ext.
  intros i x _. cbn. by destruct (decide (P x)).
Qed.

(** What [createSession] leaves when storage accepts its statement, on a
    table that holds no id twice. *)
Lemma upsertSession_spec data c u cu w :
  NoDup (ses_id <$> World.sessions w) →
  ∃ row,
    (Sql.upsertSession data c u cu w).1 = [row]
    ∧ filter (λ s, ses_id s = new_ses_id data)
        (World.sessions (Sql.upsertSession data c u cu w).2) = [row]
    ∧ NoDup (ses_id <$> World.sessions (Sql.upsertSession data c u cu w).2)
    ∧ ses_id row = new_ses_id data
    ∧ ses_metadata row = new_ses_metadata data
    ∧ match filter (λ s, ses_id s = new_ses_id data) (World.sessions w) with
      | [] =>
          World.sessions (Sql.upsertSession data c u cu w).2
          = World.sessions w ++ [row]
          ∧ ses_agentType row = new_ses_agentType data
          ∧ ses_agentName row = new_ses_agentName data
          ∧ ses_createdAt row = c ∧ ses_updatedAt row = u
      | old :: _ =>
          length (World.sessions (Sql.upsertSession data c u cu w).2)
          = length (World.sessions w)
          ∧ ses_agentType row = ses_agentType old
          ∧ ses_agentName row = ses_agentName old
          ∧ ses_createdAt row = ses_createdAt old
          ∧ ses_updatedAt row = cu
      end.
Proof.
  intros Hnd. unfold Sql.upsertSession.
  destruct (decide (Exists _ _)) as [Hex|Hex].
  - apply Exists_exists in Hex as (old & Hin & Hid).
    pose proof (filter_key_unique ses_id _ old Hnd Hin) as Hf.
    rewrite Hid in Hf.
    match goal with |- context [Sql.update ?P ?s ?t] =>
      pose proof (update_returning P s t) as Hret;
      pose proof (update_filter P s (λ x, iff_refl _) t) as Hfil;
      pose proof (update_length P s t) as Hlen;
      pose proof (update_keys ses_id P s t (λ _, eq_refl)) as Hkeys;
      destruct (Sql.update P s t) as [rows table]
    end.
    cbn [fst snd] in *. rewrite Hf in Hret, Hfil |- *. cbn in Hret, Hfil.
    eexists. split; [exact Hret|]. cbn [World.sessions World.setSessions].
    split; [exact Hfil|]. rewrite Hkeys. split; [done|].
    rewrite Hlen. cbn.
    split_and!; done.
  - assert (Hnone : filter (λ s, ses_id s = new_ses_id data)
                      (World.sessions w) = []).
    { apply filter_none. intros s Hs Hid. apply Hex. apply Exists_exists.
      by exists s. }
    rewrite Hnone.
    eexists. split; [reflexivity|]. cbn.
    rewrite filter_app, filter_cons_True by done. rewrite Hnone.
    split; [done|]. split; [|done].
    rewrite fmap_app. apply NoDup_app. split; [done|]. split.
    + intros id Hin Hin'. cbn in Hin'. apply list_elem_of_singleton in Hin'.
      apply list_elem_of_fmap in Hin as (s & -> & Hs).
      apply Hex. apply Exists_exists. by exists s.
    + cbn. apply NoDup_singleton.
Qed.

Lemma findSession_ok this sessionId w :
  World.nextFault w = None →
  DbOperationsRest.findSession this sessionId w
  = (Ok (head (filter (λ s, ses_id s = sessionId) (World.sessions w))),
     World.issue w).
Proof.
  intros Hn. unfold DbOperationsRest.findSession.
  rewrite run_bind, statement_ok by done. unfold Sql.select. cbn [fst snd].
  rewrite run_ret. f_equal. f_equal.
  by destruct (filter _ _).
Qed.

(** X14.  [createSession] followed by [findSession], storage accepting
    both: the session found is the one [createSession] returned, it
    carries the id and the metadata given, and no id is stored twice.
    When the id was stored before, the row keeps its agent type, agent
    name and creation time and only its metadata and update time change;
    otherwise one row is added. *)
Theorem session_round_trip this data w :
  nthFault 0 w = None → nthFault 1 w = None →
  NoDup (ses_id <$> World.sessions w) →
  ∃ row w1 w2,
    DbOperations.createSession this data w = (Ok (Some row), w1)
    ∧ DbOperationsRest.findSession this (new_ses_id data) w1
      = (Ok (Some row), w2)
    ∧ NoDup (ses_id <$> World.sessions w1)
    ∧ ses_id row = new_ses_id data
    ∧ ses_metadata row = new_ses_metadata data
    ∧ match filter (λ s, ses_id s = new_ses_id data) (World.sessions w) with
      | [] =>
          World.sessions w1 = World.sessions w ++ [row]
          ∧ ses_agentType row = new_ses_agentType data
          ∧ ses_agentName row = new_ses_agentName data
          ∧ ses_createdAt row = World.now w
      | old :: _ =>
          length (World.sessions w1) = length (World.sessions w)
          ∧ ses_agentType row = ses_agentType old
          ∧ ses_agentName row = ses_agentName old
          ∧ ses_createdAt row = ses_createdAt old
      end
    ∧ ses_updatedAt row = World.now w.
Proof.
  intros H0 H1 Hnd. rewrite <- nextFault_nth in H0.
  rewrite createSession_ok by done.
  destruct (upsertSession_spec data (World.now w) (World.now w)
              (World.now w) (World.issue w) Hnd)
    as (row & Hret & Hfil & Hnd' & Hid & Hmd & Hcase).
  pose proof (sameIO_upsertSession data (World.now w) (World.now w)
                (World.now w) (World.issue w)) as (_ & _ & _ & Hfaults).
  destruct (Sql.upsertSession _ _ _ _ _) as [rows w1]. cbn [fst snd] in *.
  subst rows. exists row, w1, (World.issue w1).
  split; [done|]. split.
  { rewrite findSession_ok.
    - by rewrite Hfil.
    - rewrite nextFault_nth. unfold nthFault in *. rewrite Hfaults. cbn.
      by destruct (World.faults w). }
  split; [done|]. split; [done|]. split; [done|].
  change (World.sessions (World.issue w)) with (World.sessions w) in Hcase.
  destruct (filter _ (World.sessions w)) as [|old olds].
  - destruct Hcase as (? & ? & ? & ? & ?). done.
  - destruct Hcase as (? & ? & ? & ? & ?). done.
Qed.

Lemma session_round_trip_witness :
  ∃ row w1 w2,
    DbOperations.createSession Sample.dbOps Sample.session Sample.world
    = (Ok (Some row), w1)
    ∧ DbOperationsRest.findSession Sample.dbOps "router-agent-persistent" w1
      = (Ok (Some row), w2)
    ∧ ses_id row = "router-agent-persistent".
Proof.
  destruct (session_round_trip Sample.dbOps Sample.session Sample.world)
    as (row & w1 & w2 & E1 & E2 & _ & Hid & _).
  - reflexivity.
  - reflexivity.
  - apply NoDup_nil_2.
  - exists row, w1, w2. split; [exact E1|]. split; [exact E2|exact Hid].
Defined.

Lemma getPromptByAgentType_ok this agentType w :
  World.nextFault w = None →
  DbOperations.getPromptByAgentType this agentType w
  = (Ok (head (filter (λ p, pr_agentType p = agentType) (World.prompts w))),
     World.issue w).
Proof.
  intros Hn. unfold DbOperations.getPromptByAgentType.
  change (Z.to_nat DbOperations.maxRetries) with 2. cbn [for_attempts].
  rewrite run_bind. unfold try_catch. rewrite !run_bind.
  rewrite statement_ok by done. unfold Sql.select. cbn [fst snd].
  rewrite !run_ret. f_equal. f_equal. by destruct (filter _ _).
Qed.

Lemma createOrUpdatePrompt_ok this data w :
  World.nextFault w = None →
  DbOperations.createOrUpdatePrompt this data w
  = (Ok (head (Sql.upsertPrompt data (World.now w) (World.now w)
                 (World.now w) (World.issue w)).1),
     (Sql.upsertPrompt data (World.now w) (World.now w) (World.now w)
        (World.issue w)).2).
Proof.
  intros Hn. unfold DbOperations.createOrUpdatePrompt.
  change (Z.to_nat DbOperations.maxRetries) with 2. cbn [for_attempts].
  rewrite run_bind. unfold try_catch. rewrite !run_bind.
  cbn [newDate read]. rewrite !run_bind. cbn [newDate read].
  rewrite !run_bind. cbn [newDate read]. rewrite run_bind.
  rewrite statement_ok by done. reflexivity.
Qed.

Lemma getAllPrompts_ok this w :
  World.nextFault w = None →
  DbOperations.getAllPrompts this w
  = (Ok (Sql.orderByAsc pr_agentType (World.prompts w)), World.issue w).
Proof.
  intros Hn. unfold DbOperations.getAllPrompts.
  change (Z.to_nat DbOperations.maxRetries) with 2. cbn [for_attempts].
  rewrite run_bind. unfold try_catch. rewrite !run_bind.
  rewrite statement_ok by done. reflexivity.
Qed.

Lemma contract_bounded {A} (op : M A) (terminal : Js.Error → Res A) :
  RetryContract op terminal →
  (∀ w, nthFault 0 w = None →
        ∃ a, (op w).1 = Ok a
             ∧ World.statements (op w).2 = World.statements w + 1) →
  bounded op 2
  ∧ ((∀ e, ∃ a, terminal e = Ok a) → total op).
Proof.
  intros Hc Hok. split.
  - intros w. destruct (nthFault 0 w) as [e1|] eqn:H0.
    + destruct (Hc w e1 H0) as [Hother Hended].
      destruct (Js.isConnectionEnded e1).
      * destruct (Hended eq_refl) as (w' & (Hs & _) & Hrun).
        destruct (nthFault 1 w).
        -- rewrite Hrun. cbn. lia.
        -- destruct Hrun as [a ->]. cbn. lia.
      * destruct (Hother eq_refl) as (w' & -> & (Hs & _)). cbn. lia.
    + destruct (Hok w H0) as (a & _ & ->). lia.
  - intros Hterm w. destruct (nthFault 0 w) as [e1|] eqn:H0.
    + destruct (Hc w e1 H0) as [Hother Hended].
      destruct (Js.isConnectionEnded e1).
      * destruct (Hended eq_refl) as (w' & _ & Hrun).
        destruct (nthFault 1 w) as [e2|].
        -- destruct (Hterm e2) as [a Ha]. rewrite Hrun, Ha. by eexists _, _.
        -- destruct Hrun as [a ->]. by eexists _, _.
      * destruct (Hother eq_refl) as (w' & -> & _).
        destruct (Hterm e1) as [a ->]. by eexists _, _.
    + destruct (Hok w H0) as (a & Ha & _).
      destruct (op w) as [r w']. cbn in Ha. subst r. by eexists _, _.
Qed.

(** X15.  Whatever storage does, each of the five calls wrapped in the
    retry loop issues one or two statements, never more; and the three of
    them that return [null] on a final error ([createSession],
    [getPromptByAgentType], [createOrUpdatePrompt]) never throw. *)
Theorem wrapped_calls_are_bounded (this : DbOperations.t) :
  (∀ data, bounded (DbOperations.createSession this data) 2
           ∧ total (DbOperations.createSession this data))
  ∧ (∀ agentType, bounded (DbOperations.getPromptByAgentType this agentType) 2
                  ∧ total (DbOperations.getPromptByAgentType this agentType))
  ∧ (∀ data, bounded (DbOperations.createOrUpdatePrompt this data) 2
             ∧ total (DbOperations.createOrUpdatePrompt this data))
  ∧ (∀ agentType limit,
       bounded (DbOperations.getAgentMessages this agentType limit) 2)
  ∧ bounded (DbOperations.getAllPrompts this) 2.
Proof.
  split_and!.
  - intros data.
    destruct (contract_bounded _ _ (createSession_retry this data)) as [Hb Ht].
    { intros w H0. rewrite <- nextFault_nth in H0.
      rewrite createSession_ok by done.
      pose proof (sameIO_upsertSession data (World.now w) (World.now w)
                    (World.now w) (World.issue w)) as (Hs & _).
      cbn [fst snd]. rewrite Hs. eexists. split; [done|]. cbn. lia. }
    split; [done|]. apply Ht. by eexists.
  - intros agentType.
    destruct (contract_bounded _ _ (getPromptByAgentType_retry this agentType))
      as [Hb Ht].
    { intros w H0. rewrite <- nextFault_nth in H0.
      rewrite getPromptByAgentType_ok by done.
      eexists. split; [done|]. cbn. lia. }
    split; [done|]. apply Ht. by eexists.
  - intros data.
    destruct (contract_bounded _ _ (createOrUpdatePrompt_retry this data))
      as [Hb Ht].
    { intros w H0. rewrite <- nextFault_nth in H0.
      rewrite createOrUpdatePrompt_ok by done.
      pose proof (sameIO_upsertPrompt data (World.now w) (World.now w)
                    (World.now w) (World.issue w)) as (Hs & _).
      cbn [fst snd]. rewrite Hs. eexists. split; [done|]. cbn. lia. }
    split; [done|]. apply Ht. by eexists.
  - intros agentType limit.
    apply (contract_bounded _ _ (getAgentMessages_retry this agentType limit)).
    intros w H0. rewrite <- nextFault_nth in H0.
    rewrite getAgentMessages_ok by done.
    eexists. split; [done|]. cbn. lia.
  - apply (contract_bounded _ _ (getAllPrompts_retry this)).
    intros w H0. rewrite <- nextFault_nth in H0.
    rewrite getAllPrompts_ok by done.
    eexists. split; [done|]. cbn. lia.
Qed.

Lemma upsertPrompt_spec data c u cu w :
  NoDup (pr_agentType <$> World.prompts w) →
  ∃ row,
    (Sql.upsertPrompt data c u cu w).1 = [row]
    ∧ filter (λ p, pr_agentType p = new_pr_agentType data)
        (World.prompts (Sql.upsertPrompt data c u cu w).2) = [row]
    ∧ NoDup (pr_agentType <$> World.prompts (Sql.upsertPrompt data c u cu w).2)
    ∧ pr_agentType row = new_pr_agentType data
    ∧ pr_prompt row = new_pr_prompt data
    ∧ (∀ a, a ≠ new_pr_agentType data →
         filter (λ p, pr_agentType p = a)
           (World.prompts (Sql.upsertPrompt data c u cu w).2)
         = filter (λ p, pr_agentType p = a) (World.prompts w)).
Proof.
  intros Hnd. unfold Sql.upsertPrompt.
  destruct (decide (Exists _ _)) as [Hex|Hex].
  - apply Exists_exists in Hex as (old & Hin & Hid).
    pose proof (filter_key_unique pr_agentType _ old Hnd Hin) as Hf.
    rewrite Hid in Hf.
    match goal with |- context [Sql.update ?P ?s ?t] =>
      pose proof (update_returning P s t) as Hret;
      pose proof (update_filter P s (λ x, iff_refl _) t) as Hfil;
      pose proof (update_keys pr_agentType P s t (λ _, eq_refl)) as Hkeys;
      assert (Hother : ∀ a, a ≠ new_pr_agentType data →
                filter (λ p, pr_agentType p = a) (Sql.update P s t).2
                = filter (λ p, pr_agentType p = a) t);
      [|destruct (Sql.update P s t) as [rows table]]
    end.
    { intros a Ha. apply update_elsewhere.
      - intros x <- Hx. done.
      - intros x Hx. cbn. congruence. }
    cbn [fst snd] in *. rewrite Hf in Hret, Hfil. cbn in Hret, Hfil.
    eexists. split; [exact Hret|]. cbn [World.prompts World.setPrompts].
    split; [exact Hfil|]. rewrite Hkeys. split_and!; done.
  - assert (Hnone : filter (λ p, pr_agentType p = new_pr_agentType data)
                      (World.prompts w) = []).
    { apply filter_none. intros s Hs Hid. apply Hex. apply Exists_exists.
      by exists s. }
    eexists. split; [reflexivity|]. cbn.
    rewrite filter_app, filter_cons_True by done. rewrite Hnone.
    split; [done|]. split; [|split_and!; [done..|]].
    + rewrite fmap_app. apply NoDup_app. split; [done|]. split.
      * intros id Hin Hin'. cbn in Hin'. apply list_elem_of_singleton in Hin'.
        apply list_elem_of_fmap in Hin as (s & -> & Hs).
        apply Hex. apply Exists_exists. by exists s.
      * cbn. apply NoDup_singleton.
    + intros a Ha. rewrite filter_app, filter_cons_False by done.
      by rewrite filter_nil, app_nil_r.
Qed.

Lemma loadSystemPrompt_spec k this ops w :
  Agent.dbOps this = Some ops →
  ∃ w',
    AgentRest.loadSystemPrompt k this w
    = (Ok (AgentRest.setSystemPrompt
             match (DbOperations.getPromptByAgentType ops
                      (Agent.agentType k) w).1 with
             | Ok (Some record) => pr_prompt record
             | _ => ""
             end this), w').
Proof.
  intros Hops. unfold AgentRest.loadSystemPrompt. rewrite Hops.
  unfold try_catch. rewrite run_bind.
  destruct (DbOperations.getPromptByAgentType ops (Agent.agentType k) w)
    as [[[record|]|e] w1]; cbn [fst].
  - destruct (decide (pr_prompt record = "")) as [->|]; by eexists.
  - by eexists.
  - by eexists.
Qed.

(** X16.  A prompt stored with [createOrUpdatePrompt] for the agent's type
    is the prompt [loadSystemPrompt] gives the agent, storage accepting
    both calls; there is one row per agent type, and the prompts of the
    other types are untouched. *)
Theorem prompt_round_trip k this ops prompt w :
  nthFault 0 w = None → nthFault 1 w = None →
  NoDup (pr_agentType <$> World.prompts w) →
  Agent.dbOps this = Some ops →
  ∃ row w1 w2,
    DbOperations.createOrUpdatePrompt ops
      {| new_pr_agentType := Agent.agentType k; new_pr_prompt := prompt |} w
    = (Ok (Some row), w1)
    ∧ pr_agentType row = Agent.agentType k
    ∧ pr_prompt row = prompt
    ∧ NoDup (pr_agentType <$> World.prompts w1)
    ∧ (∀ other, other ≠ Agent.agentType k →
         filter (λ p, pr_agentType p = other) (World.prompts w1)
         = filter (λ p, pr_agentType p = other) (World.prompts w))
    ∧ AgentRest.loadSystemPrompt k this w1
      = (Ok (AgentRest.setSystemPrompt prompt this), w2).
Proof.
  intros H0 H1 Hnd Hops. rewrite <- nextFault_nth in H0.
  rewrite createOrUpdatePrompt_ok by done.
  match goal with |- context [Sql.upsertPrompt ?d ?c ?u ?cu ?w0] =>
    destruct (upsertPrompt_spec d c u cu w0 Hnd)
      as (row & Hret & Hfil & Hnd' & Hid & Hp & Hother);
    pose proof (sameIO_upsertPrompt d c u cu w0) as (_ & _ & _ & Hfaults);
    destruct (Sql.upsertPrompt d c u cu w0) as [rows w1]
  end.
  cbn [fst snd new_pr_agentType new_pr_prompt] in *. subst rows.
  destruct (loadSystemPrompt_spec k this ops w1 Hops) as [w2 Hload].
  rewrite getPromptByAgentType_ok in Hload.
  2:{ rewrite nextFault_nth. unfold nthFault in *. rewrite Hfaults. cbn.
      by destruct (World.faults w). }
  cbn [fst] in Hload. rewrite Hfil in Hload. cbn [head] in Hload.
  rewrite Hp in Hload.
  exists row, w1, w2. split_and!; done.
Qed.

Lemma prompt_round_trip_witness :
  ∃ row w1 w2,
    DbOperations.createOrUpdatePrompt Sample.dbOps Sample.prompt Sample.world
    = (Ok (Some row), w1)
    ∧ AgentRest.loadSystemPrompt Agent.RouterAgent
        (Sample.agent Agent.RouterAgent []) w1
      = (Ok (AgentRest.setSystemPrompt "You route requests."
               (Sample.agent Agent.RouterAgent [])), w2).
Proof.
  destruct (prompt_round_trip Agent.RouterAgent
              (Sample.agent Agent.RouterAgent []) Sample.dbOps
              "You route requests." Sample.world)
    as (row & w1 & w2 & E1 & _ & _ & _ & _ & E2).
  - reflexivity.
  - reflexivity.
  - apply NoDup_nil_2.
  - reflexivity.
  - exists row, w1, w2. split; [exact E1|exact E2].
Defined.

Lemma getPromptByAgentType_reads this agentType w :
  sameTables w (DbOperations.getPromptByAgentType this agentType w).2.
Proof.
  unfold DbOperations.getPromptByAgentType.
  change (Z.to_nat DbOperations.maxRetries) with 2. cbn [for_attempts].
  rewrite run_bind. unfold try_catch at 1. rewrite run_bind.
  unfold statement at 1. destruct (World.nextFault w) as [e|]; [|done].
  rewrite run_bind. cbn [console_warn effect].
  destruct (_ && _).
  - rewrite run_bind. cbn [sleep effect]. rewrite run_ret, run_bind.
    unfold try_catch. rewrite run_bind. unfold statement.
    destruct (World.nextFault _) as [e2|]; [|done].
    rewrite run_bind. cbn [console_warn effect].
    change (bool_decide (1 + 1 < DbOperations.maxRetries)%Z) with false.
    cbn [andb]. done.
  - done.
Qed.

Lemma getPromptByAgentType_final this agentType w e :
  nthFault 0 w = Some e → Js.isConnectionEnded e = false →
  (DbOperations.getPromptByAgentType this agentType w).1 = Ok None.
Proof.
  intros H0 He.
  destruct (getPromptByAgentType_retry this agentType w e H0) as [Hfinal _].
  by destruct (Hfinal He) as (w' & -> & _).
Qed.


(** ** Connecting, closing and clean-up (server.ts, db/operations.ts,
    db/index.ts) *)

Lemma saveMessage_fault ops data w e :
  World.nextFault w = Some e →
  DbOperations.saveMessage ops data w
  = (Ok None, World.print World.Err "Error saving message:" (World.issue w)).
Proof.
  intros Hn. unfold DbOperations.saveMessage, try_catch.
  rewrite run_bind. cbn [newDate read]. rewrite run_bind.
  by rewrite (statement_fault _ _ e).
Qed.

Lemma flush_any k this ops ms w :
  ∃ w' rows,
    Agent.for_of ms (flushOne k this ops) w = (Ok tt, w')
    ∧ World.messages w' = World.messages w ++ rows
    ∧ spokenRow <$> rows = spoken <$> acceptedOf (World.faults w) ms
    ∧ Forall (λ r, msg_agentType r = Agent.agentType k
                   ∧ msg_sessionId r = Agent.sessionId this) rows
    ∧ World.ended w' = World.ended w
    ∧ World.statements w' = World.statements w + length ms
    ∧ World.faults w' = drop (length ms) (World.faults w)
    ∧ World.sessions w' = World.sessions w
    ∧ World.integrationConnections w' = World.integrationConnections w
    ∧ World.prompts w' = World.prompts w.
Proof.
  revert w. induction ms as [|m ms IH]; intros w.
  { exists w, []. rewrite app_nil_r. split_and!; done. }
  cbn [Agent.for_of]. rewrite run_bind. unfold flushOne at 1.
  rewrite run_bind. cbn [newDate read]. rewrite run_bind.
  destruct (World.nextFault w) as [e|] eqn:Hn.
  - rewrite (saveMessage_fault _ _ _ e Hn). rewrite run_ret.
    destruct (IH (World.print World.Err "Error saving message:"
                    (World.issue w)))
      as (w' & rows & -> & Hm & Hp & Hall & He & Hs & Hf & H1 & H2 & H3).
    exists w', rows. split; [done|]. split; [done|].
    split; [|split_and!; try done].
    + rewrite Hp. cbn. unfold World.nextFault in Hn.
      destruct (World.faults w) as [|[e'|] fs]; cbn in *; done.
    + rewrite Hs. cbn. lia.
    + rewrite Hf. cbn. apply drop_tail.
  - match goal with |- context [DbOperations.saveMessage ops ?d w] =>
      destruct (saveMessage_ok ops d w Hn)
        as (row & -> & Hr & Hc & Ha & Hsid) end.
    rewrite run_ret.
    destruct (IH (World.setMessages (World.messages w ++ [row])
                    (World.takeUuid (World.issue w))))
      as (w' & rows & -> & Hm & Hp & Hall & He & Hs & Hf & H1 & H2 & H3).
    exists w', (row :: rows). split; [done|].
    split; [|split; [|split_and!; try done]].
    + rewrite Hm. cbn. by rewrite <- app_assoc.
    + rewrite fmap_cons, Hp. cbn. unfold World.nextFault in Hn.
      unfold spokenRow at 1. rewrite Hr, Hc.
      destruct (World.faults w) as [|[e'|] fs]; cbn in *; try done.
      by destruct ms.
    + by constructor.
    + rewrite Hs. cbn. lia.
    + rewrite Hf. cbn. apply drop_tail.
Qed.

Lemma close_any manager w :
  ∃ w',
    DatabaseManager.close manager w = (Ok (closed manager), w')
    ∧ World.ended w'
      = World.ended w
        + match DatabaseManager.conn manager with Some _ => 1 | None => 0 end
    ∧ sameTables w w'.
Proof.
  unfold DatabaseManager.close, closed.
  destruct (DatabaseManager.conn manager).
  - rewrite run_bind. unfold try_catch. rewrite run_bind.
    unfold DatabaseManager.conn_end.
    destruct (World.nextFault w); eexists; (split; [reflexivity|]);
      cbn; (split; [lia|done]).
  - eexists. split; [reflexivity|]. split; [lia|done].
Qed.

(** the full account of [onClose] *)
Lemma onClose_spec k connectionId this w :
  ∃ this' w' rows,
    Agent.onClose k connectionId this w = (Ok this', w')
    ∧ World.messages w' = World.messages w ++ rows
    ∧ spokenRow <$> rows
      = match Agent.storage this with
        | Some _ =>
            spoken <$> acceptedOf (World.faults w) (Agent.messages this)
        | None => []
        end
    ∧ Forall (λ r, msg_agentType r = Agent.agentType k
                   ∧ msg_sessionId r = Agent.sessionId this) rows
    ∧ Agent.messages this' = Agent.messages this
    ∧ Agent.dbManager this' = closed <$> Agent.dbManager this
    ∧ World.ended w' = World.ended w + connectionsHeld this.
Proof.
  unfold Agent.onClose, connectionsHeld. rewrite run_bind.
  cbn [console_log effect].
  set (w0 := World.print World.Log (Agent.agentName k +:+ " disconnected") w).
  rewrite run_bind.
  assert (Hflush : ∃ w1 rows,
    (match Agent.storage this with
     | Some ops =>
         if bool_decide (0 < length (Agent.messages this)) then
           try_catch
             (effect (World.print World.Log
                (Agent.agentName k
                 +:+ ": Saving messages to database on close"));;
              Agent.for_of (Agent.messages this) (flushOne k this ops);;
              effect (World.print World.Log
                (Agent.agentName k
                 +:+ ": Successfully saved all messages on close")))
             (λ error,
               effect (World.print World.Err
                 (Agent.agentName k
                  +:+ ": Failed to save messages on close:")))
         else mret tt
     | None => mret tt
     end) w0 = (Ok tt, w1)
    ∧ World.messages w1 = World.messages w ++ rows
    ∧ spokenRow <$> rows
      = match Agent.storage this with
        | Some _ =>
            spoken <$> acceptedOf (World.faults w) (Agent.messages this)
        | None => []
        end
    ∧ Forall (λ r, msg_agentType r = Agent.agentType k
                   ∧ msg_sessionId r = Agent.sessionId this) rows
    ∧ World.ended w1 = World.ended w).
  { destruct (Agent.storage this) as [ops|].
    2:{ exists w0, []. rewrite app_nil_r. done. }
    case_bool_decide as Hlen.
    2:{ exists w0, []. rewrite app_nil_r. split_and!; try done.
        destruct (Agent.messages this); [done|cbn in Hlen; lia]. }
    unfold try_catch. rewrite run_bind. cbn [effect]. rewrite run_bind.
    match goal with |- context [Agent.for_of _ _ ?w1] =>
      destruct (flush_any k this ops (Agent.messages this) w1)
        as (w2 & rows & -> & Hm & Hp & Hall & He & _) end.
    eexists _, rows. split; [reflexivity|]. done. }
  destruct Hflush as (w1 & rows & Hrun & Hm & Hp & Hall & He).
  change (console_log ?s) with (effect (World.print World.Log s)).
  change (console_error ?s) with (effect (World.print World.Err s)).
  unfold flushOne in Hrun. rewrite Hrun.
  destruct (Agent.dbManager this) as [manager|] eqn:Hmgr.
  - rewrite run_bind. unfold try_catch.
    destruct (close_any manager w1) as (w2 & -> & Hended & Htab).
    eexists _, w2, rows. split; [reflexivity|].
    destruct Htab as (Hmsg & _). rewrite Hmsg, Hended, He.
    split_and!; done.
  - eexists _, w1, rows. split; [reflexivity|]. rewrite He.
    split_and!; done.
Qed.

(** X18.  [onClose] never throws, whatever storage does.  The [i]-th
    transcript message is sent with the [i]-th storage request of the
    call; the rows added are those of the messages whose request storage
    accepts, in order, a rejected one being skipped without stopping the
    loop.  The transcript is kept, and a connection held by the manager
    is ended, once, also when rows were lost. *)
Theorem close_writes_what_storage_accepts k connectionId this w :
  ∃ this' w' rows,
    Agent.onClose k connectionId this w = (Ok this', w')
    ∧ World.messages w' = World.messages w ++ rows
    ∧ spokenRow <$> rows
      = match Agent.storage this with
        | Some _ =>
            spoken <$> acceptedOf (World.faults w) (Agent.messages this)
        | None => []
        end
    ∧ Forall (λ r, msg_agentType r = Agent.agentType k
                   ∧ msg_sessionId r = Agent.sessionId this) rows
    ∧ Agent.messages this' = Agent.messages this
    ∧ Agent.dbManager this' = closed <$> Agent.dbManager this
    ∧ World.ended w' = World.ended w + connectionsHeld this.
Proof. apply onClose_spec. Qed.

Lemma acceptedOf_healthy {A} fs (ms : list A) :
  Forall (λ f, f = None) fs → acceptedOf fs ms = ms.
Proof.
  revert fs. induction ms as [|m ms IH]; intros fs Hh; [done|].
  destruct Hh as [|f fs -> Hh]; [done|]. cbn. by rewrite IH.
Qed.

Lemma close_writes_what_storage_accepts_witness :
  ∃ this' w' rows,
    Agent.onClose Agent.RouterAgent "connection-1"
      (Sample.agent Agent.RouterAgent Scenario.transcript) Scenario.flaky
    = (Ok this', w')
    ∧ World.messages w' = World.messages Scenario.flaky ++ rows
    ∧ spokenRow <$> rows = [("user", "one"); ("user", "three")]
    ∧ World.ended w' = 1.
Proof.
  destruct (close_writes_what_storage_accepts Agent.RouterAgent "connection-1"
              (Sample.agent Agent.RouterAgent Scenario.transcript)
              Scenario.flaky)
    as (this' & w' & rows & E & Hm & Hp & _ & _ & _ & Hended).
  exists this', w', rows. split; [exact E|]. split; [exact Hm|].
  split; [exact Hp|exact Hended].
Defined.

Lemma getAgentMessages_reads this agentType limit w :
  sameTables w (DbOperations.getAgentMessages this agentType limit w).2.
Proof.
  unfold DbOperations.getAgentMessages.
  change (Z.to_nat DbOperations.maxRetries) with 2. cbn [for_attempts].
  rewrite run_bind. unfold try_catch at 1. rewrite run_bind.
  unfold statement at 1. destruct (World.nextFault w) as [e|]; [|done].
  rewrite run_bind. cbn [console_warn effect].
  destruct (_ && _).
  - rewrite run_bind. cbn [sleep effect]. rewrite run_ret, run_bind.
    unfold try_catch. rewrite run_bind. unfold statement.
    destruct (World.nextFault _) as [e2|]; [|done].
    rewrite run_bind. cbn [console_warn effect].
    change (bool_decide (1 + 1 < DbOperations.maxRetries)%Z) with false.
    cbn [andb]. done.
  - done.
Qed.

Lemma setMessages_same this :
  Agent.setMessages (Agent.messages this) this = this.
Proof. by destruct this. Qed.

(** every outcome of a restore: a new transcript at most *)
Lemma restore_any k this w :
  ∃ transcript w',
    Agent.restoreConversationHistory k this w
    = (Ok (Agent.setMessages transcript this), w')
    ∧ sameTables w w'.
Proof.
  destruct (Agent.storage this) as [ops|] eqn:Hst.
  - rewrite (restoreConversationHistory_spec k this ops w Hst).
    pose proof (getAgentMessages_reads ops (Agent.agentType k) 50 w) as Hr.
    destruct (DbOperations.getAgentMessages ops (Agent.agentType k) 50 w)
      as [[[|row fetched]|e] w1]; cbn [snd] in Hr.
    + exists (Agent.messages this). eexists.
      split; [by rewrite setMessages_same|exact Hr].
    + eexists _, _. split; [reflexivity|exact Hr].
    + exists (Agent.messages this). eexists.
      split; [by rewrite setMessages_same|exact Hr].
  - rewrite (restore_without_storage k this w Hst).
    exists (Agent.messages this), w. by rewrite setMessages_same.
Qed.

Lemma upsertSession_others data c u cu w :
  sameButSessions w (Sql.upsertSession data c u cu w).2.
Proof.
  unfold Sql.upsertSession. destruct (decide _); [|done].
  by destruct (Sql.update _ _ _).
Qed.

Lemma createSession_any this data w :
  ∃ session w',
    DbOperations.createSession this data w = (Ok session, w')
    ∧ sameButSessions w w'.
Proof.
  unfold DbOperations.createSession.
  change (Z.to_nat DbOperations.maxRetries) with 2. cbn [for_attempts].
  rewrite run_bind. unfold try_catch at 1. rewrite !run_bind.
  cbn [newDate read]. rewrite !run_bind. cbn [newDate read].
  rewrite !run_bind. cbn [newDate read]. rewrite run_bind.
  unfold statement at 1. destruct (World.nextFault w) as [e|].
  2:{ match goal with |- context [Sql.upsertSession ?d ?a ?b ?c ?w0] =>
        pose proof (upsertSession_others d a b c w0) as Ho;
        destruct (Sql.upsertSession d a b c w0) as [rows w1] end.
      eexists _, _. split; [reflexivity|exact Ho]. }
  rewrite run_bind. cbn [console_warn effect].
  destruct (_ && _).
  - rewrite run_bind. cbn [sleep effect]. rewrite run_ret, run_bind.
    unfold try_catch. rewrite !run_bind.
    cbn [newDate read]. rewrite !run_bind. cbn [newDate read].
    rewrite !run_bind. cbn [newDate read]. rewrite run_bind.
    unfold statement. destruct (World.nextFault _) as [e2|].
    2:{ match goal with |- context [Sql.upsertSession ?d ?a ?b ?c ?w0] =>
          pose proof (upsertSession_others d a b c w0) as Ho;
          destruct (Sql.upsertSession d a b c w0) as [rows w1] end.
        eexists _, _. split; [reflexivity|exact Ho]. }
    rewrite run_bind. cbn [console_warn effect].
    change (bool_decide (1 + 1 < DbOperations.maxRetries)%Z) with false.
    cbn [andb]. eexists _, _. split; [reflexivity|done].
  - eexists _, _. split; [reflexivity|done].
Qed.

(** X19.  [onConnect] never throws, whatever storage does.  It sets the
    session id to the agent's persistent id, keeps both handles, and may
    replace the transcript; it writes to the [sessions] table only, and
    to no table when the agent has no registry handle. *)
Theorem onConnect_outcome k connectionId this w :
  ∃ transcript w',
    Agent.onConnect k connectionId this w
    = (Ok (Agent.setMessages transcript
             (Agent.setSessionId (Agent.persistentSessionId k) this)), w')
    ∧ sameButSessions w w'
    ∧ (Agent.dbOps this = None →
       transcript = Agent.messages this
       ∧ World.sessions w' = World.sessions w).
Proof.
  unfold Agent.onConnect. rewrite run_bind. cbn [console_log effect].
  set (this0 := Agent.setSessionId (Agent.persistentSessionId k) this).
  change (Agent.dbOps this0) with (Agent.dbOps this).
  destruct (Agent.dbOps this) as [ops|].
  2:{ exists (Agent.messages this),
        (World.print World.Log (Agent.agentName k +:+ " connected") w).
      split; [reflexivity|done]. }
  unfold try_catch. rewrite !run_bind. cbn [newDate read].
  rewrite !run_bind. cbn [newDate read]. rewrite run_bind.
  match goal with |- context [DbOperations.createSession ops ?d ?w0] =>
    destruct (createSession_any ops d w0) as (session & w1 & -> & Hs) end.
  rewrite run_bind.
  assert (∃ w2, (if session is Some _
                 then console_log
                        (Agent.agentName k
                         +:+ " session created/updated successfully")
                 else mret tt) w1 = (Ok tt, w2) ∧ sameTables w1 w2)
    as (w2 & -> & Ht).
  { destruct session; by eexists. }
  destruct (restore_any k this0 w2) as (transcript & w3 & -> & Ht').
  exists transcript, w3. split; [done|]. split; [|done].
  destruct Hs as (? & ? & ?), Ht as (? & ? & ? & ?), Ht' as (? & ? & ? & ?).
  cbn in *. split_and!; congruence.
Qed.

Lemma healthy_faults w w' :
  World.faults w' = World.faults w → healthy w → healthy w'.
Proof. unfold healthy. by intros ->. Qed.

Lemma onConnect_healthy k connectionId this ops w :
  healthy w → Agent.dbOps this = Some ops →
  Agent.persistentSessionId k ≠ "" →
  ∃ w1,
    Agent.onConnect k connectionId this w
    = (Ok match take 50 (Sql.orderByDesc msg_createdAt
                           (messagesOf (Agent.agentType k) w)) with
          | [] => Agent.setSessionId (Agent.persistentSessionId k) this
          | fetched =>
              Agent.setMessages (asChatMessage <$> reverse fetched)
                (Agent.setSessionId (Agent.persistentSessionId k) this)
          end, w1)
    ∧ World.messages w1 = World.messages w
    ∧ healthy w1.
Proof.
  intros Hh Hops Hpid.
  unfold Agent.onConnect. rewrite run_bind. cbn [console_log effect].
  set (this0 := Agent.setSessionId (Agent.persistentSessionId k) this).
  change (Agent.dbOps this0) with (Agent.dbOps this). rewrite Hops.
  unfold try_catch. rewrite !run_bind. cbn [newDate read].
  rewrite !run_bind. cbn [newDate read]. rewrite run_bind.
  set (w0 := World.print World.Log (Agent.agentName k +:+ " connected") w).
  assert (Hh0 : healthy w0) by done.
  rewrite createSession_ok by by apply healthy_next.
  match goal with |- context [Sql.upsertSession ?d ?a ?b ?c ?w'] =>
    pose proof (upsertSession_others d a b c w') as (Hm & _);
    pose proof (sameIO_upsertSession d a b c w') as (_ & _ & _ & Hf);
    destruct (Sql.upsertSession d a b c w') as [rows w1] end.
  cbn [fst snd] in *. cbn in Hm.
  assert (Hh1 : healthy w1).
  { apply (healthy_faults (World.issue w0)); [done|by apply healthy_issue]. }
  rewrite run_bind.
  assert (∃ w2, (if head rows is Some _
                 then console_log
                        (Agent.agentName k
                         +:+ " session created/updated successfully")
                 else mret tt) w1 = (Ok tt, w2)
                ∧ World.messages w2 = World.messages w1 ∧ healthy w2)
    as (w2 & -> & Hm2 & Hh2).
  { destruct (head rows); by eexists. }
  assert (Hst : Agent.storage this0 = Some ops).
  { unfold Agent.storage. change (Agent.dbOps this0) with (Agent.dbOps this).
    rewrite Hops. change (Agent.sessionId this0)
      with (Agent.persistentSessionId k). by rewrite decide_False. }
  rewrite (restoreConversationHistory_spec k this0 ops w2 Hst).
  rewrite getAgentMessages_ok by by apply healthy_next.
  assert (messagesOf (Agent.agentType k) w2 = messagesOf (Agent.agentType k) w)
    as -> by (unfold messagesOf; by rewrite Hm2, Hm).
  destruct (take 50 _) as [|row fetched].
  - eexists. split; [reflexivity|]. cbn. split; [congruence|].
    by apply healthy_issue.
  - eexists. split; [reflexivity|]. cbn. split; [congruence|].
    by apply healthy_issue.
Qed.

(** X20.  Connecting and closing without a chat in between stores the
    history a second time: on healthy storage, with the [N] messages of
    the role ([0 < N ≤ 50], in creation order) restored by [onConnect],
    the next [onClose] appends [N] rows with the same roles and
    contents. *)
Theorem reconnect_stores_history_again k connection1 connection2 this ops w :
  healthy w → Agent.dbOps this = Some ops →
  Agent.persistentSessionId k ≠ "" →
  StronglySorted (λ a b, (msg_createdAt a < msg_createdAt b)%Z)
    (messagesOf (Agent.agentType k) w) →
  0 < length (messagesOf (Agent.agentType k) w) ≤ 50 →
  ∃ this1 w1 this2 w2 rows,
    Agent.onConnect k connection1 this w = (Ok this1, w1)
    ∧ Agent.messages this1
      = asChatMessage <$> messagesOf (Agent.agentType k) w
    ∧ World.messages w1 = World.messages w
    ∧ Agent.onClose k connection2 this1 w1 = (Ok this2, w2)
    ∧ World.messages w2 = World.messages w ++ rows
    ∧ spokenRow <$> rows = spokenRow <$> messagesOf (Agent.agentType k) w
    ∧ messagesOf (Agent.agentType k) w2
      = messagesOf (Agent.agentType k) w ++ rows.
Proof.
  intros Hh Hops Hpid Hsorted [Hpos Hlen].
  destruct (onConnect_healthy k connection1 this ops w Hh Hops Hpid)
    as (w1 & Hconnect & Hm1 & Hh1).
  rewrite (orderByDesc_increasing _ _ Hsorted) in Hconnect.
  rewrite take_ge in Hconnect by (by rewrite length_reverse).
  destruct (reverse (messagesOf (Agent.agentType k) w)) as [|row fetched]
    eqn:Hrev.
  { apply (f_equal length) in Hrev. rewrite length_reverse in Hrev.
    cbn in Hrev. lia. }
  rewrite <- Hrev, reverse_involutive in Hconnect.
  set (this1 := Agent.setMessages
                  (asChatMessage <$> messagesOf (Agent.agentType k) w)
                  (Agent.setSessionId (Agent.persistentSessionId k) this))
    in *.
  destruct (onClose_spec k connection2 this1 w1)
    as (this2 & w2 & rows & Hclose & Hm2 & Hp & Hall & _).
  assert (Hst : Agent.storage this1 = Some ops).
  { unfold Agent.storage. change (Agent.dbOps this1) with (Agent.dbOps this).
    rewrite Hops. change (Agent.sessionId this1)
      with (Agent.persistentSessionId k). by rewrite decide_False. }
  rewrite Hst, acceptedOf_healthy in Hp by done.
  change (Agent.messages this1)
    with (asChatMessage <$> messagesOf (Agent.agentType k) w) in Hp.
  rewrite <- list_fmap_compose in Hp.
  exists this1, w1, this2, w2, rows.
  split; [done|]. split; [done|]. split; [done|]. split; [done|].
  split; [by rewrite Hm2, Hm1|]. split; [done|].
  unfold messagesOf. rewrite Hm2, Hm1, filter_app. f_equal.
  clear -Hall. induction Hall as [|r rows [Ha _] _ IH]; [done|].
  by rewrite filter_cons_True, IH.
Qed.

Lemma reconnect_stores_history_again_witness :
  ∃ this1 w1 this2 w2 rows,
    Agent.onConnect Agent.RouterAgent "connection-1"
      (Sample.agent Agent.RouterAgent []) Sample.archive = (Ok this1, w1)
    ∧ Agent.onClose Agent.RouterAgent "connection-1" this1 w1 = (Ok this2, w2)
    ∧ messagesOf "router-agent" w2
      = messagesOf "router-agent" Sample.archive ++ rows
    ∧ spokenRow <$> rows
      = [("user", "hello"); ("assistant", "hi there");
         ("user", "connect shopify")].
Proof.
  destruct (reconnect_stores_history_again Agent.RouterAgent "connection-1"
              "connection-1" (Sample.agent Agent.RouterAgent [])
              Sample.dbOps Sample.archive)
    as (this1 & w1 & this2 & w2 & rows & E1 & _ & _ & E2 & _ & Hp & Hm).
  - apply Forall_nil_2.
  - reflexivity.
  - done.
  - apply (bool_decide_unpack _). vm_compute. exact I.
  - vm_compute. lia.
  - exists this1, w1, this2, w2, rows.
    split; [exact E1|]. split; [exact E2|]. split; [exact Hm|exact Hp].
Defined.

(** X21.  A restore loads the 50 most recent messages of the role, oldest
    first: with the stored messages of the role in creation order and
    storage answering, the transcript becomes the last 50 of them (all of
    them when there are fewer). *)
Theorem restore_keeps_latest_fifty k this ops w :
  World.nextFault w = None →
  StronglySorted (λ a b, (msg_createdAt a < msg_createdAt b)%Z)
    (messagesOf (Agent.agentType k) w) →
  Agent.storage this = Some ops →
  0 < length (messagesOf (Agent.agentType k) w) →
  ∃ this' w',
    Agent.restoreConversationHistory k this w = (Ok this', w')
    ∧ Agent.messages this'
      = asChatMessage <$>
          drop (length (messagesOf (Agent.agentType k) w) - 50)
            (messagesOf (Agent.agentType k) w)
    ∧ length (Agent.messages this')
      = length (messagesOf (Agent.agentType k) w) `min` 50.
Proof.
  intros Hn Hsorted Hst Hpos.
  rewrite (restoreConversationHistory_spec k this ops w Hst).
  rewrite getAgentMessages_ok by done.
  rewrite (orderByDesc_increasing _ _ Hsorted), take_reverse.
  set (ms := messagesOf (Agent.agentType k) w) in *.
  destruct (reverse (drop (length ms - 50) ms)) as [|row fetched] eqn:Hrev.
  { apply (f_equal length) in Hrev.
    rewrite length_reverse, length_drop in Hrev. cbn in Hrev. lia. }
  rewrite <- Hrev, reverse_involutive.
  eexists _, _. split; [reflexivity|]. cbn. split; [done|].
  rewrite length_fmap, length_drop. lia.
Qed.

Lemma restore_keeps_latest_fifty_witness :
  ∃ this' w',
    Agent.restoreConversationHistory Agent.RouterAgent
      (Sample.agent Agent.RouterAgent []) Scenario.longArchive
    = (Ok this', w')
    ∧ length (Agent.messages this') = 50
    ∧ head (Agent.messages this')
      = Some (asChatMessage
                (Sample.stored 1 "router-agent" "user" "ping" 1)).
Proof.
  destruct (restore_keeps_latest_fifty Agent.RouterAgent
              (Sample.agent Agent.RouterAgent []) Sample.dbOps
              Scenario.longArchive)
    as (this' & w' & E & Hm & Hlen).
  - reflexivity.
  - apply (bool_decide_unpack _). vm_compute. exact I.
  - reflexivity.
  - vm_compute. lia.
  - exists this', w'. split; [exact E|]. split; [exact Hlen|].
    rewrite Hm. reflexivity.
Defined.

Lemma getSessionMessages_ok ops sessionId w :
  World.nextFault w = None →
  DbOperations.getSessionMessages ops sessionId w
  = (Ok (Sql.orderByDesc msg_createdAt
           (filter (λ m, msg_sessionId m = sessionId) (World.messages w))),
     World.issue w).
Proof.
  intros Hn. unfold DbOperations.getSessionMessages.
  by rewrite statement_ok.
Qed.

(** X22.  [getMessageCount] never throws and changes no table: it is the
    number of stored messages of the agent's session when storage
    answers, and 0 when the agent has no storage handle or session id, or
    when the query fails. *)
Theorem getMessageCount_counts this w :
  ∃ w',
    Agent.getMessageCount this w
    = (Ok match Agent.storage this, nthFault 0 w with
          | Some _, None => length (sessionRows (Agent.sessionId this) w)
          | _, _ => 0
          end, w')
    ∧ sameTables w w'.
Proof.
  unfold Agent.getMessageCount.
  destruct (Agent.storage this) as [ops|]; [|by eexists].
  unfold try_catch. rewrite run_bind.
  destruct (nthFault 0 w) as [e|] eqn:H0; rewrite <- nextFault_nth in H0.
  - unfold DbOperations.getSessionMessages.
    rewrite (statement_fault _ _ e) by done. by eexists.
  - rewrite getSessionMessages_ok by done. rewrite run_ret.
    eexists. split; [by rewrite orderByDesc_perm|done].
Qed.

Lemma updateSessionMetadata_ok ops sessionId metadata w :
  World.nextFault w = None →
  ∃ updated w',
    DbOperations.updateSessionMetadata ops sessionId metadata w
    = (Ok updated, w')
    ∧ sameButSessions w w'
    ∧ ses_id <$> World.sessions w' = ses_id <$> World.sessions w
    ∧ (∀ s, s ∈ World.sessions w' → ses_id s = sessionId →
            ses_metadata s = metadata ∧ ses_updatedAt s = World.now w)
    ∧ (∀ s, ses_id s ≠ sessionId →
            s ∈ World.sessions w' ↔ s ∈ World.sessions w).
Proof.
  intros Hn. unfold DbOperations.updateSessionMetadata.
  rewrite run_bind. cbn [newDate read]. rewrite run_bind.
  rewrite statement_ok by done. unfold Sql.updateSession.
  match goal with |- context [Sql.update ?P ?s ?t] =>
    pose proof (update_keys ses_id P s t (λ _, eq_refl)) as Hkeys;
    assert (Hin : ∀ x, x ∈ (Sql.update P s t).2
                       ↔ ∃ r, r ∈ t ∧ x = if decide (P r) then s r else r)
      by (intros x; cbn; rewrite list_elem_of_fmap; split;
          intros (r & ? & ?); by exists r);
    destruct (Sql.update P s t) as [rows table]
  end.
  cbn [fst snd] in *. rewrite run_ret.
  eexists _, _. split; [reflexivity|]. cbn.
  split; [done|]. split; [done|]. split.
  - intros s [r [Hr ->]]%Hin Hid. destruct (decide _); [done|]. done.
  - intros s Hid. rewrite Hin. split.
    + intros [r [Hr ->]]. destruct (decide _); [done|]. done.
    + intros Hs. exists s. split; [done|]. by rewrite decide_False.
Qed.

(** X23.  After a reply above the threshold, on healthy storage, the
    session row of the agent carries the time of the reply and the number
    of stored messages of the session, the reply just saved included.  No
    session row is added or removed, and other sessions are untouched. *)
Theorem reply_refreshes_session_metadata k this ops onFinish result w :
  10 < length (Agent.messages this) →
  Agent.storage this = Some ops →
  healthy w →
  ∃ this' w',
    Agent.streamOnFinish k this onFinish result w = (Ok this', w')
    ∧ ses_id <$> World.sessions w' = ses_id <$> World.sessions w
    ∧ (∀ s, s ∈ World.sessions w' → ses_id s = Agent.sessionId this →
            ses_metadata s
            = Js.JObj
                [ Js.field "lastActivity" (Js.JDate (World.now w));
                  Js.field "messageCount"
                    (Js.JNum (Z.of_nat
                       (S (length (sessionRows (Agent.sessionId this) w)))))
                ])
    ∧ (∀ s, ses_id s ≠ Agent.sessionId this →
            s ∈ World.sessions w' ↔ s ∈ World.sessions w).
Proof.
  intros Habove Hst Hh. unfold Agent.streamOnFinish.
  rewrite run_bind, Hst, (bool_decide_eq_true_2 _ Habove).
  unfold try_catch. rewrite !run_bind. cbn [newDate read].
  rewrite run_bind.
  match goal with |- context [DbOperations.saveMessage ops ?d w] =>
    destruct (saveMessage_ok ops d w (healthy_next w Hh))
      as (row & -> & _ & _ & _ & Hsid) end.
  cbn [new_msg_sessionId] in Hsid.
  rewrite run_bind. cbn [console_log effect]. rewrite !run_bind.
  cbn [newDate read]. rewrite run_bind.
  match goal with |- context [Agent.getMessageCount this ?w0] =>
    set (w1 := w0);
    assert (Hh1 : healthy w1) by (by apply healthy_saved)
  end.
  unfold Agent.getMessageCount. rewrite Hst. unfold try_catch at 1.
  rewrite run_bind, getSessionMessages_ok by by apply healthy_next.
  rewrite !run_ret.
  assert (Hcount :
    length (Sql.orderByDesc msg_createdAt
              (filter (λ m, msg_sessionId m = Agent.sessionId this)
                 (World.messages w1)))
    = S (length (sessionRows (Agent.sessionId this) w))).
  { rewrite orderByDesc_perm. subst w1. cbn. unfold sessionRows.
    rewrite filter_app, filter_cons_True by done.
    rewrite length_app. cbn. lia. }
  rewrite Hcount. rewrite run_bind.
  match goal with
  | |- context [DbOperations.updateSessionMetadata ops ?sid ?md ?w0] =>
      destruct (updateSessionMetadata_ok ops sid md w0)
        as (updated & w3 & -> & _ & Hkeys & Hmine & Hothers);
      [by apply healthy_next, healthy_issue|]
  end.
  rewrite run_ret.
  eexists _, _. split; [reflexivity|]. split; [exact Hkeys|].
  split; [|exact Hothers].
  intros s Hs Hid. by destruct (Hmine s Hs Hid) as [-> _].
Qed.

Lemma reply_refreshes_session_metadata_witness :
  ∃ this' w',
    Agent.streamOnFinish Agent.RouterAgent
      (Sample.agent Agent.RouterAgent (Sample.chatter 11)) None Sample.reply
      Scenario.connected = (Ok this', w')
    ∧ ∀ s, s ∈ World.sessions w' → ses_id s = "router-agent-persistent" →
           ses_metadata s
           = Js.JObj
               [ Js.field "lastActivity" (Js.JDate (World.now Sample.world));
                 Js.field "messageCount" (Js.JNum 1) ].
Proof.
  destruct (reply_refreshes_session_metadata Agent.RouterAgent
              (Sample.agent Agent.RouterAgent (Sample.chatter 11))
              Sample.dbOps None Sample.reply Scenario.connected)
    as (this' & w' & E & _ & Hmine & _).
  - vm_compute. lia.
  - reflexivity.
  - apply Forall_nil_2.
  - exists this', w'. split; [exact E|exact Hmine].
Defined.

(** X24.  [deleteOldMessages] takes [olderThanDays] whole days off the
    clock.  When the resulting instant is a valid date and the statement
    is accepted, the messages created at that very instant are removed and
    nothing else: every message older than that instant is still stored
    afterwards.  When the instant lies outside the range of a date, the
    call throws a [RangeError] and sends no statement. *)
Theorem deleteOldMessages_spares_older this olderThanDays w :
  let cutoff :=
    (World.now w - olderThanDays * DbOperationsRest.millisecondsPerDay)%Z in
  ((- DbOperationsRest.maxTime ≤ cutoff ≤ DbOperationsRest.maxTime)%Z →
   nthFault 0 w = None →
   ∃ w',
     DbOperationsRest.deleteOldMessages this olderThanDays w = (Ok tt, w')
     ∧ (∀ m, m ∈ World.messages w'
             ↔ m ∈ World.messages w ∧ msg_createdAt m ≠ cutoff)
     ∧ (∀ m, m ∈ World.messages w →
             (msg_createdAt m < cutoff)%Z → m ∈ World.messages w'))
  ∧ (¬ (- DbOperationsRest.maxTime ≤ cutoff ≤ DbOperationsRest.maxTime)%Z →
     DbOperationsRest.deleteOldMessages this olderThanDays w
     = (Throw (DbOperationsRest.RangeError "Invalid time value"), w)).
Proof.
  intros cutoff. unfold DbOperationsRest.deleteOldMessages.
  rewrite run_bind. cbn [newDate read]. fold cutoff. split.
  - intros Hrange H0. rewrite <- nextFault_nth in H0.
    rewrite decide_True by done. rewrite statement_ok by done.
    unfold SqlRest.deleteMessages. cbn [fst snd].
    eexists. split; [reflexivity|]. cbn [World.messages World.setMessages].
    change (World.messages (World.issue w)) with (World.messages w).
    split.
    + intros m. rewrite list_elem_of_filter. tauto.
    + intros m Hin Hlt. apply list_elem_of_filter. split; [lia|done].
  - intros Hout. by rewrite decide_False by done.
Qed.

Lemma deleteOldMessages_spares_older_witness :
  (∃ w',
     DbOperationsRest.deleteOldMessages Sample.dbOps 30 Sample.archive
     = (Ok tt, w')
     ∧ Sample.stored 0 "router-agent" "user" "hello" 10 ∈ World.messages w')
  ∧ DbOperationsRest.deleteOldMessages Sample.dbOps (-100000000)
      Sample.archive
    = (Throw (DbOperationsRest.RangeError "Invalid time value"),
       Sample.archive).
Proof.
  split.
  - destruct (deleteOldMessages_spares_older Sample.dbOps 30 Sample.archive)
      as [Hin _].
    destruct Hin as (w' & E & _ & Hold).
    + vm_compute. split; discriminate.
    + reflexivity.
    + exists w'. split; [exact E|]. apply Hold.
      * apply list_elem_of_here.
      * vm_compute. reflexivity.
  - apply (deleteOldMessages_spares_older Sample.dbOps (-100000000)
             Sample.archive).
    vm_compute. intros [_ H]. by apply H.
Defined.


(** ** The browser's session id (frontend lib/sessionManager.ts) *)

Lemma getSessionId_stored timestamp randomPart localStorage :
  let '(sessionId, localStorage') :=
    SessionManager.getSessionId timestamp randomPart localStorage in
  localStorage' !! SessionManager.SESSION_KEY = Some sessionId
  ∧ sessionId ≠ "".
Proof.
  unfold SessionManager.getSessionId.
  destruct (localStorage !! SessionManager.SESSION_KEY) as [stored|] eqn:Hs;
    cbn [Worker.given].
  - destruct (decide (stored = "")) as [->|Hne].
    + by rewrite lookup_insert_eq.
    + done.
  - by rewrite lookup_insert_eq.
Qed.

(** X26.  The browser's session id is stable: once [getSessionId] has run,
    every later call returns the same id and leaves [localStorage] as it
    is, whatever the time and the random source; the id is never empty.
    After [clearSession] the next call makes a new id from the time and
    the random source of that call. *)
Theorem session_id_is_stable timestamp randomPart timestamp' randomPart'
    localStorage :
  let first := SessionManager.getSessionId timestamp randomPart localStorage in
  SessionManager.getSessionId timestamp' randomPart' first.2 = first
  ∧ first.1 ≠ ""
  ∧ (SessionManager.getSessionId timestamp' randomPart'
       (SessionManager.clearSession first.2)).1
    = SessionManager.generateSessionId timestamp' randomPart'.
Proof.
  cbn zeta.
  pose proof (getSessionId_stored timestamp randomPart localStorage) as H.
  destruct (SessionManager.getSessionId timestamp randomPart localStorage)
    as [sessionId stored].
  destruct H as [Hstored Hne]. cbn [fst snd]. split_and!.
  - unfold SessionManager.getSessionId. rewrite Hstored. cbn [Worker.given].
    by rewrite decide_False.
  - done.
  - unfold SessionManager.getSessionId, SessionManager.clearSession.
    by rewrite lookup_delete_eq.
Qed.

(** X27.  [getSessionInfo] never reports a new session: it asks for the id
    first, which stores one, and only then looks whether one is stored. *)
Theorem session_info_is_never_new timestamp randomPart localStorage :
  SessionManager.isNew
    (SessionManager.getSessionInfo timestamp randomPart localStorage).1
  = false
  ∧ SessionManager.sessionId
      (SessionManager.getSessionInfo timestamp randomPart localStorage).1
    = (SessionManager.getSessionId timestamp randomPart localStorage).1.
Proof.
  unfold SessionManager.getSessionInfo.
  pose proof (getSessionId_stored timestamp randomPart localStorage) as H.
  destruct (SessionManager.getSessionId timestamp randomPart localStorage)
    as [sessionId stored].
  destruct H as [Hstored Hne]. cbn [fst snd SessionManager.isNew
    SessionManager.sessionId].
  split; [|done]. rewrite Hstored. cbn [Worker.given].
  rewrite decide_False by done. by apply bool_decide_eq_false_2.
Qed.

(** ** Tool executions and session removal (db/operations.ts,
    server.ts) *)

Import Executions.

Lemma runT_bind {A B} (m : T A) (f : A → T B) (s : Store) :
  (m ≫= f) s =
  match m s with
  | (Ok a, s') => f a s'
  | (Throw e, s') => (Throw e, s')
  end.
Proof. reflexivity. Qed.

Lemma statementT_ok {A} (run : Store → A * Store) (s : Store) :
  World.nextFault (world s) = None →
  statementT run s
  = (Ok (run (setWorld (World.issue (world s)) s)).1,
     (run (setWorld (World.issue (world s)) s)).2).
Proof. intros H. unfold statementT. rewrite H. by destruct (run _). Qed.

Lemma statementT_fault {A} (run : Store → A * Store) (s : Store) e :
  World.nextFault (world s) = Some e →
  statementT run s = (Throw e, setWorld (World.issue (world s)) s).
Proof. intros H. unfold statementT. by rewrite H. Qed.

Lemma storage_dbOps this ops :
  Agent.storage this = Some ops → Agent.dbOps this = Some ops.
Proof.
  unfold Agent.storage. destruct (Agent.dbOps this); [|done].
  by destruct (decide _).
Qed.

Lemma update_last_only {A} (P : A → Prop) `{∀ x, Decision (P x)}
    (set : A → A) (table : list A) (x : A) :
  Forall (λ y, ¬ P y) table → P x →
  Sql.update P set (table ++ [x]) = ([set x], table ++ [set x]).
Proof.
  intros Hno Hx. unfold Sql.update. f_equal.
  - rewrite filter_app, filter_cons_True, filter_nil by done.
    rewrite filter_none; [done|].
    intros y Hy. by apply (proj1 (Forall_forall _ _) Hno).
  - rewrite fmap_app. cbn. rewrite decide_True by done. f_equal.
    rewrite <- (list_fmap_id table) at 2. apply list_fmap_ext.
    intros i y Hy. apply list_elem_of_lookup_2 in Hy.
    rewrite decide_False; [done|].
    by apply (proj1 (Forall_forall _ _) Hno).
Qed.

(** X28.  A tool execution from start to completion, storage accepting
    both statements and the new uuid being fresh: [logToolStart] appends
    one pending row for the agent's session and returns its id;
    [logToolComplete] with that id sets the output and the status of that
    row and changes no other row and no other table. *)
Theorem tool_execution_lifecycle k this ops toolName input output status s :
  Agent.storage this = Some ops →
  nthFault 0 (world s) = None → nthFault 1 (world s) = None →
  Forall (λ e, te_id e ≠ Uuid (World.nextUuid (world s))) (toolExecutions s) →
  ∃ started s1 s2,
    AgentRest.logToolStart k this toolName input s
    = (Ok (Some (te_id started)), s1)
    ∧ toolExecutions s1 = toolExecutions s ++ [started]
    ∧ started
      = {| te_id := Uuid (World.nextUuid (world s));
           te_sessionId := Agent.sessionId this;
           te_toolName := toolName; te_input := input;
           te_output := Js.JNull; te_status := "pending";
           te_executedAt := World.now (world s) |}
    ∧ AgentRest.logToolComplete k this (Some (te_id started)) output status s1
      = (Ok tt, s2)
    ∧ toolExecutions s2
      = toolExecutions s ++ [completed started output status]
    ∧ sameTables (world s) (world s2).
Proof.
  intros Hst H0 H1 Hfresh.
  pose proof (storage_dbOps this ops Hst) as Hops.
  rewrite <- nextFault_nth in H0.
  unfold AgentRest.logToolStart. rewrite Hst.
  unfold try_catchT at 1. rewrite runT_bind.
  unfold ToolExecutions.logToolExecution. unfold try_catchT at 1.
  rewrite !runT_bind. unfold lift at 1. cbn [newDate read].
  rewrite runT_bind.
  assert (setWorld (world s) s = s) as -> by (by destruct s).
  rewrite statementT_ok by done. cbn [fst snd head].
  eexists _, _, _. split; [reflexivity|]. cbn [toolExecutions].
  split; [reflexivity|]. split; [reflexivity|].
  unfold AgentRest.logToolComplete. rewrite Hops.
  cbn [AgentRest.givenId te_id].
  unfold try_catchT. rewrite runT_bind.
  unfold ToolExecutions.updateToolExecution. rewrite runT_bind.
  rewrite statementT_ok.
  2:{ unfold World.nextFault, nthFault in *. cbn.
      by destruct (World.faults (world s)) as [|? [|? ?]]. }
  cbn [fst snd world toolExecutions setWorld setToolExecutions lift
       console_log effect].
  rewrite update_last_only by first [exact Hfresh | done].
  cbn. done.
Qed.

Lemma tool_execution_lifecycle_witness :
  ∃ started s1 s2,
    AgentRest.logToolStart Agent.CampaignAgent
      (Sample.agent Agent.CampaignAgent []) "getShopifyOrders" Js.JNull
      Scenario.store = (Ok (Some (Executions.te_id started)), s1)
    ∧ AgentRest.logToolComplete Agent.CampaignAgent
        (Sample.agent Agent.CampaignAgent [])
        (Some (Executions.te_id started)) (Js.JStr "3 orders") "success" s1
      = (Ok tt, s2)
    ∧ Executions.toolExecutions s2
      = [completed started (Js.JStr "3 orders") "success"].
Proof.
  destruct (tool_execution_lifecycle Agent.CampaignAgent
              (Sample.agent Agent.CampaignAgent []) Sample.dbOps
              "getShopifyOrders" Js.JNull (Js.JStr "3 orders") "success"
              Scenario.store)
    as (started & s1 & s2 & E1 & _ & _ & E2 & Ht & _).
  - reflexivity.
  - reflexivity.
  - reflexivity.
  - apply Forall_nil_2.
  - exists started, s1, s2. split; [exact E1|]. split; [exact E2|exact Ht].
Defined.

(** X29.  Logging a tool execution never throws, whatever storage does.
    [logToolStart] returns an id exactly when the agent has its storage
    handle and session id and the insert is accepted, and without an id
    no row was written.  [logToolComplete] adds and removes no row and
    leaves every row with another id as it is. *)
Theorem tool_logging_never_throws k this toolName input executionId output
    status s :
  (∃ r s',
     AgentRest.logToolStart k this toolName input s = (Ok r, s')
     ∧ (is_Some r
        ↔ is_Some (Agent.storage this) ∧ nthFault 0 (world s) = None)
     ∧ (r = None → toolExecutions s' = toolExecutions s))
  ∧ (∃ s',
       AgentRest.logToolComplete k this executionId output status s
       = (Ok tt, s')
       ∧ te_id <$> toolExecutions s' = te_id <$> toolExecutions s
       ∧ (∀ e, e ∈ toolExecutions s → Some (te_id e) ≠ executionId →
               e ∈ toolExecutions s')).
Proof.
  split.
  - unfold AgentRest.logToolStart.
    destruct (Agent.storage this) as [ops|].
    2:{ exists None, s. split; [done|]. split; [|done].
        split; [by intros [? [=]]|by intros [[? [=]] _]]. }
    unfold try_catchT at 1. rewrite runT_bind.
    unfold ToolExecutions.logToolExecution. unfold try_catchT at 1.
    rewrite !runT_bind. unfold lift at 1. cbn [newDate read].
    rewrite runT_bind.
    assert (setWorld (world s) s = s) as -> by (by destruct s).
    destruct (nthFault 0 (world s)) as [e|] eqn:H0;
      rewrite <- nextFault_nth in H0.
    + rewrite (statementT_fault _ _ e) by done.
      eexists None, _. split; [reflexivity|]. split; [|done].
      split; [by intros [? [=]]|by intros [_ [=]]].
    + rewrite statementT_ok by done.
      eexists (Some _), _. split; [reflexivity|]. split; [|done].
      split; [|by eexists]. intros _. split; [by eexists|done].
  - unfold AgentRest.logToolComplete.
    destruct (Agent.dbOps this) as [ops|]; [|by exists s].
    destruct (AgentRest.givenId executionId) as [id|] eqn:Hid;
      [|by exists s].
    assert (executionId = Some id) as ->.
    { destruct executionId as [[n|[|c str]]|]; by simplify_eq/=. }
    unfold try_catchT. rewrite runT_bind.
    unfold ToolExecutions.updateToolExecution. rewrite runT_bind.
    unfold statementT.
    destruct (World.nextFault (world s)); [by eexists|].
    match goal with |- context [Sql.update ?P ?f ?t] =>
      pose proof (update_keys te_id P f t (λ _, eq_refl)) as Hkeys;
      assert (Hin : ∀ x, x ∈ t → ¬ P x → x ∈ (Sql.update P f t).2);
      [|destruct (Sql.update P f t) as [rows table]]
    end.
    { intros x Hx Hp. cbn. apply list_elem_of_fmap. exists x.
      by rewrite decide_False. }
    cbn [fst snd] in *. eexists. split; [reflexivity|].
    cbn. split; [done|]. intros e He Hne. apply Hin; [done|].
    intros <-. done.
Qed.

(** X30.  [deleteSession] is all or nothing.  When storage accepts its
    five requests (the three deletes and the transaction's begin and
    commit), the messages, the tool executions and the row of the session
    are gone, rows of other sessions are untouched, and the session's
    rows in the integration registry are still there.  When any of the
    five is rejected, that error is thrown and every table is as
    before. *)
Theorem deleteSession_all_or_nothing this sessionId s :
  ∃ s',
    match firstFault 5 (world s) with
    | None =>
        ToolExecutions.deleteSession this sessionId s = (Ok tt, s')
        ∧ World.messages (world s')
          = filter (λ m, msg_sessionId m ≠ sessionId)
              (World.messages (world s))
        ∧ toolExecutions s'
          = filter (λ e, te_sessionId e ≠ sessionId) (toolExecutions s)
        ∧ World.sessions (world s')
          = filter (λ x, ses_id x ≠ sessionId) (World.sessions (world s))
        ∧ World.integrationConnections (world s')
          = World.integrationConnections (world s)
        ∧ World.prompts (world s') = World.prompts (world s)
    | Some e =>
        ToolExecutions.deleteSession this sessionId s = (Throw e, s')
        ∧ sameTables (world s) (world s')
        ∧ toolExecutions s' = toolExecutions s
    end.
Proof.
  destruct s as [w table].
  destruct w as [msgs sess ics prs faults sts ended now uuid tos con].
  unfold firstFault. cbn [world World.faults].
  destruct faults as [|[e0|] [|[e1|] [|[e2|] [|[e3|] [|[e4|] faults]]]]];
    eexists; lazy; (split_and!; reflexivity).
Qed.
